(** * zim2md: path mapping and reference resolution of zim2obs.py

    A shallow embedding of [src/zim2obs.py] (and of the fence loop of the
    legacy [src/zim2obsidian.py]) together with the properties the
    specification states about it.

    Conventions of the embedding.
    - A Python [str] is a [string]; every [ascii] stands for the code point
      of the same number (code points 0..255).  On that range [\d] is
      [0-9] and [\s] / [str.isspace] is the set listed in [is_space].
    - Python integers are unbounded ([N], [Z]); the interpreter's limit on
      the length of a decimal literal handed to [int] is not modelled.
    - Regular expressions are kept as syntax trees ([Re.regex]) and run by
      a backtracking matcher with the leftmost, greedy/lazy semantics of
      Python's [re]; every pattern of the source is transcribed literally.
    - [pathlib] paths are lists of components compared component-wise
      (the POSIX comparison; the anchor is the first component).  The
      operating-system flavour only fixes the separators.
    - Exceptions are values of [exn]; [print] appends to a log. *)

From Stdlib Require Import String Ascii List NArith ZArith Lia Bool.
From Stdlib Require Import DecimalString DecimalN DecimalPos FinFun.
From stdpp Require Import gmap strings.

Open Scope list_scope.
Open Scope string_scope.

(* ===================================================================== *)
(** ** Characters and strings as Python sees them *)
(* ===================================================================== *)

Module PyStr.

Definition code (c : ascii) : nat := nat_of_ascii c.

Definition newline : ascii := ascii_of_nat 10.

Definition is_newline (c : ascii) : bool := Nat.eqb (code c) 10.

(** [\d] on code points below 256. *)
Definition is_digit (c : ascii) : bool :=
  Nat.leb 48 (code c) && Nat.leb (code c) 57.

(** [\s] and [str.isspace] on code points below 256. *)
Definition is_space (c : ascii) : bool :=
  let n := code c in
  (Nat.leb 9 n && Nat.leb n 13) || (Nat.leb 28 n && Nat.leb n 32)
  || Nat.eqb n 133 || Nat.eqb n 160.

Definition ch (c : ascii) : ascii -> bool := fun x => Ascii.eqb x c.

Fixpoint stake (n : nat) (s : string) : string :=
  match n, s with
  | S n', String c s' => String c (stake n' s')
  | _, _ => ""
  end.

Fixpoint sdrop (n : nat) (s : string) : string :=
  match n, s with
  | S n', String _ s' => sdrop n' s'
  | _, _ => s
  end.

(** [s.startswith(p)] *)
Fixpoint startswith (s p : string) : bool :=
  match p, s with
  | "", _ => true
  | String a p', String b s' => Ascii.eqb a b && startswith s' p'
  | String _ _, "" => false
  end.

(** [c in s] for a one-character [c]. *)
Fixpoint has_char (c : ascii) (s : string) : bool :=
  match s with
  | "" => false
  | String x s' => Ascii.eqb x c || has_char c s'
  end.

(** [s.find(sub)], [None] standing for -1. *)
Fixpoint find (sub s : string) : option nat :=
  if startswith s sub then Some 0
  else match s with
       | "" => None
       | String _ s' => option_map S (find sub s')
       end.

(** [s.rfind(c)] for a predicate on characters: index of the last
    character satisfying it. *)
Fixpoint rfind_if (p : ascii -> bool) (s : string) : option nat :=
  match s with
  | "" => None
  | String c s' =>
      match rfind_if p s' with
      | Some i => Some (S i)
      | None => if p c then Some 0 else None
      end
  end.

(** [s.replace(old, new)]: every non-overlapping occurrence, left to
    right.  [skip] counts the characters of an occurrence still to be
    dropped.  The source never calls it with an empty [old]. *)
Fixpoint replace_aux (old new : string) (skip : nat) (s : string) : string :=
  match s with
  | "" => ""
  | String c s' =>
      match skip with
      | S k => replace_aux old new k s'
      | O =>
          if startswith s old
          then new ++ replace_aux old new (String.length old - 1) s'
          else String c (replace_aux old new 0 s')
      end
  end.

Definition replace (old new s : string) : string :=
  match old with
  | "" => s
  | _ => replace_aux old new 0 s
  end.

(** [s.replace(old, new, 1)] *)
Fixpoint replace_first (old new s : string) : string :=
  if startswith s old then new ++ sdrop (String.length old) s
  else match s with
       | "" => ""
       | String c s' => String c (replace_first old new s')
       end.

(** [s.split(c)] for a one-character separator. *)
Fixpoint split_on (p : ascii -> bool) (s : string) : list string :=
  match s with
  | "" => [""]
  | String c s' =>
      if p c then "" :: split_on p s'
      else match split_on p s' with
           | w :: ws => String c w :: ws
           | [] => [String c ""]
           end
  end.

(** [sep.join(parts)] *)
Fixpoint join (sep : string) (parts : list string) : string :=
  match parts with
  | [] => ""
  | [w] => w
  | w :: ws => w ++ sep ++ join sep ws
  end.

Fixpoint lstrip (s : string) : string :=
  match s with
  | String c s' => if is_space c then lstrip s' else s
  | "" => ""
  end.

Fixpoint rstrip (s : string) : string :=
  match s with
  | "" => ""
  | String c s' =>
      match rstrip s' with
      | "" => if is_space c then "" else String c ""
      | t => String c t
      end
  end.

(** [s.strip()] *)
Definition strip (s : string) : string := rstrip (lstrip s).

(** [str(n)] of a non-negative integer. *)
Definition str_of_N (n : N) : string := NilEmpty.string_of_uint (N.to_uint n).

(** [int(s)] of a string of decimal digits (the only use in the source is
    on the text matched by [\d+]). *)
Definition int_of_digits (s : string) : N :=
  match NilEmpty.uint_of_string s with
  | Some d => N.of_uint d
  | None => 0%N
  end.

Fixpoint all_chars (p : ascii -> bool) (s : string) : bool :=
  match s with
  | "" => true
  | String c s' => p c && all_chars p s'
  end.

End PyStr.

(* ===================================================================== *)
(** ** Regular expressions: Python's [re] on the patterns of the source *)
(* ===================================================================== *)

Module Re.
Import PyStr.

(** Every repetition in the source's patterns is over a single character
    or character class, so a quantified class is the atom.  [hi = None]
    is an open upper bound. *)
Inductive regex : Type :=
| Eps
| Chars (cls : ascii -> bool) (lo : nat) (hi : option nat) (greedy : bool)
| Bol
| Eol
| Seq (r1 r2 : regex)
| Grp (n : nat) (r : regex).

Definition captures := list (nat * string).

Fixpoint group (n : nat) (caps : captures) : string :=
  match caps with
  | [] => ""
  | (m, s) :: rest => if Nat.eqb m n then s else group n rest
  end.

Definition room (hi : option nat) : bool :=
  match hi with Some O => false | _ => true end.

Definition less (hi : option nat) : option nat := option_map Nat.pred hi.

(** [rep]: match [cls{lo,hi}] at the head of [s], then the continuation.
    Greedy takes the longest run first and gives characters back; lazy
    tries the continuation first. *)
Fixpoint rep {A : Type} (cls : ascii -> bool) (greedy : bool)
    (lo : nat) (hi : option nat) (pos : nat) (s : string)
    (k : nat -> string -> option A) {struct s} : option A :=
  match lo with
  | S lo' =>
      match s with
      | String c s' =>
          if cls c && room hi
          then rep cls greedy lo' (less hi) (S pos) s' k
          else None
      | "" => None
      end
  | O =>
      if greedy then
        match
          match s with
          | String c s' =>
              if cls c && room hi
              then rep cls greedy 0 (less hi) (S pos) s' k
              else None
          | "" => None
          end
        with
        | Some r => Some r
        | None => k pos s
        end
      else
        match k pos s with
        | Some r => Some r
        | None =>
            match s with
            | String c s' =>
                if cls c && room hi
                then rep cls greedy 0 (less hi) (S pos) s' k
                else None
            | "" => None
            end
        end
  end.

(** [$] without MULTILINE: at the end, or before a final newline. *)
Definition at_eol (s : string) : bool :=
  match s with
  | "" => true
  | String c "" => is_newline c
  | _ => false
  end.

(** The matcher, in continuation-passing style: [pos] is the index of
    [s] in the subject, [caps] the groups closed so far. *)
Fixpoint mtch {A : Type} (r : regex) (pos : nat) (s : string) (caps : captures)
    (k : nat -> string -> captures -> option A) : option A :=
  match r with
  | Eps => k pos s caps
  | Chars cls lo hi g => rep cls g lo hi pos s (fun pos' s' => k pos' s' caps)
  | Bol => if Nat.eqb pos 0 then k pos s caps else None
  | Eol => if at_eol s then k pos s caps else None
  | Seq r1 r2 =>
      mtch r1 pos s caps (fun pos1 s1 caps1 => mtch r2 pos1 s1 caps1 k)
  | Grp n r1 =>
      mtch r1 pos s caps
        (fun pos1 s1 caps1 => k pos1 s1 ((n, stake (pos1 - pos) s) :: caps1))
  end.

(** A match: where it starts and ends, what follows it, and its groups. *)
Record found := Found {
  f_start : nat;
  f_end : nat;
  f_rest : string;
  f_caps : captures
}.

Definition match_here (r : regex) (pos : nat) (s : string) : option found :=
  mtch r pos s [] (fun e s' caps => Some (Found pos e s' caps)).

(** [re.search] from index [pos], [s] being the subject from there on. *)
Fixpoint search_from (r : regex) (pos : nat) (s : string) : option found :=
  match match_here r pos s with
  | Some f => Some f
  | None =>
      match s with
      | String _ s' => search_from r (S pos) s'
      | "" => None
      end
  end.

Definition search (r : regex) (s : string) : option found := search_from r 0 s.

(** [re.fullmatch] *)
Definition fullmatch (r : regex) (s : string) : bool :=
  match mtch r 0 s []
          (fun _ s' _ => match s' with "" => Some tt | _ => None end) with
  | Some _ => true
  | None => false
  end.

(** [re.findall]: the groups of the non-overlapping matches, left to
    right.  After an empty match the scan moves on by one character. *)
Fixpoint findall_from (fuel : nat) (r : regex) (pos : nat) (s : string)
    : list captures :=
  match fuel with
  | O => []
  | S fuel' =>
      match search_from r pos s with
      | None => []
      | Some f =>
          f_caps f ::
          (if Nat.eqb (f_end f) (f_start f)
           then match f_rest f with
                | String _ t => findall_from fuel' r (S (f_end f)) t
                | "" => []
                end
           else findall_from fuel' r (f_end f) (f_rest f))
      end
  end.

Definition findall (r : regex) (s : string) : list captures :=
  findall_from (S (String.length s)) r 0 s.

(** A replacement template: literal text and [\g<n>] references. *)
Inductive piece := Txt (t : string) | Ref (n : nat).

Fixpoint expand (tmpl : list piece) (caps : captures) : string :=
  match tmpl with
  | [] => ""
  | Txt t :: rest => t ++ expand rest caps
  | Ref n :: rest => group n caps ++ expand rest caps
  end.

(** [re.sub(r, tmpl, s, count)]; [count = None] replaces every match. *)
Fixpoint sub_from (fuel : nat) (r : regex) (tmpl : list piece)
    (count : option nat) (pos : nat) (s : string) : string :=
  match fuel with
  | O => s
  | S fuel' =>
      if room count then
        match search_from r pos s with
        | None => s
        | Some f =>
            stake (f_start f - pos) s ++ expand tmpl (f_caps f) ++
            (if Nat.eqb (f_end f) (f_start f)
             then match f_rest f with
                  | String c t =>
                      String c (sub_from fuel' r tmpl (less count) (S (f_end f)) t)
                  | "" => ""
                  end
             else sub_from fuel' r tmpl (less count) (f_end f) (f_rest f))
        end
      else s
  end.

Definition sub (r : regex) (tmpl : list piece) (s : string) : string :=
  sub_from (S (String.length s)) r tmpl None 0 s.

Definition sub_count (r : regex) (tmpl : list piece) (s : string) (n : nat)
    : string :=
  sub_from (S (String.length s)) r tmpl (Some n) 0 s.

(** Notation for patterns. *)
Definition one (cls : ascii -> bool) : regex := Chars cls 1 (Some 1) true.
Definition plus (cls : ascii -> bool) : regex := Chars cls 1 None true.
Definition star (cls : ascii -> bool) : regex := Chars cls 0 None true.
Definition plus_lazy (cls : ascii -> bool) : regex := Chars cls 1 None false.
Definition star_lazy (cls : ascii -> bool) : regex := Chars cls 0 None false.
Definition opt (cls : ascii -> bool) : regex := Chars cls 0 (Some 1) true.
Definition exactly (n : nat) (cls : ascii -> bool) : regex := Chars cls n (Some n) true.
Definition upto (n : nat) (cls : ascii -> bool) : regex := Chars cls 0 (Some n) true.

(** [.] *)
Definition dot : ascii -> bool := fun c => negb (is_newline c).
(** [[^c]] *)
Definition non (c : ascii) : ascii -> bool := fun x => negb (Ascii.eqb x c).
(** [\S] *)
Definition non_space : ascii -> bool := fun c => negb (is_space c).

(** A literal string. *)
Fixpoint lit (t : string) : regex :=
  match t with
  | "" => Eps
  | String c t' => Seq (one (ch c)) (lit t')
  end.

Fixpoint seq (rs : list regex) : regex :=
  match rs with
  | [] => Eps
  | r :: rs' => Seq r (seq rs')
  end.

End Re.

(* ===================================================================== *)
(** ** [os.path] and [pathlib] *)
(* ===================================================================== *)

Module OsPath.
Import PyStr.

(** The two flavours of [os.path]: [posixpath] has the separator [/];
    [ntpath] has [\] and the alternative separator [/].  Drive letters
    are not given a meaning of their own. *)
Inductive flavour := Posix | Nt.

Definition sep (fl : flavour) : ascii :=
  match fl with Posix => "/"%char | Nt => "\"%char end.

Definition sep_str (fl : flavour) : string := String (sep fl) "".

Definition is_sep (fl : flavour) (c : ascii) : bool :=
  match fl with
  | Posix => Ascii.eqb c "/"
  | Nt => Ascii.eqb c "\" || Ascii.eqb c "/"
  end.

Definition is_dot (c : ascii) : bool := Ascii.eqb c ".".

(** [genericpath._splitext]: the extension starts at the last dot, when
    that dot comes after the last separator and after a character of the
    file name that is not a dot. *)
Definition splitext (fl : flavour) (p : string) : string * string :=
  let sepIndex := rfind_if (is_sep fl) p in
  let filenameIndex := match sepIndex with Some i => S i | None => 0 end in
  match rfind_if is_dot p with
  | Some dotIndex =>
      if Nat.ltb filenameIndex dotIndex
         && negb (all_chars is_dot
                    (stake (dotIndex - filenameIndex) (sdrop filenameIndex p)))
      then (stake dotIndex p, sdrop dotIndex p)
      else (p, "")
  | None => (p, "")
  end.

(** [os.path.split(p)[-1]]: what follows the last separator. *)
Definition split_tail (fl : flavour) (p : string) : string :=
  match rfind_if (is_sep fl) p with
  | Some i => sdrop (S i) p
  | None => p
  end.

Fixpoint last_char (s : string) : option ascii :=
  match s with
  | "" => None
  | String c "" => Some c
  | String _ s' => last_char s'
  end.

(** [os.path.join(a, b)] for a [b] that is not absolute. *)
Definition os_join (fl : flavour) (a b : string) : string :=
  match last_char a with
  | None => b
  | Some c => if is_sep fl c then a ++ b else a ++ sep_str fl ++ b
  end.

(** A [pathlib] path: its components, the anchor first ([""] is the
    root of a POSIX path, ["C:"] a drive). *)
Abbreviation path := (list string).

Definition part_ok (w : string) : bool :=
  negb (String.eqb w "") && negb (String.eqb w ".").

(** The components of a relative path string: empty components and [.]
    are dropped, as [pathlib] does. *)
Definition rel_parts (fl : flavour) (s : string) : path :=
  List.filter part_ok (split_on (is_sep fl) s).

(** [Path(s)] *)
Definition parse_path (fl : flavour) (s : string) : path :=
  match s with
  | "" => []
  | String c _ => if is_sep fl c then "" :: rel_parts fl s else rel_parts fl s
  end.

(** [p.joinpath(s)] for a string segment: an absolute segment replaces
    the path. *)
Definition joinpath (fl : flavour) (p : path) (s : string) : path :=
  match s with
  | "" => p
  | String c _ => if is_sep fl c then parse_path fl s else (p ++ rel_parts fl s)%list
  end.

(** [str(p)] *)
Definition path_str (fl : flavour) (p : path) : string :=
  match p with
  | [] => "."
  | [""] => sep_str fl
  | _ => join (sep_str fl) p
  end.

Fixpoint strip_prefix (base p : path) : option path :=
  match base, p with
  | [], _ => Some p
  | b :: base', x :: p' => if String.eqb b x then strip_prefix base' p' else None
  | _ :: _, [] => None
  end.

(** [p.relative_to(base)]; [None] is the [ValueError]. *)
Definition relative_to (p base : path) : option path := strip_prefix base p.

(** [PurePath.suffix] of a file name. *)
Definition suffix (name : string) : string :=
  match rfind_if is_dot name with
  | Some i =>
      if Nat.ltb 0 i && Nat.ltb i (String.length name - 1)
      then sdrop i name else ""
  | None => ""
  end.

Definition name_with_suffix (name suf : string) : string :=
  stake (String.length name - String.length (suffix name)) name ++ suf.

(** [p.with_suffix(suf)]; [None] is the [ValueError] for a path without
    a name (the source only passes [".md"], [".txt"] and [""]). *)
Fixpoint with_suffix (p : path) (suf : string) : option path :=
  match p with
  | [] => None
  | [name] => if String.eqb name "" then None else Some [name_with_suffix name suf]
  | a :: p' => option_map (cons a) (with_suffix p' suf)
  end.

(** [os.path.basename(str(p))] *)
Definition basename (p : path) : string := List.last p "".

Fixpoint common_prefix_len (a b : path) : nat :=
  match a, b with
  | x :: a', y :: b' => if String.eqb x y then S (common_prefix_len a' b') else 0
  | _, _ => 0
  end.

(** [os.path.relpath(p, start)] on absolute paths. *)
Definition relpath (fl : flavour) (p start : path) : string :=
  let i := common_prefix_len start p in
  match (List.repeat ".." (List.length start - i) ++ List.skipn i p)%list with
  | [] => "."
  | l => join (sep_str fl) l
  end.

End OsPath.

(* ===================================================================== *)
(** ** UniqueNameAllocator: [make_unique_string] *)
(* ===================================================================== *)

Import PyStr Re OsPath.

(** ["(.*?)(\d+)(\..+)"] *)
Definition re_final_digits : regex :=
  seq [ Grp 1 (star_lazy dot);
        Grp 2 (plus is_digit);
        Grp 3 (Seq (one (ch ".")) (plus dot)) ].

(** One turn of the [while] body: the next proposed name. *)
Definition next_name (fl : flavour) (proposed_filename : string) : string :=
  match findall re_final_digits proposed_filename with
  | final_digits0 :: _ =>
      let previous_digits := group 2 final_digits0 in
      let new_digits := str_of_N (int_of_digits previous_digits + 1) in
      group 1 final_digits0 ++ new_digits ++ group 3 final_digits0
  | [] =>
      let '(fname, extension) := splitext fl proposed_filename in
      fname ++ " 1" ++ extension
  end.

Definition in_list (x : string) (l : list string) : bool :=
  existsb (String.eqb x) l.

(** The [while] loop, with the turns of its body counted.  [None]: the
    fuel ran out before the loop ended. *)
Fixpoint make_unique_loop (fuel : nat) (fl : flavour)
    (existing_names : list string) (proposed_filename : string) (turns : nat)
    : option (string * nat) :=
  if in_list proposed_filename existing_names then
    match fuel with
    | O => None
    | S fuel' =>
        make_unique_loop fuel' fl existing_names
          (next_name fl proposed_filename) (S turns)
    end
  else Some (proposed_filename, turns).

(** [make_unique_string]: the loop run with as many turns allowed as
    there are existing names, which is always enough. *)
Definition make_unique_string (fl : flavour) (existing_names : list string)
    (requested_name : string) : option string :=
  option_map fst
    (make_unique_loop (List.length existing_names) fl existing_names
       requested_name 0).

(* ===================================================================== *)
(** ** Exceptions and printed output *)
(* ===================================================================== *)

Inductive exn :=
| ValueError
| KeyError
| IndexError
| UnboundLocalError
| AbsoluteInsideZim (target line : string).

(** What the source prints, by the place that prints it. *)
Inductive message :=
| CouldNotReadImage (image file : path)
| UnknownOption (key line : string) (file : path)
| ErrorInFile (file : path) (line : string).

(** A computation that prints and may raise. *)
Definition M (A : Type) : Type := (list message * (exn + A))%type.

Definition ret {A : Type} (a : A) : M A := ([], inr a).
Definition raise {A : Type} (e : exn) : M A := ([], inl e).
Definition print (m : message) : M unit := ([m], inr tt).

Definition bind {A B : Type} (c : M A) (k : A -> M B) : M B :=
  match c with
  | (log, inl e) => (log, inl e)
  | (log, inr a) => let '(log', r) := k a in ((log ++ log')%list, r)
  end.

Notation "'let*' x ':=' c 'in' k" := (bind c (fun x => k))
  (at level 10, x pattern, c at level 100, k at level 200).

(** [d[k]] *)
Definition getitem {V : Type} (d : gmap path V) (k : path) : M V :=
  match d !! k with
  | Some v => ret v
  | None => raise KeyError
  end.

Definition or_raise {A : Type} (e : exn) (o : option A) : M A :=
  match o with
  | Some a => ret a
  | None => raise e
  end.

Fixpoint foldM {A B : Type} (f : A -> B -> M A) (l : list B) (a : A) : M A :=
  match l with
  | [] => ret a
  | x :: l' => let* a' := f a x in foldM f l' a'
  end.

(* ===================================================================== *)
(** ** PathMapper: [map_zim_dir_to_obsidian_dir] *)
(* ===================================================================== *)

(** ["^Content-Type: text/x-zim-wiki$"] *)
Definition re_content_type : regex :=
  seq [Bol; lit "Content-Type: text/x-zim-wiki"; Eol].

(** ["^Wiki-Format: zim 0\.[0-6]$"] *)
Definition re_wiki_format : regex :=
  seq [Bol; lit "Wiki-Format: zim 0.";
       one (fun c => Nat.leb 48 (code c) && Nat.leb (code c) 54); Eol].

Definition __compatible (lines : list string) : bool :=
  match lines with
  | l0 :: l1 :: _ =>
      fullmatch re_content_type (strip l0)
      && fullmatch re_wiki_format (strip l1)
  | _ => false
  end.

(** [compatible(path)], on the lines of the file at [path]. *)
Definition compatible (file_lines : list string) : bool :=
  __compatible (firstn 4 file_lines).

(** A file as [os.walk] and [open] present it: its name in its
    directory and its lines. *)
Record file_entry := {
  fe_name : string;
  fe_lines : list string
}.

(** One triple of [os.walk(zim_dir)], with [walkroot] already relative
    to [zim_dir] ([relroot]).  Names are single path components. *)
Record walk_entry := {
  w_relroot : path;
  w_folders : list string;
  w_files : list file_entry
}.

Record policy := {
  ignore_extensions : list string;
  use_folder_notes : bool;
  use_global_attachments : bool;
  global_attachments_relative_path : path
}.

Record maps := {
  folder_map : gmap path path;
  note_map : gmap path path;
  file_map : gmap path path
}.

Definition empty_maps : maps :=
  {| folder_map := ∅; note_map := ∅; file_map := ∅ |}.

(** [d.values()] *)
Definition values (d : gmap path path) : list path := (map_to_list d).*2.

Definition path_in (p : path) (l : list path) : bool :=
  existsb (fun q => bool_decide (p = q)) l.

Section Mapper.
Variable fl : flavour.
Variables zim_dir obs_dir : path.
Variable pol : policy.

Definition map_folder (relroot : path) (m : maps) (folder : string) : maps :=
  let c_folderpath_old := (zim_dir ++ relroot ++ [folder])%list in
  let c_folderpath_new := (obs_dir ++ relroot ++ [folder])%list in
  {| folder_map := <[c_folderpath_old := c_folderpath_new]> (folder_map m);
     note_map := note_map m;
     file_map := file_map m |}.

(** The body of [for file in files]; [None] when [with_suffix] raises
    or the allocator's loop is cut short (neither happens, see
    [map_file_total]). *)
Definition map_file (relroot : path) (m : maps) (f : file_entry)
    : option maps :=
  let file := fe_name f in
  let c_filepath_old := (zim_dir ++ relroot ++ [file])%list in
  if String.eqb (snd (splitext fl file)) ".txt" && compatible (fe_lines f)
  then
    let potential_folder_path :=
      (obs_dir ++ relroot ++ [fst (splitext fl file)])%list in
    let c_filepath_new :=
      if use_folder_notes pol
         && path_in potential_folder_path (values (folder_map m))
      then (potential_folder_path ++ [file])%list
      else (obs_dir ++ relroot ++ [file])%list in
    match with_suffix c_filepath_new ".md" with
    | Some c_filepath_new =>
        Some {| folder_map := folder_map m;
                note_map := <[c_filepath_old := c_filepath_new]> (note_map m);
                file_map := file_map m |}
    | None => None
    end
  else if in_list (snd (splitext fl file)) (ignore_extensions pol)
  then Some m
  else if use_global_attachments pol then
    let proposed_name :=
      (obs_dir ++ global_attachments_relative_path pol ++ [file])%list in
    match make_unique_string fl
            (List.map (path_str fl) (values (file_map m)))
            (path_str fl proposed_name) with
    | Some unique_filename =>
        Some {| folder_map := folder_map m;
                note_map := note_map m;
                file_map :=
                  <[c_filepath_old := parse_path fl unique_filename]>
                    (file_map m) |}
    | None => None
    end
  else
    let c_filepath_new := (obs_dir ++ relroot ++ [file])%list in
    Some {| folder_map := folder_map m;
            note_map := note_map m;
            file_map := <[c_filepath_old := c_filepath_new]> (file_map m) |}.

Fixpoint map_files (relroot : path) (files : list file_entry) (m : maps)
    : option maps :=
  match files with
  | [] => Some m
  | f :: files' =>
      match map_file relroot m f with
      | Some m' => map_files relroot files' m'
      | None => None
      end
  end.

(** The body of [for walkroot, folders, files in os.walk(zim_dir)]. *)
Definition map_walk_entry (m : maps) (w : walk_entry) : option maps :=
  map_files (w_relroot w) (w_files w)
    (fold_left (map_folder (w_relroot w)) (w_folders w) m).

Fixpoint map_walk (walk : list walk_entry) (m : maps) : option maps :=
  match walk with
  | [] => Some m
  | w :: walk' =>
      match map_walk_entry m w with
      | Some m' => map_walk walk' m'
      | None => None
      end
  end.

(** [map_zim_dir_to_obsidian_dir], on the sequence [os.walk] yields. *)
Definition map_zim_dir_to_obsidian_dir (walk : list walk_entry)
    : option maps :=
  map_walk walk empty_maps.

End Mapper.

(* ===================================================================== *)
(** ** MarkupTransformer and LinkResolver: [translate_line] *)
(* ===================================================================== *)

(** Everything [translate_line] reads: its arguments, the flavour of
    [os.path], and the outside world (the file system, the image
    library, the clock, and the two conversions of the size computation
    that go through [int] and floating-point division). *)
Record env := {
  fl : flavour;
  zim_dir : path;
  obs_dir : path;
  old_filepath : path;
  notes : gmap path path;
  files : gmap path path;
  folder_notes : bool;
  global_attachments : bool;
  attachments_relative_path : path;
  is_dir : path -> bool;
  image_size : path -> option (N * N);
  today_year : N;
  py_int : string -> option Z;
  py_scale : Z -> N -> N -> option Z
}.

Definition nl : string := String newline "".
Definition dquote : string := String (ascii_of_nat 34) "".

Definition str_of_Z (z : Z) : string :=
  match z with
  | Zneg p => "-" ++ str_of_N (Npos p)
  | _ => str_of_N (Z.to_N z)
  end.

Definition zim_filepath_to_title (fl : flavour) (filepath : path) : string :=
  replace "_" " " (fst (splitext fl (basename filepath))).

Definition zim_filepath_to_titlepath (fl : flavour) (filepath zim_dir : path)
    : string :=
  replace "_" " " (fst (splitext fl (relpath fl filepath zim_dir))).

(** A rewrite step: [line = re.sub(pattern, template, line)]. *)
Definition rewrite := (regex * list piece)%type.

Definition apply_rewrites (steps : list rewrite) (line : string) : string :=
  fold_left (fun l step => sub (fst step) (snd step) l) steps line.

Definition apply_rewrites_once (steps : list rewrite) (line : string) : string :=
  fold_left (fun l step => sub_count (fst step) (snd step) l 1) steps line.

(** Headings. *)
Definition heading_rewrites : list rewrite :=
  [ (* "^(=+)([^=]+)=+$" -> "\g<1>\g<2>" *)
    (seq [Bol; Grp 1 (plus (ch "=")); Grp 2 (plus (non "=")); plus (ch "="); Eol],
     [Ref 1; Ref 2]);
    (Seq Bol (lit "======"), [Txt "#"]);
    (Seq Bol (lit "====="), [Txt "##"]);
    (Seq Bol (lit "===="), [Txt "###"]);
    (Seq Bol (lit "==="), [Txt "####"]);
    (Seq Bol (lit "=="), [Txt "#####"]);
    (Seq Bol (lit "="), [Txt "######"]) ].

(** Dates. *)
Definition date_rewrites (year : N) : list rewrite :=
  [ (* "\[d:(\d{4}-\d{,2}-\d{,2})](.+)$" *)
    (seq [lit "[d:";
          Grp 1 (seq [exactly 4 is_digit; lit "-"; upto 2 is_digit; lit "-";
                      upto 2 is_digit]);
          lit "]"; Grp 2 (plus dot); Eol],
     [Ref 2; Txt nl; Txt "DEADLINE: <"; Ref 1; Txt " Day>"]);
    (* "\[d:(\d{,2})\.(\d{,2})\.(\d{4})](.+)$" *)
    (seq [lit "[d:"; Grp 1 (upto 2 is_digit); lit "."; Grp 2 (upto 2 is_digit);
          lit "."; Grp 3 (exactly 4 is_digit); lit "]"; Grp 4 (plus dot); Eol],
     [Ref 4; Txt nl; Txt "DEADLINE: <"; Ref 3; Txt "-"; Ref 2; Txt "-"; Ref 1;
      Txt " Day>"]);
    (* "\[d:(\d{,2})/(\d{,2})/(\d{4})](.+)$" *)
    (seq [lit "[d:"; Grp 1 (upto 2 is_digit); lit "/"; Grp 2 (upto 2 is_digit);
          lit "/"; Grp 3 (exactly 4 is_digit); lit "]"; Grp 4 (plus dot); Eol],
     [Ref 4; Txt nl; Txt "DEADLINE: <"; Ref 3; Txt "-"; Ref 1; Txt "-"; Ref 2;
      Txt " Day>"]);
    (* "\[d:(\d{,2}).(\d{,2}).\](.+)$" *)
    (seq [lit "[d:"; Grp 1 (upto 2 is_digit); one dot; Grp 2 (upto 2 is_digit);
          one dot; lit "]"; Grp 3 (plus dot); Eol],
     [Ref 3; Txt nl; Txt "DEADLINE: <"; Txt (str_of_N year); Txt "-"; Ref 2;
      Txt "-"; Ref 1; Txt " Day>"]) ].

(** ["([\[]{2}(.+?\|?[^\]]+?)[\]]{2})"] *)
Definition re_link : regex :=
  Grp 1 (seq [exactly 2 (ch "[");
              Grp 2 (seq [plus_lazy dot; opt (ch "|"); plus_lazy (non "]")]);
              exactly 2 (ch "]")]).

(** ["([\{]{2}(.+?\|?[^\]]+?)[\}]{2})"] *)
Definition re_embed : regex :=
  Grp 1 (seq [exactly 2 (ch "{");
              Grp 2 (seq [plus_lazy dot; opt (ch "|"); plus_lazy (non "]")]);
              exactly 2 (ch "}")]).

(** Lists, each with [count=1]. *)
Definition list_rewrites : list rewrite :=
  [ (seq [Bol; Grp 1 (star is_space); lit "[*]"], [Ref 1; Txt "- [*]"]);
    (seq [Bol; Grp 1 (star is_space); lit "[x]"], [Ref 1; Txt "- [x]"]);
    (seq [Bol; Grp 1 (star is_space); lit "[>]"], [Ref 1; Txt "- [>]"]);
    (seq [Bol; Grp 1 (star is_space); lit "[ ]"], [Ref 1; Txt "- [ ]"]) ].

(** Tags, sub-page references, emphasis, rich text, horizontal line. *)
Definition inline_rewrites : list rewrite :=
  [ (* "^@(\S+)" *)
    (seq [Bol; lit "@"; Grp 1 (plus non_space)], [Txt "#"; Ref 1]);
    (* "\s+@(\S+)" *)
    (seq [plus is_space; lit "@"; Grp 1 (plus non_space)], [Txt "#"; Ref 1]);
    (* "\[\[\+(\S+?)\]\]" *)
    (seq [lit "[[+"; Grp 1 (plus_lazy non_space); lit "]]"],
     [Txt "[["; Ref 1; Txt "]]"]);
    (* "//(.+?)//" *)
    (seq [lit "//"; Grp 1 (plus_lazy dot); lit "//"], [Txt "*"; Ref 1; Txt "*"]);
    (* "_\{(.+?)\}" *)
    (seq [lit "_{"; Grp 1 (plus_lazy dot); lit "}"],
     [Txt "<sub>"; Ref 1; Txt "</sub>"]);
    (* "\^\{(.+?)\}" *)
    (seq [lit "^{"; Grp 1 (plus_lazy dot); lit "}"],
     [Txt "<sup>"; Ref 1; Txt "</sup>"]);
    (* "~~(.+?)~~" *)
    (seq [lit "~~"; Grp 1 (plus_lazy dot); lit "~~"], [Txt "~~"; Ref 1; Txt "~~"]);
    (* "(!?<=:)//([^:]+?)//" *)
    (seq [Grp 1 (Seq (opt (ch "!")) (lit "<=:")); lit "//";
          Grp 2 (plus_lazy (non ":")); lit "//"],
     [Txt "*"; Ref 1; Txt "*"]);
    (* "\*\*(.+?)\*\*" *)
    (seq [lit "**"; Grp 1 (plus_lazy dot); lit "**"], [Txt "**"; Ref 1; Txt "**"]);
    (* "__(.+?)__" *)
    (seq [lit "__"; Grp 1 (plus_lazy dot); lit "__"], [Txt "=="; Ref 1; Txt "=="]);
    (* "--------------------" *)
    (lit "--------------------", [Txt nl; Txt "---"]) ].

Section TranslateLine.
Variable e : env.

Definition page_path : string :=
  zim_filepath_to_titlepath (fl e) (old_filepath e) (zim_dir e).

(** Where resolved attachments are expressed from. *)
Definition attachment_base : path :=
  if global_attachments e
  then (obs_dir e ++ attachments_relative_path e)%list
  else obs_dir e.

(** [target, display = internal.split(c)] *)
Definition split2 (c : ascii) (internal : string) : M (string * string) :=
  match split_on (ch c) internal with
  | [a; b] => ret (a, b)
  | _ => raise ValueError
  end.

Definition in_notes (target : string) : M bool :=
  let* p := or_raise ValueError
              (with_suffix (joinpath (fl e) (zim_dir e) target) ".txt") in
  ret (bool_decide (is_Some (notes e !! p))).

(** The body of the loop over [[ ]] tokens, block by block. *)

(** [target] and [display] from the text between the brackets. *)
Definition link_split (internal : string) : M (string * string) :=
  if has_char "|" internal then split2 "|" internal
  else ret (internal, internal).

(** replace wikipedia shortcuts with full links *)
Definition link_wikipedia (td : string * string) : string * string :=
  let '(target, display) := td in
  if startswith target "wp?"
  then (replace " " "_" (replace "wp?" "https://wikipedia.org/wiki/" target),
        sdrop 3 target)
  else (target, display).

(** The chain of tests on the start of [target]: the new [target],
    [display] and [absolute]. *)
Definition link_prefix (line target display : string)
    : M (string * string * bool) :=
  if startswith target "http" then ret (target, display, false)
  else if startswith target "file:///" then
    let target := sdrop 8 target in
    match relative_to (parse_path (fl e) target) (zim_dir e) with
    | Some _ => raise (AbsoluteInsideZim target line)
    | None => ret (target, display, true)
    end
  else if startswith target "./" || startswith target ".\" then
    let target := sdrop 2 target in
    let display :=
      if startswith display "./" || startswith display ".\"
      then sdrop 2 display else display in
    let zim_abs_path :=
      joinpath (fl e) (joinpath (fl e) (zim_dir e) page_path) target in
    let* obs_abs_path := getitem (files e) zim_abs_path in
    let* obs_rel_path :=
      or_raise ValueError (relative_to obs_abs_path attachment_base) in
    ret (path_str (fl e) obs_rel_path, display, false)
  else
    (* modify relative links *)
    let target :=
      if startswith target "+" then page_path ++ ":" ++ sdrop 1 target
      else target in
    let target :=
      if startswith target ":"
      then sdrop (match find ":" (sdrop 1 target) with
                  | Some i => i + 2
                  | None => 1
                  end) target
      else target in
    ret (replace ":" "\" target, display, false).

(** if using folder notes, point in one level to the page *)
Definition link_folder_note (target : string) : string :=
  if folder_notes e && is_dir e (joinpath (fl e) (zim_dir e) target)
  then os_join (fl e) target (split_tail (fl e) target)
  else target.

(** check for underscore weirdness *)
Definition link_underscore (target : string) : M string :=
  let* found := in_notes target in
  if (found : bool) then ret target
  else
    let under_target := replace " " "_" target in
    let* found_under := in_notes under_target in
    ret (if (found_under : bool) then under_target else target).

(** The text put in place of the token. *)
Definition link_text (target display : string) (absolute : bool) : string :=
  if negb (String.eqb target display) || absolute then
    if has_char " " target
    then "[" ++ display ++ "](<" ++ target ++ ">)"
    else "[" ++ display ++ "](" ++ target ++ ")"
  else "[[" ++ target ++ "]]".

(** The target as the prefix rules and the folder-note redirection
    leave it, with the label and whether the link is absolute. *)
Definition link_target (line internal : string)
    : M (string * string * bool) :=
  let* td := link_split internal in
  let '(target, display) := link_wikipedia td in
  let* (target, display, absolute) := link_prefix line target display in
  ret (link_folder_note target, display, absolute).

Definition link_step (line : string) (m : captures) : M string :=
  let bracketed_link := group 1 m in
  let internal := group 2 m in
  let* (target, display, absolute) := link_target line internal in
  let* target := link_underscore target in
  (* replace backslash with forward slash for obsidian links *)
  let target := replace "\" "/" target in
  ret (replace_first bracketed_link (link_text target display absolute) line).

(** [dict(pairs)]: a later pair with a key already present replaces
    the value in place. *)
Fixpoint dict_set (k v : string) (d : list (string * string))
    : list (string * string) :=
  match d with
  | [] => [(k, v)]
  | (k', v') :: d' =>
      if String.eqb k' k then (k, v) :: d' else (k', v') :: dict_set k v d'
  end.

Fixpoint dict_get (k : string) (d : list (string * string)) : option string :=
  match d with
  | [] => None
  | (k', v') :: d' => if String.eqb k' k then Some v' else dict_get k d'
  end.

(** [dict([x.split("=") for x in options.split("&")])] *)
Fixpoint options_dict (items : list string) (d : list (string * string))
    : M (list (string * string)) :=
  match items with
  | [] => ret d
  | x :: items' =>
      let* (k, v) := split2 "=" x in
      options_dict items' (dict_set k v d)
  end.

(** The [try] block of the size options: the new target, or [None]
    when anything in it raises. *)
Definition sized_target (key : string) (d : list (string * string))
    (zim_abs_path : option path) (target : string) : option string :=
  match zim_abs_path with
  | None => None
  | Some image =>
      match image_size e image with
      | None => None
      | Some (width, height) =>
          if String.eqb key "height" then
            match dict_get "height" d with
            | None => None
            | Some h =>
                match py_int e h with
                | None => None
                | Some x_height =>
                    match py_scale e x_height height width with
                    | None => None
                    | Some x_width =>
                        Some (target ++ "|" ++ str_of_Z x_width ++ "x"
                              ++ str_of_Z x_height)
                    end
                end
            end
          else
            match dict_get "width" d with
            | None => None
            | Some w =>
                match py_int e w with
                | None => None
                | Some x_width =>
                    match py_scale e x_width width height with
                    | None => None
                    | Some x_height =>
                        Some (target ++ "|" ++ str_of_Z x_width ++ "x"
                              ++ str_of_Z x_height)
                    end
                end
            end
      end
  end.

(** The body of [for key, value in options_dict.items()]. *)
Definition option_step (line : string) (d : list (string * string))
    (zim_abs_path : option path) (target : string) (kv : string * string)
    : M string :=
  let key := fst kv in
  if String.eqb key "height" || String.eqb key "width" then
    match sized_target key d zim_abs_path target with
    | Some target' => ret target'
    | None =>
        match zim_abs_path with
        | Some image =>
            let* _ := print (CouldNotReadImage image (old_filepath e)) in
            ret target
        | None => raise UnboundLocalError
        end
    end
  else if String.eqb key "type" then ret target
  else
    let* _ := print (UnknownOption key line (old_filepath e)) in
    ret target.

(** The relative-dot branch of an embed: the attachment looked up next
    to the page, expressed from [attachment_base]. *)
Definition embed_relative (target : string) : M (string * path) :=
  let* rel := or_raise ValueError
                (relative_to (old_filepath e) (zim_dir e)) in
  let* local_folder := or_raise ValueError (with_suffix rel "") in
  let zim_abs_path :=
    joinpath (fl e) (zim_dir e ++ local_folder)%list target in
  let* obs_abs_path := getitem (files e) zim_abs_path in
  let* obs_rel_path :=
    or_raise ValueError (relative_to obs_abs_path attachment_base) in
  ret (path_str (fl e) obs_rel_path, zim_abs_path).

(** The body of the loop over {{ }} tokens.  The state is [line] and
    the local [zim_abs_path], which keeps its value from one token to
    the next and is unbound at first. *)
Definition embed_step (st : string * option path) (m : captures)
    : M (string * option path) :=
  let '(line, zim_abs_path) := st in
  let bracketed_link := group 1 m in
  let internal := group 2 m in
  let* (target, options) :=
    if has_char "?" internal
    then let* (t, o) := split2 "?" internal in ret (t, Some o)
    else ret (internal, None) in
  let* (target, zim_abs_path, absolute) :=
    if startswith target "file:///" then
      let target := sdrop 8 target in
      match relative_to (parse_path (fl e) target) (zim_dir e) with
      | Some _ => raise (AbsoluteInsideZim target line)
      | None => ret (target, Some (parse_path (fl e) target), true)
      end
    else ret (target, zim_abs_path, false) in
  let* (target, zim_abs_path, absolute) :=
    if startswith target ".\" || startswith target "./" then
      let* (target, zim_abs_path) := embed_relative (sdrop 2 target) in
      ret (target, Some zim_abs_path, false)
    else ret (target, zim_abs_path, absolute) in
  let* target :=
    match options with
    | Some (String c o) =>
        let* d := options_dict (split_on (ch "&") (String c o)) [] in
        foldM (fun t kv => option_step line d zim_abs_path t kv) d target
    | _ => ret target
    end in
  if (absolute : bool)
  then ret (replace_first bracketed_link ("![](file:///" ++ target ++ ")") line,
            zim_abs_path)
  else ret (replace_first bracketed_link ("![[" ++ target ++ "]]") line,
            zim_abs_path).

Definition translate_line (line : string) : M string :=
  let line := apply_rewrites heading_rewrites line in
  let line := apply_rewrites (date_rewrites (today_year e)) line in
  (* Hyperlink text [[ ]] *)
  let* line := foldM link_step (findall re_link line) line in
  (* File object links (usually images) {{ }} *)
  let* (line, _) :=
    foldM embed_step (findall re_embed line) (line, None) in
  let line := apply_rewrites_once list_rewrites line in
  ret (apply_rewrites inline_rewrites line).

End TranslateLine.

(* ===================================================================== *)
(** ** [translate_file]: the pass over a page's lines *)
(* ===================================================================== *)

(** The pattern of the title line: six [=] and a space, one group
    holding any run of characters, a space and six [=]. *)
Definition re_title : regex :=
  seq [lit "====== "; Grp 1 (star dot); lit " ======"].

(** ['.+lang="(.+)" '] *)
Definition re_langtag : regex :=
  seq [plus dot; lit ("lang=" ++ dquote); Grp 1 (plus dot); lit (dquote ++ " ")].

(** The first line of a code block. *)
Definition fence_open (line : string) : string :=
  let lang :=
    match findall re_langtag line with
    | langtag0 :: _ =>
        let lang := group 1 langtag0 in
        if String.eqb lang "python3" then "python" else lang
    | [] => ""
    end in
  "```" ++ lang ++ nl.

(** The inner [while]: the least [j] with [lines[i + j]] starting with
    the terminator; [None] is the [IndexError] of [lines[i + j]]. *)
Fixpoint fence_scan (rest : list string) (j : nat) : option nat :=
  match rest with
  | [] => None
  | subline :: rest' =>
      if startswith subline "}}}" then Some j else fence_scan rest' (S j)
  end.

(** [lines[n] = x] for [n] in range. *)
Definition set_line (n : nat) (x : string) (lines : list string) : list string :=
  <[n := x]> lines.

Section TranslateFile.
Variable e : env.

(** The outer [while], as a function of the state at the loop test:
    [i] is the Python variable (it starts at -1).  [None]: out of
    fuel. *)
Fixpoint translate_loop (fuel : nat) (lines : list string) (i : Z)
    : option (M (list string)) :=
  if (i <? Z.of_nat (List.length lines) - 1)%Z then
    match fuel with
    | O => None
    | S fuel' =>
        let i := (i + 1)%Z in
        match lines !! Z.to_nat i with
        | None => Some (raise IndexError)
        | Some line =>
            if startswith line "{{{code:" then
              let lines := set_line (Z.to_nat i) (fence_open line) lines in
              match fence_scan (skipn (Z.to_nat i) lines) 0 with
              | None => Some (raise IndexError)
              | Some j =>
                  let lines := set_line (Z.to_nat i + j) ("```" ++ nl) lines in
                  translate_loop fuel' lines (i + Z.of_nat j + 1)%Z
              end
            else
              match translate_line e line with
              | (log, inl err) =>
                  Some ((log ++ [ErrorInFile (old_filepath e) line])%list,
                        inl err)
              | (log, inr line') =>
                  match translate_loop fuel' (set_line (Z.to_nat i) line' lines) i with
                  | Some (log', r) => Some ((log ++ log')%list, r)
                  | None => None
                  end
              end
        end
    end
  else Some (ret lines).

(** [translate_file], on the lines read from [old_filepath]. *)
Definition translate_file (file_lines : list string)
    : option (M (list string)) :=
  (* remove file format headers *)
  let lines := skipn 4 file_lines in
  (* ignore duplicate title text *)
  let title := zim_filepath_to_title (fl e) (old_filepath e) in
  match lines with
  | [] => Some (raise IndexError)
  | line0 :: rest =>
      let lines :=
        match findall re_title line0 with
        | topline0 :: _ =>
            if String.eqb (replace "_" " " (group 1 topline0)) title
            then rest else lines
        | [] => lines
        end in
      translate_loop (S (List.length lines)) lines (-1)
  end.

End TranslateFile.

(** The loop of the legacy [translate] of zim2obsidian.py: every line is
    rewritten first ([rewrite_line] stands for the chain of
    substitutions, which raises nothing), the fence test is made on the
    rewritten line, and the index moves past the terminator. *)
Section LegacyTranslate.
Variable rewrite_line : string -> string.

Fixpoint legacy_loop (fuel : nat) (text : list string) (i : nat)
    : option (exn + list string) :=
  match text !! i with
  | None => Some (inr text)
  | Some raw =>
      match fuel with
      | O => None
      | S fuel' =>
          let line := rewrite_line raw in
          if startswith line "{{{code:" then
            let text := set_line i (fence_open line) text in
            match fence_scan (skipn i text) 0 with
            | None => Some (inl IndexError)
            | Some j =>
                legacy_loop fuel' (set_line (i + j) ("```" ++ nl) text)
                  (i + j + 1)
            end
          else legacy_loop fuel' (set_line i line text) (i + 1)
      end
  end.

End LegacyTranslate.

(* ===================================================================== *)
(** ** Notions the properties are stated with *)
(* ===================================================================== *)

(** The longest prefix of [s] whose characters satisfy [p], and the rest. *)
Fixpoint span (p : ascii -> bool) (s : string) : string * string :=
  match s with
  | String c s' =>
      if p c then let '(a, b) := span p s' in (String c a, b) else ("", s)
  | "" => ("", "")
  end.

(** What [(\d+)(\..+)] matches at the head of [s]: the digits, the
    extension, and what follows. *)
Definition digits_dot (s : string) : option (string * string * string) :=
  match span is_digit s with
  | (String d0 d, String c t) =>
      if ch "." c then
        match span dot t with
        | (String u0 u, rest) => Some (String d0 d, String c (String u0 u), rest)
        | _ => None
        end
      else None
  | _ => None
  end.

(** The match of the whole pattern at the head of [s]: the lazy first
    group grows until the rest matches. *)
Fixpoint lazy_digits (s : string) : option (string * string * string * string) :=
  match digits_dot s with
  | Some (d, g3, rest) => Some ("", d, g3, rest)
  | None =>
      match s with
      | String c s' =>
          if dot c then
            match lazy_digits s' with
            | Some (g1, d, g3, rest) => Some (String c g1, d, g3, rest)
            | None => None
            end
          else None
      | "" => None
      end
  end.

(** The leftmost match. *)
Fixpoint first_digits (s : string) : option (string * string * string * string) :=
  match lazy_digits s with
  | Some r => Some r
  | None =>
      match s with
      | String _ s' => first_digits s'
      | "" => None
      end
  end.

Definition caps_of (r : string * string * string * string) : captures :=
  let '(g1, d, g3, _) := r in [(3, g3); (2, d); (1, g1)].

Definition re_tail : regex :=
  seq [Grp 2 (plus is_digit); Grp 3 (Seq (one (ch ".")) (plus dot))].

Definition good_digits (d : string) : Prop :=
  d <> "" /\ all_chars is_digit d = true.

Definition good_ext (g3 : string) : Prop :=
  exists u0 u, g3 = String "." (String u0 u)
               /\ all_chars dot (String u0 u) = true.

(** Whether [(\d+)(\..+)] matches at the head of [s]. *)
Definition dd_test (s : string) : bool :=
  match span is_digit s with
  | (String _ _, String c (String u0 _)) => ch "." c && dot u0
  | _ => false
  end.

(** The measure that grows: the length of a name the pattern does not
    match, then the number the pattern finds. *)
Definition rank (s : string) : nat + N :=
  match first_digits s with
  | Some (_, d, _, _) => inr (int_of_digits d)
  | None => inl (String.length s)
  end.

Definition rank_lt (a b : nat + N) : Prop :=
  match a, b with
  | inl x, inl y => x < y
  | inl _, inr _ => True
  | inr x, inr y => (x < y)%N
  | inr _, inl _ => False
  end.

(** The name proposed after [i] turns. *)
Definition candidate (fl : flavour) (requested_name : string) (i : nat) : string :=
  Nat.iter i (next_name fl) requested_name.

(** The entries in the order the mapper's nested loops reach them: for
    every triple of the walk its folders, then its files. *)
Definition entry : Type := (path * (string + file_entry))%type.

Definition entries_of (w : walk_entry) : list entry :=
  (List.map (fun d => (w_relroot w, inl d)) (w_folders w)
   ++ List.map (fun f => (w_relroot w, inr f)) (w_files w))%list.

Definition entries (walk : list walk_entry) : list entry :=
  flat_map entries_of walk.

Definition map_entry (fl : flavour) (zim_dir obs_dir : path) (pol : policy)
    (m : maps) (en : entry) : option maps :=
  match en with
  | (relroot, inl folder) => Some (map_folder zim_dir obs_dir relroot m folder)
  | (relroot, inr f) => map_file fl zim_dir obs_dir pol relroot m f
  end.

Fixpoint map_entries (fl : flavour) (zim_dir obs_dir : path) (pol : policy)
    (ens : list entry) (m : maps) : option maps :=
  match ens with
  | [] => Some m
  | en :: ens' =>
      match map_entry fl zim_dir obs_dir pol m en with
      | Some m' => map_entries fl zim_dir obs_dir pol ens' m'
      | None => None
      end
  end.

(** The source path of a file of the walk. *)
Definition source_path (zim_dir relroot : path) (f : file_entry) : path :=
  (zim_dir ++ relroot ++ [fe_name f])%list.

(** Whether the mapper takes a file for a page. *)
Definition is_page (fl : flavour) (f : file_entry) : bool :=
  String.eqb (snd (splitext fl (fe_name f))) ".txt" && compatible (fe_lines f).

(** Whether the mapper takes a file for an attachment. *)
Definition is_attachment (fl : flavour) (pol : policy) (f : file_entry) : bool :=
  negb (is_page fl f)
  && negb (in_list (snd (splitext fl (fe_name f))) (ignore_extensions pol)).

(** A name with the number [k] put before its extension, as the
    allocator writes it; [k = 0] is the name itself. *)
Definition numbered (stem ext : string) (k : nat) : string :=
  match k with
  | O => stem ++ ext
  | S _ => stem ++ " " ++ str_of_N (N.of_nat k) ++ ext
  end.

Definition sep_free (fl : flavour) (w : string) : bool :=
  all_chars (fun c => negb (is_sep fl c)) w.

(** A file or folder name as the file system gives it: not empty, not
    [.], without a separator. *)
Definition part_wf (fl : flavour) (w : string) : bool :=
  part_ok w && sep_free fl w.

(** A path as [pathlib] keeps it: an anchor (possibly the empty root)
    and well-formed components. *)
Definition wf_dir (fl : flavour) (p : path) : bool :=
  match p with
  | [] => true
  | a :: rest =>
      (String.eqb a "" || part_wf fl a) && forallb (part_wf fl) rest
  end.

(** The string of a directory, up to where a name in it starts. *)
Definition dir_prefix (fl : flavour) (dir : path) : string :=
  match dir with
  | [] => ""
  | _ => join (sep_str fl) dir ++ sep_str fl
  end.

(** The source paths of the files among the entries, in order. *)
Definition file_paths (zim_dir : path) (ens : list entry) : list path :=
  flat_map (fun en : entry =>
              match en with
              | (relroot, inr f) => [source_path zim_dir relroot f]
              | (_, inl _) => []
              end) ens.

(** A string with every character replaced by its image. *)
Fixpoint map_char (f : ascii -> ascii) (s : string) : string :=
  match s with
  | "" => ""
  | String c s' => String (f c) (map_char f s')
  end.

(** The prefix of the encyclopedia links. *)
Definition wikipedia_url : string := "https://wikipedia.org/wiki/".

(** Whether a pattern matches somewhere in a line. *)
Definition matches (r : regex) (s : string) : bool :=
  match search r s with
  | Some _ => true
  | None => false
  end.

(** A line on which no pattern of [translate_line] matches: no heading,
    date, list, tag or emphasis pattern, and no link or embed token. *)
Definition no_wiki_syntax (e : env) (line : string) : bool :=
  forallb (fun step : rewrite => negb (matches (fst step) line))
    (heading_rewrites ++ date_rewrites (today_year e)
     ++ list_rewrites ++ inline_rewrites)%list
  && negb (matches re_link line)
  && negb (matches re_embed line).

(** *** A small notebook to run the code on *)

(** The environment of a page of the notebook [/zim], migrated to
    [/obs] with folder notes and global attachments, on a file system
    without directories of the names linked to. *)
Definition demo_env (page : path) (pages attachments : gmap path path) : env :=
  {| fl := Posix;
     zim_dir := [""; "zim"];
     obs_dir := [""; "obs"];
     old_filepath := ([""; "zim"] ++ page)%list;
     notes := pages;
     files := attachments;
     folder_notes := true;
     global_attachments := true;
     attachments_relative_path := ["attachments"];
     is_dir := fun _ => false;
     image_size := fun _ => None;
     today_year := 2024%N;
     py_int := fun _ => None;
     py_scale := fun _ _ _ => None |}.

Definition demo_policy : policy :=
  {| ignore_extensions := [".ini"];
     use_folder_notes := true;
     use_global_attachments := true;
     global_attachments_relative_path := ["attachments"] |}.

Definition page_header : list string :=
  ["Content-Type: text/x-zim-wiki" ++ nl; "Wiki-Format: zim 0.4" ++ nl].

(** [/zim/x.png], and [/zim/a/x.png] in the folder [a] next to the page
    [a.txt]: the walk lists the root first. *)
Definition demo_walk : list walk_entry :=
  [ {| w_relroot := [];
       w_folders := ["a"];
       w_files := [ {| fe_name := "x.png"; fe_lines := [] |};
                    {| fe_name := "a.txt"; fe_lines := page_header |} ] |};
    {| w_relroot := ["a"];
       w_folders := [];
       w_files := [ {| fe_name := "x.png"; fe_lines := [] |} ] |} ].

(** The page [My_Page] with the attachment [My_Page/doc.pdf]. *)
Definition my_page_env : env :=
  demo_env ["My_Page.txt"] ∅
    (<[ [""; "zim"; "My_Page"; "doc.pdf"]
        := [""; "obs"; "attachments"; "doc.pdf"] ]> ∅).

(** A page with two code blocks, the second right after the first and
    without its terminator. *)
Definition two_fences : list string :=
  [ "Content-Type: text/x-zim-wiki" ++ nl;
    "Wiki-Format: zim 0.4" ++ nl;
    "Creation-Date: 2020-01-01T00:00:00+00:00" ++ nl;
    nl;
    "{{{code: lang=" ++ dquote ++ "python3" ++ dquote ++ " linenumbers="
      ++ dquote ++ "True" ++ dquote ++ nl;
    "print(1)" ++ nl;
    "}}}" ++ nl;
    "{{{code: lang=" ++ dquote ++ "sh" ++ dquote ++ " linenumbers="
      ++ dquote ++ "True" ++ dquote ++ nl;
    "echo 1" ++ nl ].

(** The destination of a page that stays next to its siblings, and of
    one that moves into the folder of its name. *)
Definition flat_note (obs_dir relroot : path) (stem : string) : path :=
  (obs_dir ++ relroot ++ [(stem ++ ".md")%string])%list.

Definition nested_note (obs_dir relroot : path) (stem : string) : path :=
  ((obs_dir ++ relroot ++ [stem]) ++ [(stem ++ ".md")%string])%list.

(** [c * n] *)
Fixpoint repeat_char (c : ascii) (n : nat) : string :=
  match n with
  | O => ""
  | S n' => String c (repeat_char c n')
  end.

(** A line on which nothing but the heading patterns of
    [translate_line] can match: no date, list, tag or emphasis pattern,
    and no link or embed token. *)
Definition no_later_syntax (e : env) (line : string) : bool :=
  forallb (fun step : rewrite => negb (matches (fst step) line))
    (date_rewrites (today_year e) ++ list_rewrites ++ inline_rewrites)%list
  && negb (matches re_link line)
  && negb (matches re_embed line).

(** A line on which no heading or date pattern of [translate_line]
    matches and that holds no link or embed token. *)
Definition no_earlier_syntax (e : env) (line : string) : bool :=
  forallb (fun step : rewrite => negb (matches (fst step) line))
    (heading_rewrites ++ date_rewrites (today_year e))%list
  && negb (matches re_link line)
  && negb (matches re_embed line).

(** A line on which none of the tag, emphasis and rule patterns of
    [translate_line] matches. *)
Definition no_inline_syntax (line : string) : bool :=
  forallb (fun step : rewrite => negb (matches (fst step) line)) inline_rewrites.

(** The pattern of a list marker: the start of the line, white space
    as group 1, and the marker. *)
Definition re_marker (t : string) : regex :=
  seq [Bol; Grp 1 (star is_space); lit t].

(** A character of a plain page name: none of the characters that link
    resolution gives a meaning to. *)
Definition name_char (c : ascii) : bool := negb (has_char c "|:\/ .+?").

(** [" 1" * k] *)
Fixpoint ones (k : nat) : string :=
  match k with
  | O => ""
  | S k' => ones k' ++ " 1"
  end.

(** A character that is neither a dot nor a newline. *)
Definition dotless (c : ascii) : bool := dot c && negb (is_dot c).

(** The policy that keeps attachments in place. *)
Definition local_policy : policy :=
  {| ignore_extensions := [".ini"];
     use_folder_notes := true;
     use_global_attachments := false;
     global_attachments_relative_path := ["attachments"] |}.

(** A page of [my_page_env] whose only line links to an attachment. *)
Definition link_page : list string :=
  (firstn 4 two_fences ++ [("[[./doc.pdf]]" ++ nl)%string])%list.

(** Lines with one code block, text before it and after it. *)
Definition fenced_lines : list string :=
  [ "text" ++ nl;
    "{{{code: lang=" ++ dquote ++ "sh" ++ dquote ++ " x" ++ nl;
    "echo __1__" ++ nl;
    "}}}" ++ nl;
    "__after__" ++ nl;
    "__more__" ++ nl ].

(* ===================================================================== *)
(** * Properties *)
(* ===================================================================== *)

(** *** Strings *)

Lemma app_cons c (a b : string) : String c a ++ b = String c (a ++ b).
Proof. reflexivity. Qed.

Lemma app_nil_l_s (b : string) : "" ++ b = b.
Proof. reflexivity. Qed.

Ltac ssimpl := simpl; rewrite ?app_cons, ?app_nil_l_s; simpl.
Ltac ssimpl_in H := simpl in H; rewrite ?app_cons, ?app_nil_l_s in H; simpl in H.

Lemma stake_sdrop n s : stake n s ++ sdrop n s = s.
Proof.
  revert s; induction n as [|n IH]; intros [|c s]; ssimpl; try reflexivity.
  f_equal. apply IH.
Qed.

Lemma stake_app_length a b : stake (String.length a) (a ++ b) = a.
Proof. induction a as [|c a IH]; ssimpl; [now destruct b|now rewrite IH]. Qed.

Lemma length_app (a b : string) :
  String.length (a ++ b) = String.length a + String.length b.
Proof. induction a as [|c a IH]; ssimpl; [reflexivity|now rewrite IH]. Qed.

Lemma app_assoc_s (a b c : string) : (a ++ b) ++ c = a ++ (b ++ c).
Proof. induction a as [|x a IH]; ssimpl; [reflexivity|now rewrite IH]. Qed.

Lemma app_nil_r_s (a : string) : a ++ "" = a.
Proof. induction a as [|x a IH]; ssimpl; [reflexivity|now rewrite IH]. Qed.

Lemma span_app p s : fst (span p s) ++ snd (span p s) = s.
Proof.
  induction s as [|c s IH]; simpl; [reflexivity|].
  destruct (p c); [|reflexivity].
  destruct (span p s) as [a b]; ssimpl. simpl in IH. now rewrite IH.
Qed.

Lemma span_all p s : all_chars p (fst (span p s)) = true.
Proof.
  induction s as [|c s IH]; simpl; [reflexivity|].
  destruct (p c) eqn:E; [|reflexivity].
  destruct (span p s) as [a b]; simpl in *. now rewrite E, IH.
Qed.

Lemma span_app_all p a x :
  all_chars p a = true ->
  span p (a ++ x) = (a ++ fst (span p x), snd (span p x)).
Proof.
  induction a as [|c a IH]; ssimpl; intros H.
  - now destruct (span p x).
  - apply andb_true_iff in H as [Hc Ha]. rewrite Hc, (IH Ha). reflexivity.
Qed.

Lemma span_app_stop p a c x :
  all_chars p a = true -> p c = false ->
  span p (a ++ String c x) = (a, String c x).
Proof.
  intros Ha Hc. rewrite (span_app_all _ _ _ Ha). simpl. rewrite Hc. simpl.
  now rewrite app_nil_r_s.
Qed.

Lemma span_app_not p a x :
  all_chars p a = false ->
  span p (a ++ x) = (fst (span p a), snd (span p a) ++ x).
Proof.
  induction a as [|c a IH]; ssimpl; intros H; [discriminate|].
  destruct (p c) eqn:Hc; simpl in H; [|reflexivity].
  rewrite (IH H). now destruct (span p a).
Qed.

Lemma span_not_all_rest p a :
  all_chars p a = false ->
  exists c r, snd (span p a) = String c r /\ p c = false.
Proof.
  induction a as [|c a IH]; simpl; intros H; [discriminate|].
  destruct (p c) eqn:Hc; simpl in H.
  - destruct (IH H) as (c' & r & E & Hc'). destruct (span p a); simpl in *.
    eauto.
  - simpl. eauto.
Qed.

(** *** Characters *)

Lemma digit_is_dot c : is_digit c = true -> dot c = true.
Proof.
  unfold is_digit, dot, is_newline. intros H.
  apply andb_true_iff in H as [H1 H2].
  apply Nat.leb_le in H1. destruct (Nat.eqb_spec (code c) 10); [lia|reflexivity].
Qed.

Lemma ch_eq c x : ch c x = true -> x = c.
Proof. unfold ch. apply Ascii.eqb_eq. Qed.

Lemma point_not_digit : is_digit "." = false.
Proof. reflexivity. Qed.

Lemma point_is_dot : dot "." = true.
Proof. reflexivity. Qed.

Lemma space_not_digit : is_digit " " = false.
Proof. reflexivity. Qed.

(** *** The matcher on the pattern of [make_unique_string] *)

Lemma rep_greedy_stop {A} p pos s (k : nat -> string -> option A) :
  (forall pos' c s', p c = true -> k pos' (String c s') = None) ->
  rep p true 0 None pos s k
  = k (pos + String.length (fst (span p s))) (snd (span p s)).
Proof.
  intros Hk. revert pos. induction s as [|c s IH]; intros pos; simpl.
  - now rewrite Nat.add_0_r.
  - destruct (p c) eqn:Hc; simpl.
    + rewrite IH. destruct (span p s) as [a b]; simpl.
      rewrite Nat.add_succ_r.
      destruct (k (S (pos + String.length a)) b) eqn:E; [reflexivity|].
      now apply Hk.
    + now rewrite Nat.add_0_r.
Qed.

Lemma rep_greedy_total {A} p pos s (k : nat -> string -> option A) :
  (forall pos' s', k pos' s' <> None) ->
  rep p true 0 None pos s k
  = k (pos + String.length (fst (span p s))) (snd (span p s)).
Proof.
  intros Hk. revert pos. induction s as [|c s IH]; intros pos; simpl.
  - now rewrite Nat.add_0_r.
  - destruct (p c) eqn:Hc; simpl.
    + rewrite IH. destruct (span p s) as [a b]; simpl.
      rewrite Nat.add_succ_r.
      destruct (k (S (pos + String.length a)) b) eqn:E; [reflexivity|].
      now apply Hk in E.
    + now rewrite Nat.add_0_r.
Qed.

Lemma tail_match pos0 pos s caps :
  mtch re_tail pos s caps (fun e s' c => Some (Found pos0 e s' c))
  = match digits_dot s with
    | Some (d, g3, rest) =>
        Some (Found pos0 (pos + String.length d + String.length g3) rest
                ((3, g3) :: (2, d) :: caps))
    | None => None
    end.
Proof.
  unfold re_tail, digits_dot. simpl mtch. unfold plus, one.
  destruct s as [|c s]; [reflexivity|].
  simpl rep at 1. simpl span.
  destruct (is_digit c) eqn:Hc; [|reflexivity].
  simpl. rewrite rep_greedy_stop.
  2:{ intros pos' c' s' Hd. simpl.
      destruct (ch "." c') eqn:E; [|reflexivity].
      apply ch_eq in E. subst c'. discriminate. }
  pose proof (span_app is_digit s) as Hs.
  destruct (span is_digit s) as [a b]. simpl in *.
  replace (S (pos + String.length a) - pos) with (S (String.length a)) by lia.
  subst s. simpl stake. rewrite stake_app_length.
  destruct b as [|c0 t]; [reflexivity|].
  simpl rep. destruct (ch "." c0) eqn:Hc0; [|reflexivity]. simpl.
  destruct t as [|u0 t]; [reflexivity|].
  simpl. rewrite andb_false_r.
  destruct (dot u0) eqn:Hu0; [|reflexivity]. simpl.
  rewrite rep_greedy_total by discriminate.
  pose proof (span_app dot t) as Ht.
  destruct (span dot t) as [u rest]. simpl in *.
  f_equal. f_equal; [lia|].
  match goal with |- context [stake ?n _] =>
    replace n with (S (S (String.length u))) by lia end.
  subst t. simpl stake. now rewrite stake_app_length.
Qed.

Lemma rep_lazy_unfold {A} p pos s (k : nat -> string -> option A) :
  rep p false 0 None pos s k
  = match k pos s with
    | Some r => Some r
    | None =>
        match s with
        | String c s' => if p c then rep p false 0 None (S pos) s' k else None
        | "" => None
        end
    end.
Proof. destruct s; simpl; rewrite ?andb_true_r; reflexivity. Qed.

Lemma lazy_digits_unfold s :
  lazy_digits s
  = match digits_dot s with
    | Some (d, g3, rest) => Some ("", d, g3, rest)
    | None =>
        match s with
        | String c s' =>
            if dot c then
              match lazy_digits s' with
              | Some (g1, d, g3, rest) => Some (String c g1, d, g3, rest)
              | None => None
              end
            else None
        | "" => None
        end
    end.
Proof. destruct s; reflexivity. Qed.

Lemma first_digits_unfold s :
  first_digits s
  = match lazy_digits s with
    | Some r => Some r
    | None =>
        match s with
        | String _ s' => first_digits s'
        | "" => None
        end
    end.
Proof. destruct s; reflexivity. Qed.

Lemma lazy_match pos0 a s :
  rep dot false 0 None (pos0 + String.length a) s
    (fun pos1 s1 =>
       mtch re_tail pos1 s1 [(1, stake (pos1 - pos0) (a ++ s))]
         (fun e s' c => Some (Found pos0 e s' c)))
  = match lazy_digits s with
    | Some (g1, d, g3, rest) =>
        Some (Found pos0
                (pos0 + String.length a + String.length g1
                 + String.length d + String.length g3)
                rest [(3, g3); (2, d); (1, a ++ g1)])
    | None => None
    end.
Proof.
  revert a. induction s as [|c s IH]; intros a;
    rewrite rep_lazy_unfold, tail_match, lazy_digits_unfold.
  - destruct (digits_dot "") as [[[d g3] rest]|] eqn:E; [discriminate E|reflexivity].
  - destruct (digits_dot (String c s)) as [[[d g3] rest]|] eqn:E.
    + replace (pos0 + String.length a - pos0) with (String.length a) by lia.
      rewrite stake_app_length, app_nil_r_s. simpl. now rewrite Nat.add_0_r.
    + destruct (dot c); [|reflexivity].
      assert (Ea : a ++ String c s = (a ++ String c "") ++ s)
        by now rewrite app_assoc_s.
      rewrite Ea.
      replace (S (pos0 + String.length a))
        with (pos0 + String.length (a ++ String c "")).
      2:{ rewrite length_app. simpl. lia. }
      rewrite IH.
      destruct (lazy_digits s) as [[[[g1 d] g3] rest]|]; [|reflexivity].
      rewrite length_app, app_assoc_s. simpl.
      f_equal. f_equal. lia.
Qed.

Lemma match_here_final pos s :
  match_here re_final_digits pos s
  = match lazy_digits s with
    | Some (g1, d, g3, rest) =>
        Some (Found pos
                (pos + String.length g1 + String.length d + String.length g3)
                rest [(3, g3); (2, d); (1, g1)])
    | None => None
    end.
Proof.
  pose proof (lazy_match pos "" s) as H. simpl in H.
  rewrite Nat.add_0_r in H. exact H.
Qed.

Lemma search_from_unfold r pos s :
  search_from r pos s
  = match match_here r pos s with
    | Some f => Some f
    | None =>
        match s with
        | String _ s' => search_from r (S pos) s'
        | "" => None
        end
    end.
Proof. destruct s; reflexivity. Qed.

Lemma search_final pos s :
  option_map f_caps (search_from re_final_digits pos s)
  = option_map caps_of (first_digits s).
Proof.
  revert pos. induction s as [|c s IH]; intros pos;
    rewrite first_digits_unfold, search_from_unfold, match_here_final.
  - destruct (lazy_digits "") as [[[[g1 d] g3] rest]|]; reflexivity.
  - destruct (lazy_digits (String c s)) as [[[[g1 d] g3] rest]|]; [reflexivity|].
    apply IH.
Qed.

Lemma findall_head r s :
  match findall r s with
  | c :: _ => Some c
  | [] => None
  end = option_map f_caps (search_from r 0 s).
Proof.
  unfold findall. simpl findall_from.
  destruct (search_from r 0 s); reflexivity.
Qed.

(** [next_name], read off the leftmost match. *)
Lemma next_name_spec fl s :
  next_name fl s
  = match first_digits s with
    | Some (g1, d, g3, _) => g1 ++ str_of_N (int_of_digits d + 1) ++ g3
    | None => fst (splitext fl s) ++ " 1" ++ snd (splitext fl s)
    end.
Proof.
  unfold next_name.
  pose proof (findall_head re_final_digits s) as H.
  rewrite search_final in H.
  destruct (first_digits s) as [[[[g1 d] g3] rest]|]; simpl in H.
  - destruct (findall re_final_digits s) as [|c l]; [discriminate|].
    injection H as ->. reflexivity.
  - destruct (findall re_final_digits s); [|discriminate].
    now destruct (splitext fl s).
Qed.

(** *** The leftmost match and its rebuilding with other digits *)

Lemma span_cons p c s :
  span p (String c s)
  = if p c then (String c (fst (span p s)), snd (span p s)) else ("", String c s).
Proof. simpl. destruct (p c); [|reflexivity]. now destruct (span p s). Qed.

Lemma digits_dot_test s : digits_dot s = None <-> dd_test s = false.
Proof.
  unfold digits_dot, dd_test.
  destruct (span is_digit s) as [[|d0 d] [|c [|u0 t]]]; try tauto.
  - destruct (ch "." c); simpl; tauto.
  - rewrite span_cons.
    destruct (ch "." c); simpl; [|tauto].
    destruct (dot u0); simpl; split; intros H; congruence.
Qed.

Lemma digits_dot_struct s d g3 rest :
  digits_dot s = Some (d, g3, rest) ->
  s = d ++ g3 ++ rest /\ good_digits d /\ good_ext g3.
Proof.
  unfold digits_dot. intros H.
  pose proof (span_app is_digit s) as Hs.
  pose proof (span_all is_digit s) as Hd.
  destruct (span is_digit s) as [[|d0 d1] [|c t]]; try discriminate.
  destruct (ch "." c) eqn:Hc; [|discriminate].
  apply ch_eq in Hc. subst c.
  pose proof (span_app dot t) as Ht.
  pose proof (span_all dot t) as Hu.
  destruct (span dot t) as [[|u0 u] r]; [discriminate|].
  injection H as <- <- <-. simpl in *.
  split; [|split].
  - rewrite <- Hs. do 2 f_equal. rewrite app_cons. f_equal.
    rewrite <- Ht. reflexivity.
  - split; [discriminate|exact Hd].
  - exists u0, u. split; [reflexivity|exact Hu].
Qed.

Lemma good_digits_head d :
  good_digits d -> exists d0 d1, d = String d0 d1 /\ is_digit d0 = true.
Proof.
  intros [Hn Ha]. destruct d as [|d0 d1]; [congruence|].
  simpl in Ha. apply andb_true_iff in Ha as [H0 _]. eauto.
Qed.

Lemma digits_dot_intro d g3 :
  good_digits d -> good_ext g3 -> digits_dot (d ++ g3) = Some (d, g3, "").
Proof.
  intros Hd (u0 & u & -> & Hu).
  destruct (good_digits_head _ Hd) as (d0 & d1 & -> & H0).
  destruct Hd as [_ Hd].
  unfold digits_dot.
  rewrite span_app_stop by (assumption || reflexivity).
  simpl ch. cbv beta iota.
  replace (ch "." ".") with true by reflexivity.
  replace (String u0 u) with (String u0 u ++ "") by apply app_nil_r_s.
  rewrite span_app_all by assumption. simpl.
  rewrite !app_nil_r_s. reflexivity.
Qed.

(** Whether the tail pattern matches at a place before the digits does
    not depend on the digits. *)
Lemma dd_test_indep b d d' g3 rest rest' :
  good_digits d -> good_digits d' -> good_ext g3 ->
  dd_test (b ++ d ++ g3 ++ rest) = dd_test (b ++ d' ++ g3 ++ rest').
Proof.
  intros Hd Hd' (u0 & u & -> & Hu).
  destruct (good_digits_head _ Hd) as (x0 & x1 & -> & Hx0).
  destruct (good_digits_head _ Hd') as (y0 & y1 & -> & Hy0).
  destruct Hd as [_ Hd]. destruct Hd' as [_ Hd'].
  simpl in Hu. apply andb_true_iff in Hu as [Hu0 Hu].
  unfold dd_test. rewrite !(app_cons "."%char).
  destruct (all_chars is_digit b) eqn:Hb.
  - rewrite !(span_app_all _ b) by assumption.
    rewrite !span_app_stop by (assumption || reflexivity).
    simpl. destruct b; simpl; rewrite ?app_cons; now rewrite Hu0.
  - rewrite !span_app_not by assumption.
    destruct (span_not_all_rest _ _ Hb) as (c & r & E & Hc).
    destruct (span is_digit b) as [a t]. simpl in *. subst t.
    destruct a as [|a0 a]; [reflexivity|].
    rewrite !app_cons.
    destruct r as [|c1 r]; [|reflexivity].
    simpl. now rewrite (digit_is_dot _ Hx0), (digit_is_dot _ Hy0).
Qed.

Lemma lazy_digits_struct s g1 d g3 rest :
  lazy_digits s = Some (g1, d, g3, rest) ->
  s = g1 ++ d ++ g3 ++ rest /\ good_digits d /\ good_ext g3.
Proof.
  revert g1. induction s as [|c s IH]; intros g1; rewrite lazy_digits_unfold.
  - destruct (digits_dot "") as [[[? ?] ?]|] eqn:E; [discriminate E|discriminate].
  - destruct (digits_dot (String c s)) as [[[d' g3'] rest']|] eqn:E.
    + intros H. injection H as <- <- <- <-.
      apply digits_dot_struct in E. exact E.
    + destruct (dot c); [|discriminate].
      destruct (lazy_digits s) as [[[[g1' d'] g3'] rest']|]; [|discriminate].
      intros H. injection H as <- <- <- <-.
      destruct (IH _ eq_refl) as (-> & Hd & Hg). auto.
Qed.

Lemma lazy_rebuild s g1 d g3 rest d' :
  lazy_digits s = Some (g1, d, g3, rest) ->
  good_digits d' ->
  lazy_digits (g1 ++ d' ++ g3) = Some (g1, d', g3, "").
Proof.
  intros H Hd'. revert g1 H.
  induction s as [|c s IH]; intros g1; rewrite lazy_digits_unfold.
  - destruct (digits_dot "") as [[[? ?] ?]|] eqn:E; [discriminate E|discriminate].
  - destruct (digits_dot (String c s)) as [[[d1 g31] rest1]|] eqn:E.
    + intros H. injection H as <- -> -> ->.
      apply digits_dot_struct in E as (_ & _ & Hg).
      rewrite app_nil_l_s, lazy_digits_unfold, digits_dot_intro by assumption.
      reflexivity.
    + destruct (dot c) eqn:Hc; [|discriminate].
      destruct (lazy_digits s) as [[[[g1' d1] g31] rest1]|] eqn:El; [|discriminate].
      intros H. injection H as <- -> -> ->.
      destruct (lazy_digits_struct _ _ _ _ _ El) as (Hs & Hd & Hg).
      rewrite app_cons, lazy_digits_unfold, Hc, (IH _ eq_refl).
      assert (Et : digits_dot (String c (g1' ++ d' ++ g3)) = None).
      { apply digits_dot_test. apply digits_dot_test in E.
        rewrite Hs in E.
        rewrite <- E. rewrite <- (app_nil_r_s g3) at 1.
        rewrite <- !app_cons.
        apply dd_test_indep; assumption. }
      rewrite Et. reflexivity.
Qed.

Lemma first_digits_struct s g1 d g3 rest :
  first_digits s = Some (g1, d, g3, rest) ->
  (exists s', lazy_digits s' = Some (g1, d, g3, rest))
  /\ good_digits d /\ good_ext g3.
Proof.
  induction s as [|c s IH]; rewrite first_digits_unfold.
  - destruct (lazy_digits "") as [r|] eqn:E; [|discriminate].
    intros H. injection H as ->.
    destruct (lazy_digits_struct _ _ _ _ _ E) as (_ & ? & ?). eauto.
  - destruct (lazy_digits (String c s)) as [r|] eqn:E; [|exact IH].
    intros H. injection H as ->.
    destruct (lazy_digits_struct _ _ _ _ _ E) as (_ & ? & ?). eauto.
Qed.

Lemma first_rebuild s g1 d g3 rest d' :
  first_digits s = Some (g1, d, g3, rest) ->
  good_digits d' ->
  first_digits (g1 ++ d' ++ g3) = Some (g1, d', g3, "").
Proof.
  intros H Hd'. apply first_digits_struct in H as ((s' & H) & _ & _).
  rewrite first_digits_unfold, (lazy_rebuild _ _ _ _ _ _ H Hd'). reflexivity.
Qed.

(** *** Decimal numerals *)

Lemma string_of_uint_digits d :
  all_chars is_digit (NilEmpty.string_of_uint d) = true.
Proof. induction d; simpl; auto. Qed.

Lemma str_of_N_good n : good_digits (str_of_N n).
Proof.
  unfold str_of_N. split; [|apply string_of_uint_digits].
  assert (Hn : N.to_uint n <> Decimal.Nil).
  { destruct n; [discriminate|]. apply Unsigned.to_uint_nonnil. }
  destruct (N.to_uint n); simpl; congruence.
Qed.

Lemma int_of_str n : int_of_digits (str_of_N n) = n.
Proof.
  unfold int_of_digits, str_of_N. rewrite NilEmpty.usu.
  apply DecimalN.Unsigned.of_to.
Qed.

(** *** Every turn of the loop moves to a name not proposed before *)

Lemma rank_lt_trans a b c : rank_lt a b -> rank_lt b c -> rank_lt a c.
Proof. destruct a, b, c; simpl; try tauto; lia. Qed.

Lemma rank_lt_irrefl a : ~ rank_lt a a.
Proof. destruct a; simpl; lia. Qed.

Lemma splitext_app fl s : fst (splitext fl s) ++ snd (splitext fl s) = s.
Proof.
  unfold splitext. destruct (rfind_if is_dot s) as [i|]; simpl.
  - match goal with |- context [if ?b then _ else _] => destruct b end; simpl.
    + apply stake_sdrop.
    + apply app_nil_r_s.
  - apply app_nil_r_s.
Qed.

Lemma next_name_rank fl s : rank_lt (rank s) (rank (next_name fl s)).
Proof.
  rewrite next_name_spec. unfold rank at 1.
  destruct (first_digits s) as [[[[g1 d] g3] rest]|] eqn:E.
  - unfold rank.
    rewrite (first_rebuild _ _ _ _ _ _ E (str_of_N_good _)).
    rewrite int_of_str. simpl. lia.
  - assert (Hl : String.length
                   (fst (splitext fl s) ++ " 1" ++ snd (splitext fl s))
                 = String.length s + 2).
    { rewrite <- (splitext_app fl s) at 3.
      rewrite !length_app. simpl. lia. }
    unfold rank.
    destruct (first_digits (_ ++ _)) as [[[[? ?] ?] ?]|]; [exact I|].
    unfold rank_lt. rewrite Hl. lia.
Qed.

Lemma candidate_succ fl r i :
  candidate fl r (S i) = next_name fl (candidate fl r i).
Proof. reflexivity. Qed.

Lemma candidate_next fl r i :
  candidate fl (next_name fl r) i = candidate fl r (S i).
Proof. unfold candidate. now rewrite Nat.iter_succ_r. Qed.

Lemma candidate_rank fl r i j :
  i < j -> rank_lt (rank (candidate fl r i)) (rank (candidate fl r j)).
Proof.
  induction 1 as [|j Hij IH].
  - rewrite candidate_succ. apply next_name_rank.
  - eapply rank_lt_trans; [exact IH|].
    rewrite candidate_succ. apply next_name_rank.
Qed.

Lemma candidate_inj fl r i j :
  candidate fl r i = candidate fl r j -> i = j.
Proof.
  intros E. destruct (Nat.lt_trichotomy i j) as [H|[H|H]]; [|exact H|].
  - apply (candidate_rank fl r) in H. rewrite E in H.
    now apply rank_lt_irrefl in H.
  - apply (candidate_rank fl r) in H. rewrite E in H.
    now apply rank_lt_irrefl in H.
Qed.

Lemma in_list_In x l : in_list x l = true <-> In x l.
Proof.
  unfold in_list. rewrite existsb_exists. split.
  - intros (y & Hy & E). apply String.eqb_eq in E. now subst.
  - intros H. exists x. split; [exact H|apply String.eqb_refl].
Qed.

Lemma candidates_NoDup fl r n :
  NoDup (List.map (candidate fl r) (List.seq 0 n)).
Proof.
  apply NoDup_ListNoDup.
  apply Finite.Injective_map_NoDup; [|apply List.seq_NoDup].
  intros i j. apply candidate_inj.
Qed.

(** Names that are all taken are no more than the existing names. *)
Lemma taken_bound fl E r n :
  (forall i, i < n -> In (candidate fl r i) E) -> n <= List.length E.
Proof.
  intros H.
  assert (El : List.length (List.map (candidate fl r) (List.seq 0 n)) = n)
    by now rewrite List.length_map, List.length_seq.
  rewrite <- El at 1.
  apply NoDup_incl_length; [apply NoDup_ListNoDup, candidates_NoDup|].
  intros x Hx. apply in_map_iff in Hx as (i & <- & Hi).
  apply List.in_seq in Hi. apply H. lia.
Qed.


(** *** The loop *)

Lemma loop_some fuel fl E s t r t' :
  make_unique_loop fuel fl E s t = Some (r, t') ->
  exists k, k <= fuel /\ r = candidate fl s k /\ t' = t + k
            /\ in_list r E = false
            /\ forall i, i < k -> in_list (candidate fl s i) E = true.
Proof.
  revert s t. induction fuel as [|fuel IH]; intros s t; simpl;
    destruct (in_list s E) eqn:Hs.
  - discriminate.
  - intros H. injection H as <- <-. exists 0. repeat split; auto; lia.
  - intros H. apply IH in H as (k & Hk & -> & -> & Hr & Hi).
    exists (S k). rewrite <- !candidate_next. repeat split; auto; try lia.
    intros [|i] Hlt; [exact Hs|]. rewrite <- candidate_next. apply Hi. lia.
  - intros H. injection H as <- <-. exists 0. repeat split; auto; lia.
Qed.

Lemma loop_none fuel fl E s t :
  make_unique_loop fuel fl E s t = None ->
  forall i, i <= fuel -> in_list (candidate fl s i) E = true.
Proof.
  revert s t. induction fuel as [|fuel IH]; intros s t; simpl;
    destruct (in_list s E) eqn:Hs; try discriminate.
  - intros _ i Hi. replace i with 0 by lia. exact Hs.
  - intros H [|i] Hi; [exact Hs|].
    rewrite <- candidate_next. eapply IH; [exact H|lia].
Qed.

Lemma loop_enough fuel fl E s t k :
  k <= fuel ->
  (forall i, i < k -> in_list (candidate fl s i) E = true) ->
  in_list (candidate fl s k) E = false ->
  make_unique_loop fuel fl E s t = Some (candidate fl s k, t + k).
Proof.
  revert fuel s t. induction k as [|k IH]; intros fuel s t Hk Hi Hf.
  - simpl in Hf. destruct fuel; simpl; rewrite Hf, Nat.add_0_r; reflexivity.
  - destruct fuel as [|fuel]; [lia|].
    change (make_unique_loop (S fuel) fl E s t)
      with (if in_list s E
            then make_unique_loop fuel fl E (next_name fl s) (S t)
            else Some (s, t)).
    pose proof (Hi 0 ltac:(lia)) as H0. unfold candidate in H0. simpl in H0.
    rewrite H0.
    rewrite <- candidate_next, <- Nat.add_succ_comm. apply IH.
    + lia.
    + intros i Hlt. rewrite candidate_next. apply Hi. lia.
    + now rewrite candidate_next.
Qed.

Lemma loop_total fl E s :
  exists r k, make_unique_loop (List.length E) fl E s 0 = Some (r, k).
Proof.
  destruct (make_unique_loop (List.length E) fl E s 0) as [[r k]|] eqn:H;
    [eauto|].
  exfalso. pose proof (loop_none _ _ _ _ _ H) as Hall.
  assert (Hb : S (List.length E) <= List.length E).
  { apply (taken_bound fl E s). intros i Hi. apply in_list_In, Hall. lia. }
  lia.
Qed.

Lemma make_unique_string_total fl (existing_names : list string)
    (requested_name : string) :
  exists name, make_unique_string fl existing_names requested_name = Some name.
Proof.
  unfold make_unique_string.
  destruct (loop_total fl existing_names requested_name) as (r & k & ->).
  eauto.
Qed.



Section MapperFacts.
Variable fl : flavour.
Variables zim_dir obs_dir : path.
Variable pol : policy.

Local Abbreviation map_entries' := (map_entries fl zim_dir obs_dir pol).
Local Abbreviation map_entry' := (map_entry fl zim_dir obs_dir pol).

Lemma map_entries_app ens1 ens2 m :
  map_entries' (ens1 ++ ens2) m
  = match map_entries' ens1 m with
    | Some m' => map_entries' ens2 m'
    | None => None
    end.
Proof.
  revert m. induction ens1 as [|en ens1 IH]; intros m; simpl; [reflexivity|].
  destruct (map_entry' m en); [apply IH|reflexivity].
Qed.

Lemma map_folders_entries relroot folders m :
  map_entries' (List.map (fun d => (relroot, inl d)) folders) m
  = Some (fold_left (map_folder zim_dir obs_dir relroot) folders m).
Proof.
  revert m. induction folders as [|d ds IH]; intros m; simpl; [reflexivity|].
  apply IH.
Qed.

Lemma map_files_entries relroot files m :
  map_entries' (List.map (fun f => (relroot, inr f)) files) m
  = map_files fl zim_dir obs_dir pol relroot files m.
Proof.
  revert m. induction files as [|f fs IH]; intros m; simpl; [reflexivity|].
  destruct (map_file _ _ _ _ _ _ _); [apply IH|reflexivity].
Qed.

(** The nested loops are one pass over the entries. *)
Lemma map_walk_entries walk m :
  map_walk fl zim_dir obs_dir pol walk m = map_entries' (entries walk) m.
Proof.
  revert m. induction walk as [|w walk IH]; intros m; simpl; [reflexivity|].
  unfold entries in *. simpl. rewrite map_entries_app.
  unfold entries_of. rewrite map_entries_app, map_folders_entries.
  rewrite map_files_entries. unfold map_walk_entry.
  destruct (map_files _ _ _ _ _ _ _); [apply IH|reflexivity].
Qed.

(** *** Suffixes *)

Lemma length_stake n s : n <= String.length s -> String.length (stake n s) = n.
Proof.
  revert s. induction n as [|n IH]; intros [|c s]; simpl; try lia.
  intros H. rewrite IH; lia.
Qed.

Lemma length_sdrop n s : String.length (sdrop n s) = String.length s - n.
Proof.
  revert s. induction n as [|n IH]; intros [|c s]; simpl; try lia. apply IH.
Qed.

Lemma rfind_if_lt p s i : rfind_if p s = Some i -> i < String.length s.
Proof.
  revert i. induction s as [|c s IH]; intros i; simpl; [discriminate|].
  destruct (rfind_if p s) as [j|].
  - intros H. injection H as <-. specialize (IH _ eq_refl). lia.
  - destruct (p c); [|discriminate]. intros H. injection H as <-. lia.
Qed.

Lemma splitext_ext name stem ext :
  splitext fl name = (stem, ext) -> ext <> "" ->
  exists i, rfind_if is_dot name = Some i /\ 0 < i
            /\ stem = stake i name /\ ext = sdrop i name.
Proof.
  unfold splitext. intros H Hne.
  destruct (rfind_if is_dot name) as [i|] eqn:Ei.
  - match type of H with (if ?b then _ else _) = _ => destruct b eqn:Eb end.
    + injection H as <- <-. exists i. repeat split; auto.
      apply andb_true_iff in Eb as [Eb _]. apply Nat.ltb_lt in Eb. lia.
    + injection H as <- <-. congruence.
  - injection H as <- <-. congruence.
Qed.

Lemma splitext_txt name stem :
  splitext fl name = (stem, ".txt") ->
  name = stem ++ ".txt" /\ name_with_suffix name ".md" = stem ++ ".md"
  /\ stem <> "" /\ name <> "".
Proof.
  intros H. destruct (splitext_ext _ _ _ H) as (i & Ei & Hi & -> & Hx);
    [discriminate|].
  pose proof (rfind_if_lt _ _ _ Ei) as Hlt.
  pose proof (length_sdrop i name) as Hl. rewrite <- Hx in Hl. simpl in Hl.
  assert (Hn : name = stake i name ++ ".txt")
    by (rewrite Hx; symmetry; apply stake_sdrop).
  repeat split.
  - exact Hn.
  - unfold name_with_suffix, suffix. rewrite Ei.
    replace (Nat.ltb 0 i) with true by (symmetry; apply Nat.ltb_lt; lia).
    replace (Nat.ltb i (String.length name - 1)) with true
      by (symmetry; apply Nat.ltb_lt; lia).
    simpl. rewrite <- Hx. simpl.
    replace (String.length name - 4) with i by lia. reflexivity.
  - intros E. apply (f_equal String.length) in E.
    rewrite length_stake in E by lia. simpl in E. lia.
  - intros E. rewrite E in Hlt. simpl in Hlt. lia.
Qed.

Lemma with_suffix_snoc (p : path) name suf :
  name <> "" ->
  with_suffix (p ++ [name])%list suf = Some (p ++ [name_with_suffix name suf])%list.
Proof.
  intros Hn. induction p as [|a p IH]; simpl.
  - destruct (String.eqb_spec name ""); [congruence|reflexivity].
  - destruct (p ++ [name])%list as [|b q] eqn:E.
    + destruct p; discriminate.
    + rewrite <- E in *. simpl in IH. rewrite IH. reflexivity.
Qed.

Lemma path_in_values (p : path) (d : gmap path path) :
  path_in p (values d) = true <-> exists k, d !! k = Some p.
Proof.
  unfold path_in, values. rewrite existsb_exists. split.
  - intros (q & Hq & E). apply bool_decide_eq_true in E. subst q.
    apply list_elem_of_In, list_elem_of_fmap in Hq as ([k v] & -> & Hkv).
    apply elem_of_map_to_list in Hkv. eauto.
  - intros (k & Hk). exists p. split; [|now apply bool_decide_eq_true].
    apply list_elem_of_In, list_elem_of_fmap. exists (k, p).
    split; [reflexivity|]. now apply elem_of_map_to_list.
Qed.

End MapperFacts.

(** *** Folder notes: a page next to a folder of its name *)

Section FolderNotes.
Variable fl : flavour.
Variables zim_dir obs_dir : path.
Variable pol : policy.
Hypothesis folder_mode : use_folder_notes pol = true.

Variable relroot : path.
Variable folder : string.
Variable page : string.
Hypothesis page_name : splitext fl page = (folder, ".txt").

Let KF : path := (zim_dir ++ relroot ++ [folder])%list.
Let VF : path := (obs_dir ++ relroot ++ [folder])%list.
Let KP : path := (zim_dir ++ relroot ++ [page])%list.
Let VP : path := (VF ++ [(folder ++ ".md")%string])%list.

Lemma folder_kept m m' en :
  folder_map m !! KF = Some VF ->
  map_entry fl zim_dir obs_dir pol m en = Some m' ->
  folder_map m' !! KF = Some VF.
Proof.
  intros HF. destruct en as [r [d|f]]; simpl.
  - intros H. injection H as <-. simpl.
    destruct (decide ((zim_dir ++ r ++ [d])%list = KF)) as [E|E].
    + rewrite E, lookup_insert_eq. f_equal.
      unfold KF in E. apply app_inv_head in E.
      unfold VF. now rewrite E.
    + now rewrite lookup_insert_ne.
  - unfold map_file. intros H.
    repeat match type of H with
           | (if ?b then _ else _) = _ => destruct b
           | match ?x with Some _ => _ | None => _ end = _ => destruct x
           end;
      try discriminate; injection H as <-; exact HF.
Qed.

Lemma page_value m f :
  fe_name f = page -> is_page fl f = true ->
  folder_map m !! KF = Some VF ->
  exists m', map_file fl zim_dir obs_dir pol relroot m f = Some m'
             /\ note_map m' !! KP = Some VP
             /\ folder_map m' = folder_map m.
Proof.
  intros Hn Hp HF. unfold map_file, is_page in *. rewrite Hn in *.
  rewrite Hp, page_name, folder_mode. simpl.
  assert (Hin : path_in (obs_dir ++ relroot ++ [folder])%list
                  (values (folder_map m)) = true)
    by (apply path_in_values; eauto).
  rewrite Hin.
  destruct (splitext_txt fl _ _ page_name) as (_ & Hs & _ & Hne).
  replace ((obs_dir ++ relroot ++ [folder]) ++ [page])%list
    with (VF ++ [page])%list by reflexivity.
  rewrite with_suffix_snoc by assumption. rewrite Hs.
  eexists. split; [reflexivity|]. simpl. split; [|reflexivity].
  apply lookup_insert_eq.
Qed.

Lemma page_kept m m' en :
  folder_map m !! KF = Some VF ->
  note_map m !! KP = Some VP ->
  map_entry fl zim_dir obs_dir pol m en = Some m' ->
  note_map m' !! KP = Some VP.
Proof.
  intros HF HP. destruct en as [r [d|f]]; simpl.
  - intros H. injection H as <-. exact HP.
  - destruct (decide ((zim_dir ++ r ++ [fe_name f])%list = KP)) as [E|E].
    + unfold KP in E. apply app_inv_head in E.
      apply app_inj_tail in E as [-> En].
      destruct (is_page fl f) eqn:Hp.
      * destruct (page_value m f En Hp HF) as (m1 & -> & H1 & _).
        intros H. now injection H as <-.
      * unfold map_file. unfold is_page in Hp. rewrite Hp. intros H.
        repeat match type of H with
               | (if ?b then _ else _) = _ => destruct b
               | match ?x with Some _ => _ | None => _ end = _ => destruct x
               end;
          try discriminate; injection H as <-; simpl; exact HP.
    + unfold map_file. intros H.
      repeat match type of H with
             | (if ?b then _ else _) = _ => destruct b
             | match ?x with Some _ => _ | None => _ end = _ => destruct x
             end;
        try discriminate; injection H as <-; simpl; try exact HP.
      now rewrite lookup_insert_ne.
Qed.

Lemma both_kept ens m m' :
  folder_map m !! KF = Some VF ->
  note_map m !! KP = Some VP ->
  map_entries fl zim_dir obs_dir pol ens m = Some m' ->
  folder_map m' !! KF = Some VF /\ note_map m' !! KP = Some VP.
Proof.
  revert m. induction ens as [|en ens IH]; intros m HF HP; simpl.
  - intros H. now injection H as <-.
  - destruct (map_entry fl zim_dir obs_dir pol m en) as [m1|] eqn:E;
      [|discriminate].
    apply IH; [eapply folder_kept|eapply page_kept]; eauto.
Qed.

Lemma folders_kept ens m m' :
  folder_map m !! KF = Some VF ->
  map_entries fl zim_dir obs_dir pol ens m = Some m' ->
  folder_map m' !! KF = Some VF.
Proof.
  revert m. induction ens as [|en ens IH]; intros m HF; simpl.
  - intros H. now injection H as <-.
  - destruct (map_entry fl zim_dir obs_dir pol m en) as [m1|] eqn:E;
      [|discriminate].
    apply IH. eapply folder_kept; eauto.
Qed.

(** The folder comes before the page among the entries. *)
Lemma nested_entries pre mid post f m0 m :
  fe_name f = page -> is_page fl f = true ->
  map_entries fl zim_dir obs_dir pol
    (pre ++ (relroot, inl folder) :: mid ++ (relroot, inr f) :: post) m0
  = Some m ->
  folder_map m !! KF = Some VF /\ note_map m !! KP = Some VP.
Proof.
  intros Hn Hp. rewrite map_entries_app.
  destruct (map_entries _ _ _ _ pre m0) as [m1|]; [|discriminate].
  simpl. rewrite map_entries_app.
  set (m2 := map_folder zim_dir obs_dir relroot m1 folder).
  assert (H2 : folder_map m2 !! KF = Some VF) by apply lookup_insert_eq.
  destruct (map_entries _ _ _ _ mid m2) as [m3|] eqn:E3; [|discriminate].
  pose proof (folders_kept _ _ _ H2 E3) as H3.
  simpl.
  destruct (page_value m3 f Hn Hp H3) as (m4 & -> & H4 & Hf4).
  apply both_kept; [now rewrite Hf4|exact H4].
Qed.

End FolderNotes.

(** *** The mapper always returns *)

Lemma map_file_total fl zim_dir obs_dir pol relroot m f :
  exists m', map_file fl zim_dir obs_dir pol relroot m f = Some m'.
Proof.
  unfold map_file.
  destruct (String.eqb _ ".txt" && compatible _) eqn:Hp.
  - apply andb_true_iff in Hp as [Hx _]. apply String.eqb_eq in Hx.
    destruct (splitext fl (fe_name f)) as [stem ext] eqn:Es. simpl in Hx. subst ext.
    destruct (splitext_txt fl _ _ Es) as (_ & _ & _ & Hne).
    destruct (use_folder_notes pol && _);
      rewrite ?app_assoc; rewrite with_suffix_snoc by assumption; eauto.
  - destruct (in_list _ _); [eauto|].
    destruct (use_global_attachments pol); [|eauto].
    destruct (make_unique_string_total fl
                (List.map (path_str fl) (values (file_map m)))
                (path_str fl (obs_dir ++ global_attachments_relative_path pol
                              ++ [fe_name f])%list)) as (u & ->).
    eauto.
Qed.

Lemma map_entries_total fl zim_dir obs_dir pol ens m :
  exists m', map_entries fl zim_dir obs_dir pol ens m = Some m'.
Proof.
  revert m. induction ens as [|[r [d|f]] ens IH]; intros m; simpl; eauto.
  destruct (map_file_total fl zim_dir obs_dir pol r m f) as (m1 & ->). eauto.
Qed.

Lemma map_zim_dir_total fl zim_dir obs_dir pol walk :
  exists m, map_zim_dir_to_obsidian_dir fl zim_dir obs_dir pol walk = Some m.
Proof.
  unfold map_zim_dir_to_obsidian_dir. rewrite map_walk_entries.
  apply map_entries_total.
Qed.

(** *** Paths as strings *)

Lemma join_snoc sp (p : path) n :
  p <> [] -> join sp (p ++ [n])%list = join sp p ++ sp ++ n.
Proof.
  induction p as [|a p IH]; [congruence|]. intros _.
  destruct p as [|b p]; [reflexivity|].
  change (join sp ((a :: b :: p) ++ [n])%list)
    with (a ++ sp ++ join sp ((b :: p) ++ [n])%list).
  rewrite IH by discriminate.
  change (join sp (a :: b :: p)) with (a ++ sp ++ join sp (b :: p)).
  now rewrite !app_assoc_s.
Qed.

Lemma path_str_snoc fl (p : path) last n :
  last <> "" ->
  path_str fl ((p ++ [last]) ++ [n])%list
  = path_str fl (p ++ [last])%list ++ sep_str fl ++ n.
Proof.
  intros Hl.
  assert (H1 : forall q : path, q <> [] -> q <> [""] ->
                 path_str fl q = join (sep_str fl) q).
  { intros [|a q] Hq1 Hq2; [congruence|].
    destruct a, q; try congruence; reflexivity. }
  rewrite !H1.
  - apply join_snoc. now destruct p.
  - now destruct p.
  - destruct p as [|a [|b p]]; simpl; congruence.
  - now destruct p.
  - destruct p as [|a [|b p]]; simpl; try discriminate.
Qed.

Lemma entries_split walk w d f :
  In w walk -> In d (w_folders w) -> In f (w_files w) ->
  exists pre mid post,
    entries walk
    = (pre ++ (w_relroot w, inl d) :: mid ++ (w_relroot w, inr f) :: post)%list.
Proof.
  intros Hw Hd Hf.
  apply in_split in Hw as (w1 & w2 & ->).
  apply in_split in Hd as (d1 & d2 & Ed).
  apply in_split in Hf as (f1 & f2 & Ef).
  unfold entries. rewrite flat_map_app. simpl. unfold entries_of at 2.
  rewrite Ed, Ef, !List.map_app. simpl.
  exists (flat_map entries_of w1 ++ List.map (fun d => (w_relroot w, inl d)) d1)%list,
         (List.map (fun d => (w_relroot w, inl d)) d2
          ++ List.map (fun f => (w_relroot w, inr f)) f1)%list,
         (List.map (fun f => (w_relroot w, inr f)) f2 ++ flat_map entries_of w2)%list.
  now rewrite <- !app_assoc.
Qed.

(** C4.  Under folder-note mode, a page and a folder of the same
    directory of the walk that share their base name are mapped so that
    the page's destination is the folder's destination, the separator,
    the folder's name and [.md]. *)
Theorem folder_note_page_nested fl zim_dir obs_dir pol walk w folder f :
  use_folder_notes pol = true ->
  In w walk -> In folder (w_folders w) -> In f (w_files w) ->
  splitext fl (fe_name f) = (folder, ".txt") ->
  compatible (fe_lines f) = true ->
  exists m dest,
    map_zim_dir_to_obsidian_dir fl zim_dir obs_dir pol walk = Some m
    /\ folder_map m !! (zim_dir ++ w_relroot w ++ [folder])%list = Some dest
    /\ note_map m !! (zim_dir ++ w_relroot w ++ [fe_name f])%list
       = Some (dest ++ [(folder ++ ".md")%string])%list
    /\ path_str fl (dest ++ [(folder ++ ".md")%string])%list
       = path_str fl dest ++ sep_str fl ++ folder ++ ".md".
Proof.
  intros Hmode Hw Hd Hf Hs Hc.
  destruct (map_zim_dir_total fl zim_dir obs_dir pol walk) as (m & Hm).
  exists m, (obs_dir ++ w_relroot w ++ [folder])%list.
  split; [exact Hm|].
  unfold map_zim_dir_to_obsidian_dir in Hm. rewrite map_walk_entries in Hm.
  destruct (entries_split _ _ _ _ Hw Hd Hf) as (pre & mid & post & E).
  rewrite E in Hm.
  assert (Hp : is_page fl f = true).
  { unfold is_page. rewrite Hs, Hc. reflexivity. }
  destruct (nested_entries fl zim_dir obs_dir pol Hmode (w_relroot w) folder
              (fe_name f) Hs pre mid post f empty_maps m eq_refl Hp Hm)
    as [HF HP].
  split; [exact HF|]. split; [exact HP|].
  destruct (splitext_txt fl _ _ Hs) as (_ & _ & Hne & _).
  rewrite !app_assoc. apply path_str_snoc. exact Hne.
Qed.

(** *** Names the pattern does not match *)

Lemma first_none_lazy s : first_digits s = None -> lazy_digits s = None.
Proof.
  rewrite first_digits_unfold. destruct (lazy_digits s); [discriminate|reflexivity].
Qed.

Lemma lazy_none_dd s : lazy_digits s = None -> dd_test s = false.
Proof.
  rewrite lazy_digits_unfold. intros H. apply digits_dot_test.
  destruct (digits_dot s) as [[[? ?] ?]|]; [discriminate|reflexivity].
Qed.

Lemma first_none_suffix a s : first_digits (a ++ s) = None -> first_digits s = None.
Proof.
  induction a as [|c a IH]; [trivial|].
  rewrite app_cons, first_digits_unfold.
  destruct (lazy_digits (String c (a ++ s))); [discriminate|exact IH].
Qed.

Lemma first_none_dd a s : first_digits (a ++ s) = None -> dd_test s = false.
Proof.
  intros H. now apply lazy_none_dd, first_none_lazy, first_none_suffix with a.
Qed.

(** Before a name's extension, a space and digits in place of nothing
    do not make the tail pattern match where it did not. *)
Lemma dd_test_spaced b d ext :
  good_digits d -> good_ext ext ->
  dd_test (b ++ ext) = false ->
  dd_test (b ++ " " ++ d ++ ext) = false.
Proof.
  intros Hd (u0 & u & -> & Hu) H.
  simpl in Hu. apply andb_true_iff in Hu as [Hu0 Hu].
  unfold dd_test in *.
  destruct (all_chars is_digit b) eqn:Hb.
  - change (" " ++ d ++ String "." (String u0 u))
      with (String " " (d ++ String "." (String u0 u))).
    rewrite span_app_stop by (assumption || reflexivity).
    rewrite span_app_stop in H by (assumption || reflexivity).
    rewrite Hu0 in H. simpl in H.
    destruct b as [|b0 b]; [reflexivity|discriminate].
  - rewrite span_app_not in * by assumption.
    destruct (span_not_all_rest _ _ Hb) as (c & r & E & Hc).
    destruct (span is_digit b) as [a t]. simpl in *. subst t.
    destruct a as [|a0 a]; [reflexivity|].
    rewrite !app_cons in *.
    destruct r as [|c1 r]; [|exact H].
    simpl in *. rewrite andb_true_r in H. now rewrite H.
Qed.

Lemma lazy_spaced stem d ext :
  (forall a b, stem = a ++ b -> dd_test (b ++ ext) = false) ->
  all_chars dot stem = true ->
  good_digits d -> good_ext ext ->
  lazy_digits (stem ++ " " ++ d ++ ext) = Some (stem ++ " ", d, ext, "").
Proof.
  intros Hs Ha Hd He. induction stem as [|c stem IH].
  - rewrite app_nil_l_s.
    change (" " ++ d ++ ext) with (String " " (d ++ ext)).
    rewrite lazy_digits_unfold.
    replace (digits_dot (String " " (d ++ ext))) with
      (@None (string * string * string)).
    2:{ symmetry. apply digits_dot_test. reflexivity. }
    simpl dot. cbv iota.
    rewrite lazy_digits_unfold, digits_dot_intro by assumption. reflexivity.
  - simpl in Ha. apply andb_true_iff in Ha as [Hc Ha].
    rewrite app_cons, lazy_digits_unfold, Hc.
    replace (digits_dot (String c (stem ++ " " ++ d ++ ext))) with
      (@None (string * string * string)).
    2:{ symmetry. apply digits_dot_test. rewrite <- app_cons.
        apply dd_test_spaced; try assumption. now apply (Hs ""). }
    rewrite IH; [reflexivity| |assumption].
    intros a b E. apply (Hs (String c a) b). now rewrite E.
Qed.

Lemma findall_nil_first s :
  findall re_final_digits s = [] -> first_digits s = None.
Proof.
  intros H. pose proof (findall_head re_final_digits s) as Hh.
  rewrite H, search_final in Hh.
  destruct (first_digits s); [discriminate|reflexivity].
Qed.

(** The names proposed for a name the pattern does not match, with an
    extension of at least one character after its dot and no newline:
    the same name with 1, 2, 3, ... before the extension. *)
Lemma candidate_numbered fl cand k :
  first_digits cand = None ->
  all_chars dot (fst (splitext fl cand)) = true ->
  good_ext (snd (splitext fl cand)) ->
  candidate fl cand k
  = numbered (fst (splitext fl cand)) (snd (splitext fl cand)) k.
Proof.
  intros Hn Hs He.
  set (stem := fst (splitext fl cand)) in *.
  set (ext := snd (splitext fl cand)) in *.
  assert (Hc : cand = stem ++ ext) by (symmetry; apply splitext_app).
  assert (Hsuf : forall a b, stem = a ++ b -> dd_test (b ++ ext) = false).
  { intros a b E. apply (first_none_dd a). rewrite <- app_assoc_s, <- E, <- Hc.
    exact Hn. }
  induction k as [|k IH]; [exact Hc|].
  rewrite candidate_succ, IH, next_name_spec.
  destruct k as [|k].
  - simpl numbered. rewrite <- Hc, Hn. reflexivity.
  - unfold numbered at 1.
    rewrite first_digits_unfold.
    rewrite (lazy_spaced stem _ ext Hsuf Hs (str_of_N_good _) He).
    rewrite int_of_str. unfold numbered.
    replace (N.of_nat (S k) + 1)%N with (N.of_nat (S (S k))) by lia.
    now rewrite app_assoc_s.
Qed.

(** *** [splitext] of a path string and of its last component *)

Lemma rfind_if_app p a b :
  rfind_if p (a ++ b)
  = match rfind_if p b with
    | Some i => Some (String.length a + i)
    | None => rfind_if p a
    end.
Proof.
  induction a as [|c a IH].
  - rewrite app_nil_l_s. now destruct (rfind_if p b).
  - rewrite app_cons. simpl. rewrite IH.
    destruct (rfind_if p b); [reflexivity|]. reflexivity.
Qed.

Lemma rfind_if_none p s :
  all_chars (fun c => negb (p c)) s = true -> rfind_if p s = None.
Proof.
  induction s as [|c s IH]; simpl; [reflexivity|]. intros H.
  apply andb_true_iff in H as [Hc Hs]. rewrite (IH Hs).
  now destruct (p c).
Qed.

Lemma sdrop_app_plus a b n :
  sdrop (String.length a + n) (a ++ b) = sdrop n b.
Proof. induction a as [|c a IH]; [reflexivity|]. rewrite app_cons. exact IH. Qed.

Lemma stake_app_plus a b n :
  stake (String.length a + n) (a ++ b) = a ++ stake n b.
Proof.
  induction a as [|c a IH]; [reflexivity|].
  rewrite app_cons. simpl. now rewrite IH.
Qed.

Lemma splitext_prefixed fl P name :
  sep_free fl name = true ->
  match rfind_if (is_sep fl) P with Some i => S i | None => 0 end
  = String.length P ->
  splitext fl (P ++ name)
  = (P ++ fst (splitext fl name), snd (splitext fl name)).
Proof.
  intros Hf HP. unfold splitext.
  rewrite !rfind_if_app, (rfind_if_none (is_sep fl) name Hf), HP.
  destruct (rfind_if is_dot name) as [i|] eqn:Ei.
  - replace (String.length P + i - String.length P) with i by lia.
    pose proof (sdrop_app_plus P name 0) as H0. rewrite Nat.add_0_r in H0.
    rewrite H0. simpl sdrop. rewrite Nat.sub_0_r.
    replace (Nat.ltb (String.length P) (String.length P + i)) with (Nat.ltb 0 i).
    2:{ destruct (Nat.ltb_spec 0 i), (Nat.ltb_spec (String.length P) (String.length P + i));
        (reflexivity || lia). }
    destruct (Nat.ltb 0 i && _); simpl.
    + now rewrite stake_app_plus, sdrop_app_plus.
    + reflexivity.
  - simpl. destruct (rfind_if is_dot P) as [j|] eqn:Ej; [|reflexivity].
    pose proof (rfind_if_lt _ _ _ Ej) as Hlt.
    replace (Nat.ltb (String.length P) j) with false; [reflexivity|].
    symmetry. apply Nat.ltb_ge. lia.
Qed.

Lemma path_str_in_dir fl (dir : path) n :
  n <> "" -> path_str fl (dir ++ [n])%list = dir_prefix fl dir ++ n.
Proof.
  intros Hn. destruct dir as [|a dir].
  - simpl. destruct n; [congruence|reflexivity].
  - unfold dir_prefix. rewrite app_assoc_s, <- join_snoc by discriminate.
    simpl. destruct a; [|reflexivity].
    destruct dir; [|reflexivity]. simpl. reflexivity.
Qed.

Lemma is_sep_sep fl : is_sep fl (sep fl) = true.
Proof. now destruct fl. Qed.

Lemma dir_prefix_index fl dir :
  match rfind_if (is_sep fl) (dir_prefix fl dir) with
  | Some i => S i
  | None => 0
  end = String.length (dir_prefix fl dir).
Proof.
  destruct dir as [|a dir]; [reflexivity|].
  unfold dir_prefix. set (D := join (sep_str fl) (a :: dir)).
  rewrite rfind_if_app. unfold sep_str. simpl. rewrite is_sep_sep.
  rewrite length_app. simpl. lia.
Qed.

(** *** From a path to its string and back *)

Lemma split_on_free fl w :
  sep_free fl w = true -> split_on (is_sep fl) w = [w].
Proof.
  induction w as [|c w IH]; simpl; [reflexivity|]. intros H.
  apply andb_true_iff in H as [Hc Hw]. apply negb_true_iff in Hc.
  now rewrite Hc, (IH Hw).
Qed.

Lemma split_on_app_sep fl w rest :
  sep_free fl w = true ->
  split_on (is_sep fl) (w ++ String (sep fl) rest)
  = w :: split_on (is_sep fl) rest.
Proof.
  induction w as [|c w IH]; intros H.
  - rewrite app_nil_l_s. simpl. now rewrite is_sep_sep.
  - simpl in H. apply andb_true_iff in H as [Hc Hw]. apply negb_true_iff in Hc.
    rewrite app_cons. simpl. now rewrite Hc, (IH Hw).
Qed.

Lemma split_on_join fl (l : path) :
  l <> [] -> forallb (sep_free fl) l = true ->
  split_on (is_sep fl) (join (sep_str fl) l) = l.
Proof.
  induction l as [|a l IH]; [congruence|]. intros _ H.
  simpl in H. apply andb_true_iff in H as [Ha Hl].
  destruct l as [|b l]; [now apply split_on_free|].
  change (join (sep_str fl) (a :: b :: l))
    with (a ++ String (sep fl) (join (sep_str fl) (b :: l))).
  rewrite split_on_app_sep by assumption. f_equal. apply IH; [discriminate|exact Hl].
Qed.

Lemma filter_part_ok fl (l : path) :
  forallb (part_wf fl) l = true -> List.filter part_ok l = l.
Proof.
  induction l as [|a l IH]; simpl; [reflexivity|]. intros H.
  apply andb_true_iff in H as [Ha Hl]. unfold part_wf in Ha.
  apply andb_true_iff in Ha as [Ha _]. now rewrite Ha, (IH Hl).
Qed.

Lemma forallb_wf_free fl (l : path) :
  forallb (part_wf fl) l = true -> forallb (sep_free fl) l = true.
Proof.
  induction l as [|a l IH]; simpl; [reflexivity|]. intros H.
  apply andb_true_iff in H as [Ha Hl]. unfold part_wf in Ha.
  apply andb_true_iff in Ha as [_ Ha]. now rewrite Ha, (IH Hl).
Qed.

Lemma sep_free_head fl c w :
  sep_free fl (String c w) = true -> is_sep fl c = false.
Proof. simpl. intros H. apply andb_true_iff in H as [H _]. now apply negb_true_iff. Qed.

Lemma parse_path_str fl (dir : path) n :
  wf_dir fl dir = true -> part_wf fl n = true ->
  parse_path fl (path_str fl (dir ++ [n])%list) = (dir ++ [n])%list.
Proof.
  intros Hd Hn.
  assert (Hne : n <> "").
  { unfold part_wf, part_ok in Hn. destruct n; [discriminate|discriminate]. }
  assert (Hnf : sep_free fl n = true).
  { unfold part_wf in Hn. now apply andb_true_iff in Hn as [_ ?]. }
  destruct dir as [|a rest].
  - simpl. destruct n as [|c n]; [congruence|].
    unfold parse_path. rewrite (sep_free_head _ _ _ Hnf).
    unfold rel_parts. rewrite split_on_free by assumption.
    simpl. unfold part_wf in Hn. apply andb_true_iff in Hn as [Hn _].
    now rewrite Hn.
  - simpl in Hd. apply andb_true_iff in Hd as [Ha Hrest].
    assert (Hall : forallb (part_wf fl) (rest ++ [n]) = true).
    { rewrite forallb_app, Hrest. simpl. now rewrite Hn. }
    assert (Hstr : path_str fl ((a :: rest) ++ [n])%list
                   = join (sep_str fl) (a :: rest ++ [n])).
    { simpl. destruct a; [|reflexivity]. destruct rest; reflexivity. }
    rewrite Hstr.
    assert (Hj : join (sep_str fl) (a :: rest ++ [n])
                 = a ++ String (sep fl) (join (sep_str fl) (rest ++ [n]))).
    { simpl. destruct (rest ++ [n])%list eqn:E; [|reflexivity].
      destruct rest; discriminate. }
    assert (Hsp : forall a', sep_free fl a' = true ->
              split_on (is_sep fl)
                (a' ++ String (sep fl) (join (sep_str fl) (rest ++ [n])))
              = a' :: (rest ++ [n])%list).
    { intros a' Ha'. rewrite split_on_app_sep by assumption. f_equal.
      apply split_on_join; [now destruct rest|]. now apply forallb_wf_free. }
    rewrite Hj. apply orb_true_iff in Ha as [Ha|Ha].
    + apply String.eqb_eq in Ha. subst a. rewrite app_nil_l_s.
      unfold parse_path. rewrite is_sep_sep. unfold rel_parts.
      rewrite <- (app_nil_l_s (String (sep fl) _)), Hsp by reflexivity.
      simpl. now rewrite (filter_part_ok fl) by exact Hall.
    + assert (Haf : sep_free fl a = true).
      { unfold part_wf in Ha. now apply andb_true_iff in Ha as [_ ?]. }
      destruct a as [|c a].
      { unfold part_wf, part_ok in Ha. discriminate. }
      rewrite app_cons. unfold parse_path. rewrite (sep_free_head _ _ _ Haf).
      unfold rel_parts. rewrite <- app_cons, Hsp by assumption.
      change (List.filter part_ok (String c a :: rest ++ [n]))
        with (List.filter part_ok ((String c a :: rest) ++ [n])).
      apply (filter_part_ok fl). simpl forallb. now rewrite Ha, Hall.
Qed.

Section GlobalAttachments.
Variable fl : flavour.
Variables zim_dir obs_dir : path.
Variable pol : policy.
Hypothesis global_mode : use_global_attachments pol = true.

Local Abbreviation step := (map_entry fl zim_dir obs_dir pol).
Local Abbreviation run := (map_entries fl zim_dir obs_dir pol).
Local Abbreviation existing :=
  (fun m : maps => List.map (path_str fl) (values (file_map m))).

Lemma file_map_step m m' en :
  step m en = Some m' ->
  file_map m' = file_map m
  \/ exists r f v, en = (r, inr f)
                   /\ file_map m' = <[source_path zim_dir r f := v]> (file_map m).
Proof.
  destruct en as [r [d|f]]; simpl.
  - intros H. injection H as <-. now left.
  - unfold map_file. intros H.
    repeat match type of H with
           | (if ?b then _ else _) = _ => destruct b
           | match ?x with Some _ => _ | None => _ end = _ => destruct x
           end;
      try discriminate; injection H as <-; simpl; eauto 6.
Qed.

Lemma lookup_kept ens m m' K V :
  file_map m !! K = Some V ->
  run ens m = Some m' ->
  ~ In K (file_paths zim_dir ens) ->
  file_map m' !! K = Some V.
Proof.
  revert m. induction ens as [|en ens IH]; intros m HK; simpl.
  - intros H _. now injection H as <-.
  - destruct (step m en) as [m1|] eqn:E; [|discriminate].
    intros H Hn. apply (IH m1); [|exact H|].
    + destruct (file_map_step _ _ _ E) as [->|(r & f & v & -> & ->)];
        [exact HK|].
      rewrite lookup_insert_ne; [exact HK|].
      intros <-. apply Hn. simpl. now left.
    + intros Hin. apply Hn. apply in_or_app. now right.
Qed.

Lemma dom_grows ens m m' K :
  run ens m = Some m' ->
  is_Some (file_map m' !! K) ->
  is_Some (file_map m !! K) \/ In K (file_paths zim_dir ens).
Proof.
  revert m. induction ens as [|en ens IH]; intros m; simpl.
  - intros H. injection H as <-. now left.
  - destruct (step m en) as [m1|] eqn:E; [|discriminate].
    intros H HK. destruct (IH _ H HK) as [H1|H1].
    + destruct (file_map_step _ _ _ E) as [Hf|(r & f & v & -> & Hf)];
        rewrite Hf in H1; [now left|].
      destruct (decide (source_path zim_dir r f = K)) as [<-|Hne].
      * right. simpl. now left.
      * rewrite lookup_insert_ne in H1 by assumption. now left.
    + right. apply in_or_app. now right.
Qed.

Lemma In_values (d : gmap path path) v :
  In v (values d) <-> exists K, d !! K = Some v.
Proof.
  unfold values. split.
  - intros H. apply list_elem_of_In, list_elem_of_fmap in H as ([k x] & -> & Hk).
    apply elem_of_map_to_list in Hk. eauto.
  - intros (K & HK). apply list_elem_of_In, list_elem_of_fmap.
    exists (K, v). split; [reflexivity|]. now apply elem_of_map_to_list.
Qed.

(** Destinations handed out stay in use while the files met are new. *)
Lemma existing_kept ens m m' s :
  (forall K, is_Some (file_map m !! K) -> ~ In K (file_paths zim_dir ens)) ->
  run ens m = Some m' ->
  In s (existing m) -> In s (existing m').
Proof.
  intros Hnew Hrun Hs.
  apply in_map_iff in Hs as (v & <- & Hv).
  apply In_values in Hv as (K & HK).
  apply in_map. apply In_values. exists K.
  eapply lookup_kept; eauto.
Qed.

Lemma attachment_step relroot m m' f :
  is_attachment fl pol f = true ->
  map_file fl zim_dir obs_dir pol relroot m f = Some m' ->
  exists u,
    make_unique_string fl (existing m)
      (path_str fl (obs_dir ++ global_attachments_relative_path pol
                    ++ [fe_name f])%list) = Some u
    /\ file_map m' = <[source_path zim_dir relroot f := parse_path fl u]> (file_map m).
Proof.
  unfold is_attachment, is_page, map_file. intros Ha.
  apply andb_true_iff in Ha as [Hp Hi].
  apply negb_true_iff in Hp, Hi. rewrite Hp, Hi, global_mode.
  destruct (make_unique_string _ _ _) as [u|]; [|discriminate].
  intros H. injection H as <-. eauto.
Qed.

Lemma unique_candidate E r u :
  make_unique_string fl E r = Some u ->
  exists k, u = candidate fl r k
            /\ ~ In u E
            /\ forall i, i < k -> In (candidate fl r i) E.
Proof.
  unfold make_unique_string.
  destruct (make_unique_loop _ _ _ _ _) as [[r' t]|] eqn:H; [|discriminate].
  simpl. intros Hu. injection Hu as ->.
  destruct (loop_some _ _ _ _ _ _ _ H) as (k & _ & -> & _ & Hr & Hi).
  exists k. split; [reflexivity|]. split.
  - intros Hin. apply in_list_In in Hin. congruence.
  - intros i Hlt. apply in_list_In. now apply Hi.
Qed.

End GlobalAttachments.

(** *** The numbered names as paths *)

Lemma all_chars_app p a b :
  all_chars p (a ++ b) = all_chars p a && all_chars p b.
Proof.
  induction a as [|c a IH]; [reflexivity|].
  rewrite app_cons. simpl. now rewrite IH, andb_assoc.
Qed.

Lemma all_chars_impl (p q : ascii -> bool) s :
  (forall c, p c = true -> q c = true) ->
  all_chars p s = true -> all_chars q s = true.
Proof.
  intros Hpq. induction s as [|c s IH]; simpl; [reflexivity|].
  intros H. apply andb_true_iff in H as [Hc Hs].
  now rewrite (Hpq _ Hc), (IH Hs).
Qed.

Lemma rfind_if_sat p s i :
  rfind_if p s = Some i ->
  exists c rest, sdrop i s = String c rest /\ p c = true.
Proof.
  revert i. induction s as [|c s IH]; intros i; simpl; [discriminate|].
  destruct (rfind_if p s) as [j|].
  - intros H. injection H as <-. simpl. now apply IH.
  - destruct (p c) eqn:Hc; [|discriminate].
    intros H. injection H as <-. simpl. eauto.
Qed.

Lemma splitext_dot fl name :
  snd (splitext fl name) = ""
  \/ exists rest, snd (splitext fl name) = String "." rest.
Proof.
  unfold splitext. destruct (rfind_if is_dot name) as [i|] eqn:Ei; [|now left].
  destruct (Nat.ltb _ i && _); [|now left]. right. simpl.
  destruct (rfind_if_sat _ _ _ Ei) as (c & rest & -> & Hc).
  unfold is_dot in Hc. apply Ascii.eqb_eq in Hc. subst c. eauto.
Qed.

Lemma digit_not_sep fl c : is_digit c = true -> negb (is_sep fl c) = true.
Proof.
  unfold is_digit. intros H. apply andb_true_iff in H as [H1 H2].
  apply Nat.leb_le in H1, H2.
  assert (Hs : c <> "/"%char /\ c <> "\"%char).
  { split; intros ->; cbv in H1, H2; lia. }
  destruct Hs as [Hs1 Hs2].
  apply Ascii.eqb_neq in Hs1, Hs2.
  destruct fl; simpl; now rewrite ?Hs1, ?Hs2.
Qed.

Lemma numbered_prefix P stem ext k :
  numbered (P ++ stem) ext k = P ++ numbered stem ext k.
Proof. destruct k; simpl; now rewrite !app_assoc_s. Qed.

Lemma numbered_wf fl name k :
  part_wf fl name = true ->
  part_wf fl (numbered (fst (splitext fl name)) (snd (splitext fl name)) k) = true.
Proof.
  intros Hn. destruct k as [|k]; simpl numbered.
  - now rewrite splitext_app.
  - unfold part_wf in *. apply andb_true_iff in Hn as [_ Hf].
    rewrite <- (splitext_app fl name) in Hf.
    unfold sep_free in *. rewrite all_chars_app in Hf.
    apply andb_true_iff in Hf as [Hf1 Hf2].
    apply andb_true_iff. split.
    + unfold part_ok.
      destruct (fst (splitext fl name)) as [|c [|c' t]]; reflexivity || idtac.
      * rewrite !app_cons. simpl.
        destruct (Ascii.eqb c "."); reflexivity.
      * rewrite !app_cons. simpl.
        destruct (Ascii.eqb c "."); reflexivity.
    + rewrite !all_chars_app, Hf1, Hf2. simpl.
      rewrite (all_chars_impl is_digit); [now destruct fl| |].
      * apply digit_not_sep.
      * apply str_of_N_good.
Qed.

Section PlainName.
Variable fl : flavour.
Variable dir : path.
Variable name : string.
Hypothesis dir_wf : wf_dir fl dir = true.
Hypothesis name_wf : part_wf fl name = true.

Let cand : string := path_str fl (dir ++ [name])%list.
Let nstem : string := fst (splitext fl name).
Let next : string := snd (splitext fl name).

Hypothesis no_match : findall re_final_digits cand = [].
Hypothesis no_newline : all_chars dot cand = true.
Hypothesis long_ext : 2 <= String.length next.

Lemma name_nonempty : name <> "".
Proof. unfold part_wf, part_ok in name_wf. now destruct name. Qed.

Lemma name_sep_free : sep_free fl name = true.
Proof. unfold part_wf in name_wf. now apply andb_true_iff in name_wf as [_ ?]. Qed.

Lemma cand_prefix : cand = dir_prefix fl dir ++ name.
Proof. apply path_str_in_dir, name_nonempty. Qed.

Lemma cand_splitext :
  splitext fl cand = (dir_prefix fl dir ++ nstem, next).
Proof.
  rewrite cand_prefix. apply splitext_prefixed.
  - apply name_sep_free.
  - apply dir_prefix_index.
Qed.

Lemma next_good : good_ext next.
Proof.
  assert (Hd : all_chars dot next = true).
  { pose proof no_newline as H. rewrite cand_prefix in H.
    rewrite <- (splitext_app fl name), !all_chars_app in H.
    apply andb_true_iff in H as [_ H]. now apply andb_true_iff in H as [_ ?]. }
  unfold next in *.
  destruct (splitext_dot fl name) as [E|(rest & E)]; rewrite E in *.
  - simpl in long_ext. lia.
  - destruct rest as [|u0 u]; [simpl in long_ext; lia|].
    exists u0, u. split; [reflexivity|].
    simpl in Hd. exact Hd.
Qed.

(** Every proposed name is the directory's string and the numbered
    name, and reads back as that path. *)
Lemma candidate_path k :
  candidate fl cand k = path_str fl (dir ++ [numbered nstem next k])%list
  /\ parse_path fl (candidate fl cand k) = (dir ++ [numbered nstem next k])%list.
Proof.
  assert (Hc : candidate fl cand k
               = path_str fl (dir ++ [numbered nstem next k])%list).
  { rewrite candidate_numbered.
    - rewrite cand_splitext. simpl. rewrite numbered_prefix.
      symmetry. apply path_str_in_dir.
      pose proof (numbered_wf fl name k name_wf) as Hw.
      unfold part_wf, part_ok in Hw. fold nstem next in Hw.
      now destruct (numbered nstem next k).
    - now apply findall_nil_first.
    - rewrite cand_splitext. simpl.
      pose proof no_newline as H. rewrite cand_prefix in H.
      rewrite <- (splitext_app fl name), <- app_assoc_s, all_chars_app in H.
      now apply andb_true_iff in H as [? _].
    - rewrite cand_splitext. apply next_good. }
  split; [exact Hc|]. rewrite Hc.
  apply parse_path_str; [exact dir_wf|]. apply numbered_wf, name_wf.
Qed.

End PlainName.

Lemma file_paths_app zim_dir ens1 ens2 :
  file_paths zim_dir (ens1 ++ ens2)
  = (file_paths zim_dir ens1 ++ file_paths zim_dir ens2)%list.
Proof. apply flat_map_app. Qed.

(** C3, as the code has it.  Under global-attachment mode, when the walk
    lists no file twice, two attachments of the same name are given the
    destinations [name.ext], [name 1.ext], [name 2.ext], ... in the
    attachment directory (for a candidate path the pattern of the
    allocator does not match, with an extension of at least one
    character and no newline), and the attachment the walk reaches
    later gets the larger number.  The order is the order of the walk;
    the mapper sorts nothing. *)
Theorem global_attachment_numbering fl zim_dir obs_dir pol walk
    pre ra fa mid rb fb post name :
  let dir := (obs_dir ++ global_attachments_relative_path pol)%list in
  let cand := path_str fl (dir ++ [name])%list in
  let nstem := fst (splitext fl name) in
  let next := snd (splitext fl name) in
  use_global_attachments pol = true ->
  NoDup (file_paths zim_dir (entries walk)) ->
  wf_dir fl dir = true ->
  part_wf fl name = true ->
  findall re_final_digits cand = [] ->
  all_chars dot cand = true ->
  2 <= String.length next ->
  entries walk = (pre ++ (ra, inr fa) :: mid ++ (rb, inr fb) :: post)%list ->
  fe_name fa = name -> fe_name fb = name ->
  is_attachment fl pol fa = true -> is_attachment fl pol fb = true ->
  exists m i j,
    map_zim_dir_to_obsidian_dir fl zim_dir obs_dir pol walk = Some m
    /\ i < j
    /\ file_map m !! source_path zim_dir ra fa
       = Some (dir ++ [numbered nstem next i])%list
    /\ file_map m !! source_path zim_dir rb fb
       = Some (dir ++ [numbered nstem next j])%list.
Proof.
  intros dir cand nstem next Hg Hnd Hdir Hname Hno Hnl Hext Hens Hna Hnb Haa Hab.
  destruct (map_zim_dir_total fl zim_dir obs_dir pol walk) as (m & Hm).
  exists m. unfold map_zim_dir_to_obsidian_dir in *.
  rewrite Hm. rewrite map_walk_entries, Hens in Hm.
  rewrite Hens, !file_paths_app in Hnd. simpl in Hnd.
  rewrite file_paths_app in Hnd. simpl in Hnd.
  set (Ka := source_path zim_dir ra fa) in *.
  set (Kb := source_path zim_dir rb fb) in *.
  set (P := file_paths zim_dir pre) in *.
  set (M := file_paths zim_dir mid) in *.
  set (Q := file_paths zim_dir post) in *.
  apply NoDup_app in Hnd as (_ & HP & Hnd).
  apply NoDup_cons in Hnd as (Ha & Hnd).
  apply NoDup_app in Hnd as (_ & HM & Hnd).
  apply NoDup_cons in Hnd as (Hb & _).
  assert (HaM : ~ In Ka M).
  { intros H. apply Ha. apply list_elem_of_In. apply in_or_app. now left. }
  assert (Hab' : Ka <> Kb).
  { intros E. apply Ha. apply list_elem_of_In. apply in_or_app. right.
    rewrite E. now left. }
  assert (HaQ : ~ In Ka Q).
  { intros H. apply Ha. apply list_elem_of_In. apply in_or_app. right. now right. }
  assert (HbQ : ~ In Kb Q) by (intros H; apply Hb; now apply list_elem_of_In).
  assert (HPa : forall K, In K P -> K <> Ka /\ ~ In K M /\ K <> Kb).
  { intros K HK. apply list_elem_of_In in HK. specialize (HP K HK).
    repeat split.
    - intros ->. apply HP. left.
    - intros H. apply HP. right. apply list_elem_of_In, in_or_app. now left.
    - intros ->. apply HP. right. apply list_elem_of_In, in_or_app. right. now left. }
  pose proof (candidate_path fl dir name Hdir Hname Hno Hnl Hext) as Hcp.
  fold cand nstem next in Hcp.
  (* the entries before the first attachment *)
  rewrite map_entries_app in Hm.
  destruct (map_entries fl zim_dir obs_dir pol pre empty_maps) as [m1|] eqn:E1;
    [|discriminate].
  assert (Hdom1 : forall K, is_Some (file_map m1 !! K) -> In K P).
  { intros K HK. destruct (dom_grows _ _ _ _ Hg _ _ _ _ E1 HK) as [H|H]; [|exact H].
    simpl in H. rewrite lookup_empty in H. now destruct H. }
  (* the first attachment *)
  simpl in Hm.
  destruct (map_file fl zim_dir obs_dir pol ra m1 fa) as [m2|] eqn:E2;
    [|discriminate].
  destruct (attachment_step fl zim_dir obs_dir pol Hg _ _ _ _ Haa E2)
    as (ua & Hua & Hf2).
  rewrite Hna, app_assoc in Hua. fold dir cand in Hua.
  destruct (unique_candidate _ _ _ _ Hua) as (i & -> & _ & Hi).
  destruct (Hcp i) as [Hs_i Hp_i]. rewrite Hp_i in Hf2.
  assert (H2a : file_map m2 !! Ka = Some (dir ++ [numbered nstem next i])%list)
    by (rewrite Hf2; apply lookup_insert_eq).
  assert (Hex2 : forall k, k <= i ->
            In (candidate fl cand k)
               (List.map (path_str fl) (values (file_map m2)))).
  { intros k Hk. destruct (Nat.eq_dec k i) as [->|Hne].
    - rewrite Hs_i. apply in_map, In_values. eauto.
    - assert (Hlt : k < i) by lia.
      specialize (Hi k Hlt). apply in_map_iff in Hi as (v & <- & Hv).
      apply In_values in Hv as (K & HK).
      apply in_map, In_values. exists K. rewrite Hf2.
      rewrite lookup_insert_ne; [exact HK|].
      intros <-. destruct (HPa Ka) as [Hc _]; [|congruence].
      apply Hdom1. eauto. }
  assert (Hdom2 : forall K, is_Some (file_map m2 !! K) -> ~ In K M /\ K <> Kb).
  { intros K HK. rewrite Hf2 in HK.
    destruct (decide (Ka = K)) as [<-|Hne]; [now split|].
    rewrite lookup_insert_ne in HK by assumption.
    destruct (HPa K (Hdom1 K HK)) as (_ & ? & ?). now split. }
  (* the entries between the two *)
  rewrite map_entries_app in Hm.
  destruct (map_entries fl zim_dir obs_dir pol mid m2) as [m3|] eqn:E3;
    [|discriminate].
  assert (Hex3 : forall k, k <= i ->
            In (candidate fl cand k)
               (List.map (path_str fl) (values (file_map m3)))).
  { intros k Hk. eapply (existing_kept _ _ _ _ Hg); [|exact E3|now apply Hex2].
    intros K HK. now apply Hdom2. }
  pose proof (lookup_kept _ _ _ _ Hg _ _ _ _ _ H2a E3 HaM) as H3a.
  (* the second attachment *)
  simpl in Hm.
  destruct (map_file fl zim_dir obs_dir pol rb m3 fb) as [m4|] eqn:E4;
    [|discriminate].
  destruct (attachment_step fl zim_dir obs_dir pol Hg _ _ _ _ Hab E4)
    as (ub & Hub & Hf4).
  rewrite Hnb, app_assoc in Hub. fold dir cand in Hub.
  destruct (unique_candidate _ _ _ _ Hub) as (j & -> & Hfresh & _).
  destruct (Hcp j) as [Hs_j Hp_j]. rewrite Hp_j in Hf4.
  assert (Hij : i < j).
  { destruct (Nat.lt_ge_cases i j) as [H|H]; [exact H|].
    exfalso. apply Hfresh. now apply Hex3. }
  assert (H4b : file_map m4 !! Kb = Some (dir ++ [numbered nstem next j])%list)
    by (rewrite Hf4; apply lookup_insert_eq).
  assert (H4a : file_map m4 !! Ka = Some (dir ++ [numbered nstem next i])%list).
  { rewrite Hf4, lookup_insert_ne; [exact H3a|]. intros E. now apply Hab'. }
  (* the entries after *)
  exists i, j. split; [reflexivity|]. split; [exact Hij|]. split.
  - eapply lookup_kept; eauto.
  - eapply lookup_kept; eauto.
Qed.

(** *** [str.replace] *)

Lemma startswith_nil s : startswith s "" = true.
Proof. now destruct s. Qed.

Lemma replace_char a b s :
  replace (String a "") (String b "") s
  = map_char (fun c => if Ascii.eqb a c then b else c) s.
Proof.
  unfold replace. induction s as [|c s IH]; [reflexivity|].
  simpl. rewrite startswith_nil, andb_true_r, app_cons, app_nil_l_s, IH.
  now destruct (Ascii.eqb a c).
Qed.

Lemma length_map_char f s : String.length (map_char f s) = String.length s.
Proof. induction s as [|c s IH]; simpl; [reflexivity|now rewrite IH]. Qed.

Lemma map_char_app f a b : map_char f (a ++ b) = map_char f a ++ map_char f b.
Proof.
  induction a as [|c a IH]; [reflexivity|].
  rewrite app_cons. simpl. now rewrite IH.
Qed.

Lemma replace_char_absent a b s :
  has_char a s = false -> replace (String a "") (String b "") s = s.
Proof.
  rewrite replace_char. induction s as [|c s IH]; simpl; [reflexivity|].
  intros H. apply orb_false_iff in H as [Hc Hs].
  rewrite Ascii.eqb_sym, Hc, (IH Hs). reflexivity.
Qed.

Lemma has_char_replaced a b s :
  a <> b -> has_char a (replace (String a "") (String b "") s) = false.
Proof.
  intros Hab. rewrite replace_char.
  induction s as [|c s IH]; simpl; [reflexivity|].
  rewrite IH, orb_false_r.
  destruct (Ascii.eqb_spec a c) as [->|Hne].
  - apply Ascii.eqb_neq. congruence.
  - apply Ascii.eqb_neq. congruence.
Qed.

Lemma has_char_map_keep x f s :
  (forall c, Ascii.eqb (f c) x = true -> Ascii.eqb c x = true) ->
  has_char x s = false -> has_char x (map_char f s) = false.
Proof.
  intros Hf. induction s as [|c s IH]; simpl; [reflexivity|].
  intros H. apply orb_false_iff in H as [Hc Hs]. rewrite (IH Hs), orb_false_r.
  destruct (Ascii.eqb (f c) x) eqn:E; [|reflexivity].
  apply Hf in E. congruence.
Qed.




Lemma eqb_length_neq a b :
  String.length a <> String.length b -> String.eqb a b = false.
Proof. intros H. apply String.eqb_neq. intros ->. now apply H. Qed.

(** *** The monad *)

Lemma bind_ret {A B} (a : A) (k : A -> M B) : bind (ret a) k = k a.
Proof. unfold bind, ret. now destruct (k a). Qed.

Lemma bind_raise {A B} (x : exn) (k : A -> M B) : bind (raise x) k = raise x.
Proof. reflexivity. Qed.

(** *** Lookups in the page mapping *)

Lemma in_notes_returns e target :
  with_suffix (joinpath (fl e) (zim_dir e) target) ".txt" <> None ->
  exists b, in_notes e target = ret b.
Proof.
  unfold in_notes. destruct (with_suffix _ _) as [p|]; [|congruence].
  intros _. simpl or_raise. rewrite bind_ret. eauto.
Qed.

Lemma link_underscore_same e target :
  has_char " " target = false ->
  (exists b, in_notes e target = ret b) ->
  link_underscore e target = ret target.
Proof.
  intros Hs (b & Hb). unfold link_underscore.
  rewrite (replace_char_absent " " "_") by assumption.
  rewrite Hb. rewrite bind_ret. destruct b; [reflexivity|].
  rewrite bind_ret. reflexivity.
Qed.

(** A target found in the page mapping neither
    as it is nor with underscores for spaces is kept as it is, and
    nothing is printed. *)
Lemma link_underscore_unresolved e target :
  in_notes e target = ret false ->
  in_notes e (replace " " "_" target) = ret false ->
  link_underscore e target = ret target.
Proof.
  intros H1 H2. unfold link_underscore.
  rewrite H1, bind_ret, H2, bind_ret. reflexivity.
Qed.

(** Link resolution prints nothing. *)
Lemma bind_silent {A B} (c : M A) (k : A -> M B) :
  fst c = [] -> (forall a, fst (k a) = []) -> fst (bind c k) = [].
Proof.
  destruct c as [log [x|a]]; simpl; intros -> Hk; [reflexivity|].
  specialize (Hk a). destruct (k a) as [log' r]. simpl in *. now subst.
Qed.

Lemma or_raise_silent {A} x (o : option A) : fst (or_raise x o) = [].
Proof. now destruct o. Qed.

Lemma getitem_silent {V} (d : gmap path V) k : fst (getitem d k) = [].
Proof. unfold getitem. now destruct (d !! k). Qed.

Lemma in_notes_silent e target : fst (in_notes e target) = [].
Proof.
  unfold in_notes. apply bind_silent; [apply or_raise_silent|reflexivity].
Qed.

Lemma link_step_silent e line m : fst (link_step e line m) = [].
Proof.
  unfold link_step, link_target.
  apply bind_silent.
  - apply bind_silent.
    + unfold link_split, split2.
      destruct (has_char "|" _); [|reflexivity].
      destruct (split_on _ _) as [|a [|b [|c l]]]; reflexivity.
    + intros td. destruct (link_wikipedia td) as [target display].
      apply bind_silent; [|now intros [[? ?] ?]].
      unfold link_prefix.
      destruct (startswith target "http"); [reflexivity|].
      destruct (startswith target "file:///").
      { now destruct (relative_to _ _). }
      destruct (startswith target "./" || startswith target ".\"); [|reflexivity].
      apply bind_silent; [apply getitem_silent|]. intros p.
      apply bind_silent; [apply or_raise_silent|reflexivity].
  - intros [[target display] absolute].
    apply bind_silent; [|reflexivity].
    unfold link_underscore. apply bind_silent; [apply in_notes_silent|].
    intros [|]; [reflexivity|].
    apply bind_silent; [apply in_notes_silent|reflexivity].
Qed.

(** C7, as the code has it.  When the normalized target of a link is in
    the page mapping neither as it is (with the page extension) nor with
    underscores for spaces, link resolution prints no warning and still
    rewrites the token: from the target in its original form, as a
    labelled link when the label differs from the target or the link is
    absolute, and as a bare reference otherwise. *)
Theorem unresolved_link_rewritten e line m target display absolute :
  link_target e line (group 2 m) = ret (target, display, absolute) ->
  in_notes e target = ret false ->
  in_notes e (replace " " "_" target) = ret false ->
  link_step e line m
  = ret (replace_first (group 1 m)
           (link_text (replace "\" "/" target) display absolute) line).
Proof.
  intros Ht H1 H2. unfold link_step.
  rewrite Ht, bind_ret, (link_underscore_unresolved _ _ H1 H2), bind_ret.
  reflexivity.
Qed.

Lemma has_char_app c a b : has_char c (a ++ b) = has_char c a || has_char c b.
Proof.
  induction a as [|x a IH]; [reflexivity|].
  rewrite app_cons. simpl. now rewrite IH, orb_assoc.
Qed.

Lemma no_space_slashed s :
  has_char " " s = false -> has_char " " (replace "\" "/" s) = false.
Proof.
  intros H. rewrite replace_char. apply has_char_map_keep; [|exact H].
  intros c. destruct (Ascii.eqb "\" c); [discriminate|trivial].
Qed.

Lemma length_replace_char a b s :
  String.length (replace (String a "") (String b "") s) = String.length s.
Proof. rewrite replace_char. apply length_map_char. Qed.

(** C5, as the code has it.  A link [[+Sub]] in a page whose namespace
    path is [Parent] has its target rewritten to [Parent:Sub], with [/]
    for the separators, and is rendered as a labelled link whose label
    is the text of the token, [+Sub]: the label differs from the
    resolved target.  (Stated for a namespace path that is not empty and
    does not start with a colon, a target without space, no folder-note
    redirection, and a page lookup that does not raise.) *)
Theorem sub_page_link_labelled e line m sub :
  let target := replace ":" "\" (page_path e ++ ":" ++ sub) in
  group 2 m = "+" ++ sub ->
  has_char "|" sub = false ->
  page_path e <> "" ->
  startswith (page_path e) ":" = false ->
  folder_notes e && is_dir e (joinpath (fl e) (zim_dir e) target) = false ->
  has_char " " target = false ->
  with_suffix (joinpath (fl e) (zim_dir e) target) ".txt" <> None ->
  link_step e line m
  = ret (replace_first (group 1 m)
           ("[+" ++ sub ++ "](" ++ replace "\" "/" target ++ ")") line).
Proof.
  intros target Hm Hbar Hne Hcolon Hdir Hsp Hsuf.
  unfold link_step, link_target. rewrite Hm.
  change ("+" ++ sub) with (String "+" sub).
  assert (Hsplit : link_split (String "+" sub)
                   = ret (String "+" sub, String "+" sub)).
  { unfold link_split. simpl has_char. now rewrite Hbar. }
  rewrite Hsplit, bind_ret.
  change (link_wikipedia (String "+" sub, String "+" sub))
    with (String "+" sub, String "+" sub).
  cbv beta iota.
  assert (Hpre : link_prefix e line (String "+" sub) (String "+" sub)
                 = ret (target, String "+" sub, false)).
  { unfold link_prefix.
    change (startswith (String "+" sub) "http") with false.
    change (startswith (String "+" sub) "file:///") with false.
    change (startswith (String "+" sub) "./") with false.
    change (startswith (String "+" sub) ".\") with false.
    cbv iota. simpl orb. cbv iota.
    replace (startswith (String "+" sub) "+") with true
      by (simpl; now rewrite startswith_nil).
    simpl sdrop.
    destruct (page_path e) as [|c pp] eqn:Epp; [congruence|].
    rewrite app_cons.
    assert (Hc : startswith (String c (pp ++ ":" ++ sub)) ":" = false).
    { simpl in Hcolon |- *. rewrite startswith_nil in *.
      now rewrite andb_true_r in *. }
    rewrite Hc. subst target. now rewrite app_cons. }
  rewrite Hpre, bind_ret, bind_ret.
  unfold link_folder_note. fold target. rewrite Hdir.
  rewrite link_underscore_same, bind_ret;
    [|exact Hsp|now apply in_notes_returns].
  unfold link_text.
  rewrite (no_space_slashed _ Hsp).
  rewrite eqb_length_neq.
  - reflexivity.
  - rewrite length_replace_char. subst target.
    rewrite length_replace_char, length_app.
    change (":" ++ sub) with (String ":" sub).
    destruct (page_path e); [congruence|]. simpl. lia.
Qed.

(** *** Encyclopedia shortcuts *)

Lemma split_on_absent c s :
  has_char c s = false -> split_on (ch c) s = [s].
Proof.
  induction s as [|x s IH]; simpl; [reflexivity|]. intros H.
  apply orb_false_iff in H as [Hx Hs]. unfold ch at 1. now rewrite Hx, (IH Hs).
Qed.

Lemma split_on_two c a b :
  has_char c a = false -> has_char c b = false ->
  split_on (ch c) (a ++ String c b) = [a; b].
Proof.
  intros Ha Hb. induction a as [|x a IH].
  - rewrite app_nil_l_s. simpl. unfold ch at 1. rewrite Ascii.eqb_refl.
    now rewrite split_on_absent.
  - simpl in Ha. apply orb_false_iff in Ha as [Hx Ha].
    rewrite app_cons. simpl. unfold ch at 1. now rewrite Hx, (IH Ha).
Qed.


Lemma with_suffix_last (p : path) suf :
  p <> [] -> List.last p "" <> "" -> with_suffix p suf <> None.
Proof.
  intros Hp Hl. destruct (exists_last Hp) as (q & n & ->).
  rewrite last_last in Hl. now rewrite with_suffix_snoc.
Qed.


Lemma last_app_nonempty (p q : path) :
  q <> [] -> List.last (p ++ q)%list "" = List.last q "".
Proof.
  intros Hq. destruct (exists_last Hq) as (q' & n & ->).
  now rewrite app_assoc, !last_last.
Qed.




Lemma map_char_url f :
  (forall c, has_char c wikipedia_url = true -> f c = c) ->
  map_char f wikipedia_url = wikipedia_url.
Proof.
  intros H. unfold wikipedia_url. simpl.
  repeat (rewrite H by (simpl; rewrite ?Ascii.eqb_refl, ?orb_true_r; reflexivity)).
  reflexivity.
Qed.



(** *** Lines without wiki syntax *)

Lemma sub_no_match r tmpl s : matches r s = false -> sub r tmpl s = s.
Proof.
  unfold matches, sub, search. simpl.
  destruct (search_from r 0 s); [discriminate|reflexivity].
Qed.

Lemma sub_count_no_match r tmpl s n :
  matches r s = false -> sub_count r tmpl s n = s.
Proof.
  unfold matches, sub_count, search. intros H. simpl.
  destruct n; [reflexivity|].
  destruct (search_from r 0 s); [discriminate|reflexivity].
Qed.

Lemma findall_no_match r s : matches r s = false -> findall r s = [].
Proof.
  unfold matches, findall, search. simpl.
  destruct (search_from r 0 s); [discriminate|reflexivity].
Qed.

Lemma apply_rewrites_no_match steps line :
  forallb (fun step : rewrite => negb (matches (fst step) line)) steps = true ->
  apply_rewrites steps line = line.
Proof.
  unfold apply_rewrites. induction steps as [|step steps IH]; simpl;
    [reflexivity|].
  intros H. apply andb_true_iff in H as [H1 H2]. apply negb_true_iff in H1.
  rewrite (sub_no_match _ _ _ H1). now apply IH.
Qed.

Lemma apply_rewrites_once_no_match steps line :
  forallb (fun step : rewrite => negb (matches (fst step) line)) steps = true ->
  apply_rewrites_once steps line = line.
Proof.
  unfold apply_rewrites_once. induction steps as [|step steps IH]; simpl;
    [reflexivity|].
  intros H. apply andb_true_iff in H as [H1 H2]. apply negb_true_iff in H1.
  rewrite (sub_count_no_match _ _ _ _ H1). now apply IH.
Qed.

(** C9, as the code has it.  A line on which none of the patterns of the
    transformation matches is returned unchanged, and nothing is
    printed.  (The transformation is not idempotent on its own output:
    a highlight it writes is a heading when read again.) *)
Theorem translate_line_fixed e line :
  no_wiki_syntax e line = true -> translate_line e line = ret line.
Proof.
  unfold no_wiki_syntax. intros H.
  apply andb_true_iff in H as [H He]. apply andb_true_iff in H as [H Hl].
  rewrite !forallb_app in H.
  apply andb_true_iff in H as [Hh H]. apply andb_true_iff in H as [Hd H].
  apply andb_true_iff in H as [Hli Hi].
  apply negb_true_iff in Hl, He.
  unfold translate_line.
  rewrite (apply_rewrites_no_match _ _ Hh), (apply_rewrites_no_match _ _ Hd).
  rewrite (findall_no_match _ _ Hl). simpl foldM. rewrite bind_ret.
  rewrite (findall_no_match _ _ He). simpl foldM. rewrite bind_ret.
  rewrite (apply_rewrites_once_no_match _ _ Hli).
  now rewrite (apply_rewrites_no_match _ _ Hi).
Qed.

(** *** Code fences *)

Lemma fence_scan_Some rest j0 j :
  fence_scan rest j0 = Some j ->
  j0 <= j
  /\ exists t, rest !! (j - j0) = Some t /\ startswith t "}}}" = true.
Proof.
  revert j0. induction rest as [|x rest IH]; intros j0; simpl; [discriminate|].
  destruct (startswith x "}}}") eqn:E.
  - intros H. injection H as <-. split; [lia|].
    rewrite Nat.sub_diag. eauto.
  - intros H. apply IH in H as (Hle & t & Ht & Hs). split; [lia|].
    exists t. split; [|exact Hs].
    replace (j - j0) with (S (j - S j0)) by lia. exact Ht.
Qed.

Lemma opener_not_terminator line :
  startswith line "{{{code:" = true -> startswith line "}}}" = false.
Proof.
  destruct line as [|c line]; [discriminate|].
  change (startswith (String c line) "{{{code:")
    with (Ascii.eqb "{" c && startswith line "{{code:").
  change (startswith (String c line) "}}}")
    with (Ascii.eqb "}" c && startswith line "}}").
  destruct (Ascii.eqb_spec "{" c) as [E|]; [|discriminate].
  subst c. reflexivity.
Qed.

Lemma fence_open_not_terminator line :
  startswith (fence_open line) "}}}" = false.
Proof. reflexivity. Qed.

Lemma translate_loop_unfold e fuel lines i :
  translate_loop e (S fuel) lines i
  = if (i <? Z.of_nat (List.length lines) - 1)%Z then
      let i := (i + 1)%Z in
      match lines !! Z.to_nat i with
      | None => Some (raise IndexError)
      | Some line =>
          if startswith line "{{{code:" then
            let lines := set_line (Z.to_nat i) (fence_open line) lines in
            match fence_scan (skipn (Z.to_nat i) lines) 0 with
            | None => Some (raise IndexError)
            | Some j =>
                let lines := set_line (Z.to_nat i + j) ("```" ++ nl) lines in
                translate_loop e fuel lines (i + Z.of_nat j + 1)%Z
            end
          else
            match translate_line e line with
            | (log, inl err) =>
                Some ((log ++ [ErrorInFile (old_filepath e) line])%list, inl err)
            | (log, inr line') =>
                match translate_loop e fuel (set_line (Z.to_nat i) line' lines) i with
                | Some (log', r) => Some ((log ++ log')%list, r)
                | None => None
                end
            end
      end
    else Some (ret lines).
Proof. reflexivity. Qed.

(** An opener the pass reaches, without a terminator after it, ends the
    pass with an exception.  The pass reaches every line but those that
    directly follow a terminator, so the opener is taken not to follow
    one. *)
Lemma unterminated_fence_from e fuel : forall lines p k,
  p <= k -> k - p < fuel ->
  (exists line, lines !! k = Some line /\ startswith line "{{{code:" = true) ->
  (forall j line, k < j -> lines !! j = Some line ->
                  startswith line "}}}" = false) ->
  (p < k -> exists line, lines !! (k - 1) = Some line
                         /\ startswith line "}}}" = false) ->
  exists log err,
    translate_loop e fuel lines (Z.of_nat p - 1) = Some (log, inl err).
Proof.
  induction fuel as [|fuel IH]; intros lines p k Hpk Hfuel Hopen Hafter Hprev;
    [lia|].
  destruct Hopen as (opener & Hk & Hop).
  pose proof (lookup_lt_Some _ _ _ Hk) as Hlen.
  rewrite translate_loop_unfold.
  replace (Z.of_nat p - 1 <? Z.of_nat (List.length lines) - 1)%Z with true
    by (symmetry; apply Z.ltb_lt; lia).
  cbv zeta.
  replace (Z.of_nat p - 1 + 1)%Z with (Z.of_nat p) by lia.
  rewrite Nat2Z.id.
  destruct (lines !! p) as [line|] eqn:Hp; [|now eauto].
  destruct (startswith line "{{{code:") eqn:Eline.
  - unfold set_line.
    destruct (fence_scan _ 0) as [j|] eqn:Escan; [|unfold raise; eauto].
    apply fence_scan_Some in Escan as (_ & t & Ht & Hterm).
    rewrite Nat.sub_0_r, lookup_drop in Ht.
    assert (Hj : j <> 0).
    { intros ->. rewrite Nat.add_0_r, list_lookup_insert_eq in Ht
        by (apply lookup_lt_Some in Hp; lia).
      injection Ht as <-. now rewrite fence_open_not_terminator in Hterm. }
    rewrite list_lookup_insert_ne in Ht by lia.
    assert (Hlt : p + j < k).
    { destruct (Nat.lt_trichotomy (p + j) k) as [H|[H|H]]; [exact H| |].
      - rewrite H, Hk in Ht. injection Ht as <-.
        rewrite (opener_not_terminator _ Hop) in Hterm. discriminate.
      - rewrite (Hafter _ _ H Ht) in Hterm. discriminate. }
    destruct (Hprev ltac:(lia)) as (prev & Hprev1 & Hprev2).
    assert (Hne : p + j <> k - 1).
    { intros E. rewrite E, Hprev1 in Ht. injection Ht as <-. congruence. }
    replace (Z.of_nat p + Z.of_nat j + 1)%Z with (Z.of_nat (p + j + 2) - 1)%Z
      by lia.
    apply (IH _ (p + j + 2) k); try lia.
    + exists opener. split; [|exact Hop].
      rewrite !list_lookup_insert_ne by lia. exact Hk.
    + intros j' l Hj' Hl. rewrite !list_lookup_insert_ne in Hl by lia. eauto.
    + intros Hlt'. exists prev. split; [|exact Hprev2].
      rewrite !list_lookup_insert_ne by lia. exact Hprev1.
  - assert (Hpk' : p < k).
    { destruct (Nat.eq_dec p k) as [->|]; [|lia]. congruence. }
    destruct (translate_line e line) as [log [err|line']]; [eauto|].
    replace (Z.of_nat p) with (Z.of_nat (p + 1) - 1)%Z by lia.
    unfold set_line.
    destruct (IH (<[p := line']> lines) (p + 1) k) as (log' & err & ->);
      try lia; eauto.
    + exists opener. split; [|exact Hop].
      rewrite list_lookup_insert_ne by lia. exact Hk.
    + intros j' l Hj' Hl. rewrite list_lookup_insert_ne in Hl by lia. eauto.
    + intros Hlt'. destruct (Hprev Hpk') as (prev & Hprev1 & Hprev2).
      exists prev. split; [|exact Hprev2].
      rewrite list_lookup_insert_ne by lia. exact Hprev1.
Qed.

(** X13.  The pass of [translate_file] over the lines of a page, from its
    first line. *)
Lemma unterminated_fence_raises e lines k opener :
  lines !! k = Some opener -> startswith opener "{{{code:" = true ->
  (forall j line, k < j -> lines !! j = Some line ->
                  startswith line "}}}" = false) ->
  (0 < k -> exists line, lines !! (k - 1) = Some line
                         /\ startswith line "}}}" = false) ->
  exists log err,
    translate_loop e (S (List.length lines)) lines (-1) = Some (log, inl err).
Proof.
  intros Hk Hop Hafter Hprev.
  pose proof (lookup_lt_Some _ _ _ Hk) as Hlen.
  apply (unterminated_fence_from e (S (List.length lines)) lines 0 k);
    eauto; lia.
Qed.

Lemma sub_page_link_not_bare :
  translate_line (demo_env ["Parent.txt"] ∅ ∅) "[[+Sub]]"
  = ret "[+Sub](Parent/Sub)"
  /\ translate_line (demo_env ["Parent.txt"] ∅ ∅) "[[+Sub]]"
     <> ret "[[Parent/Sub]]".
Proof. split; [vm_compute; reflexivity|vm_compute; discriminate]. Qed.

Lemma sub_page_link_labelled_witness :
  link_step (demo_env ["Parent.txt"] ∅ ∅) "[[+Sub]]"
    [(1, "[[+Sub]]"); (2, "+Sub")]
  = ret "[+Sub](Parent/Sub)".
Proof.
  apply (sub_page_link_labelled (demo_env ["Parent.txt"] ∅ ∅) "[[+Sub]]"
           [(1, "[[+Sub]]"); (2, "+Sub")] "Sub");
    vm_compute; (reflexivity || discriminate).
Defined.

Lemma unresolved_link_is_rewritten :
  in_notes (demo_env ["Parent.txt"] ∅ ∅) "a\b" = ret false
  /\ in_notes (demo_env ["Parent.txt"] ∅ ∅) (replace " " "_" "a\b") = ret false
  /\ translate_line (demo_env ["Parent.txt"] ∅ ∅) "[[a:b]]"
     = ([], inr "[a:b](a/b)")
  /\ ~ (exists log, log <> []
          /\ translate_line (demo_env ["Parent.txt"] ∅ ∅) "[[a:b]]"
             = (log, inr "[[a:b]]")).
Proof.
  repeat split; try (vm_compute; reflexivity).
  intros (log & _ & H). vm_compute in H. discriminate H.
Qed.

Lemma unresolved_link_rewritten_witness :
  link_step (demo_env ["Parent.txt"] ∅ ∅) "[[a:b]]"
    [(1, "[[a:b]]"); (2, "a:b")]
  = ret "[a:b](a/b)".
Proof.
  apply (unresolved_link_rewritten (demo_env ["Parent.txt"] ∅ ∅) "[[a:b]]"
           [(1, "[[a:b]]"); (2, "a:b")] "a\b" "a:b" false);
    vm_compute; reflexivity.
Defined.



Lemma highlight_read_as_heading :
  translate_line (demo_env ["Parent.txt"] ∅ ∅) "__x__" = ret "==x=="
  /\ translate_line (demo_env ["Parent.txt"] ∅ ∅) "==x==" = ret "#####x"
  /\ translate_line (demo_env ["Parent.txt"] ∅ ∅) "==x==" <> ret "==x==".
Proof.
  repeat split; try (vm_compute; reflexivity). vm_compute. discriminate.
Qed.

Lemma translate_line_fixed_witness :
  translate_line (demo_env ["Parent.txt"] ∅ ∅) "plain text, nothing special"
  = ret "plain text, nothing special".
Proof.
  apply (translate_line_fixed (demo_env ["Parent.txt"] ∅ ∅)
           "plain text, nothing special").
  vm_compute. reflexivity.
Defined.

(** C6.  On the page [My_Page], whose attachment [My_Page/doc.pdf] is in
    the attachment mapping, the embed of [./doc.pdf] resolves and the
    link to [./doc.pdf] raises [KeyError]: the link looks the attachment
    up under the page's title path, [My Page], the embed under the
    page's own path. *)
Theorem relative_dot_link_misses_attachment :
  files my_page_env !! [""; "zim"; "My_Page"; "doc.pdf"]
  = Some [""; "obs"; "attachments"; "doc.pdf"]
  /\ translate_line my_page_env "{{./doc.pdf}}" = ret "![[doc.pdf]]"
  /\ translate_line my_page_env "[[./doc.pdf]]" = raise KeyError.
Proof. repeat split; vm_compute; reflexivity. Qed.

(** C10.  On a page whose second code block follows the terminator of
    the first directly and has no terminator, [translate_file] returns
    normally: the line after a terminator is never looked at, so the
    opener stays as it is. *)
Theorem fence_after_fence_skipped :
  translate_file (demo_env ["Parent.txt"] ∅ ∅) two_fences
  = Some (ret [ "```python" ++ nl;
                "print(1)" ++ nl;
                "```" ++ nl;
                "{{{code: lang=" ++ dquote ++ "sh" ++ dquote ++ " linenumbers="
                  ++ dquote ++ "True" ++ dquote ++ nl;
                "echo 1" ++ nl ]).
Proof. vm_compute. reflexivity. Qed.

Lemma walk_order_not_sorted :
  exists m,
    map_zim_dir_to_obsidian_dir Posix [""; "zim"] [""; "obs"] demo_policy demo_walk
    = Some m
    /\ String.ltb (path_str Posix [""; "zim"; "a"; "x.png"])
                  (path_str Posix [""; "zim"; "x.png"]) = true
    /\ file_map m !! [""; "zim"; "a"; "x.png"]
       = Some [""; "obs"; "attachments"; "x 1.png"]
    /\ file_map m !! [""; "zim"; "x.png"]
       = Some [""; "obs"; "attachments"; "x.png"].
Proof.
  destruct (map_zim_dir_to_obsidian_dir Posix [""; "zim"] [""; "obs"]
              demo_policy demo_walk) as [m|] eqn:E.
  - exists m. split; [reflexivity|]. split; [vm_compute; reflexivity|].
    assert (H : option_map (fun m => (file_map m !! [""; "zim"; "a"; "x.png"],
                                      file_map m !! [""; "zim"; "x.png"]))
                  (map_zim_dir_to_obsidian_dir Posix [""; "zim"] [""; "obs"]
                     demo_policy demo_walk)
                = Some (Some [""; "obs"; "attachments"; "x 1.png"],
                        Some [""; "obs"; "attachments"; "x.png"]))
      by (vm_compute; reflexivity).
    rewrite E in H. simpl in H. injection H as H1 H2. now split.
  - exfalso. vm_compute in E. discriminate E.
Qed.

Lemma global_attachment_numbering_witness :
  exists m i j,
    map_zim_dir_to_obsidian_dir Posix [""; "zim"] [""; "obs"] demo_policy demo_walk
    = Some m
    /\ i < j
    /\ file_map m !! [""; "zim"; "x.png"]
       = Some ([""; "obs"; "attachments"] ++ [numbered "x" ".png" i])%list
    /\ file_map m !! [""; "zim"; "a"; "x.png"]
       = Some ([""; "obs"; "attachments"] ++ [numbered "x" ".png" j])%list.
Proof.
  apply (global_attachment_numbering Posix [""; "zim"] [""; "obs"] demo_policy
           demo_walk
           [([], inl "a")] [] {| fe_name := "x.png"; fe_lines := [] |}
           [([], inr {| fe_name := "a.txt"; fe_lines := page_header |})]
           ["a"] {| fe_name := "x.png"; fe_lines := [] |} [] "x.png");
    try (vm_compute; reflexivity).
  - refine (bool_decide_unpack _ _). vm_compute. exact I.
  - vm_compute. lia.
Defined.

Lemma folder_note_page_nested_witness :
  exists m dest,
    map_zim_dir_to_obsidian_dir Posix [""; "zim"] [""; "obs"] demo_policy demo_walk
    = Some m
    /\ folder_map m !! [""; "zim"; "a"] = Some dest
    /\ note_map m !! [""; "zim"; "a.txt"] = Some (dest ++ ["a.md"])%list
    /\ path_str Posix (dest ++ ["a.md"])%list = path_str Posix dest ++ "/a.md".
Proof.
  apply (folder_note_page_nested Posix [""; "zim"] [""; "obs"] demo_policy
           demo_walk
           {| w_relroot := [];
              w_folders := ["a"];
              w_files := [ {| fe_name := "x.png"; fe_lines := [] |};
                           {| fe_name := "a.txt"; fe_lines := page_header |} ] |}
           "a" {| fe_name := "a.txt"; fe_lines := page_header |});
    try (vm_compute; reflexivity); simpl; auto.
Defined.

(** *** The allocator on names of the usual shapes *)

(** The loop returns the first proposed name that is free. *)
Lemma make_unique_string_candidate fl E r k :
  (forall i, i < k -> In (candidate fl r i) E) ->
  ~ In (candidate fl r k) E ->
  make_unique_string fl E r = Some (candidate fl r k).
Proof.
  intros Hin Hout. unfold make_unique_string.
  rewrite (loop_enough (List.length E) fl E r 0 k).
  - reflexivity.
  - now apply (taken_bound fl E r).
  - intros i Hi. apply in_list_In, Hin, Hi.
  - destruct (in_list (candidate fl r k) E) eqn:H; [|reflexivity].
    apply in_list_In in H. contradiction.
Qed.

(** X1.  A requested name the pattern does not match, with an extension:
    when the name and its first [k] numbered variants are taken and the
    next one is free, the allocator returns the name with [k + 1] put
    before the extension. *)
Theorem make_unique_string_appends fl (existing_names : list string)
    (requested_name : string) (k : nat) :
  let stem := fst (splitext fl requested_name) in
  let ext := snd (splitext fl requested_name) in
  findall re_final_digits requested_name = [] ->
  all_chars dot requested_name = true ->
  2 <= String.length ext ->
  (forall i, i <= k -> In (numbered stem ext i) existing_names) ->
  ~ In (numbered stem ext (S k)) existing_names ->
  make_unique_string fl existing_names requested_name
  = Some (numbered stem ext (S k)).
Proof.
  intros stem ext Hn Hd Hl Hin Hout.
  assert (Hs : all_chars dot stem = true /\ all_chars dot ext = true).
  { rewrite <- (splitext_app fl requested_name), all_chars_app in Hd.
    now apply andb_true_iff in Hd. }
  assert (Hg : good_ext ext).
  { unfold ext in *.
    destruct (splitext_dot fl requested_name) as [E|(rest & E)]; rewrite E in *.
    - simpl in Hl. lia.
    - destruct rest as [|u0 u]; [simpl in Hl; lia|].
      exists u0, u. split; [reflexivity|]. now destruct Hs as [_ Hs]. }
  assert (Hc : forall i, candidate fl requested_name i = numbered stem ext i).
  { intros i. apply candidate_numbered; [now apply findall_nil_first|tauto|exact Hg]. }
  rewrite <- Hc. apply make_unique_string_candidate.
  - intros i Hi. rewrite Hc. apply Hin. lia.
  - now rewrite Hc.
Qed.



(** *** [compatible] *)

Lemma startswith_app s t :
  startswith s t = true -> s = t ++ sdrop (String.length t) s.
Proof.
  revert s. induction t as [|a t IH]; intros s H; [reflexivity|].
  destruct s as [|b s]; [discriminate|].
  simpl in H. apply andb_true_iff in H as [Hab H].
  apply Ascii.eqb_eq in Hab. subst b.
  rewrite app_cons. simpl. f_equal. now apply IH.
Qed.

Lemma startswith_refl_app t u : startswith (t ++ u) t = true.
Proof.
  induction t as [|a t IH]; [now destruct u|].
  rewrite app_cons. simpl. now rewrite Ascii.eqb_refl.
Qed.

Lemma sdrop_app_length t u : sdrop (String.length t) (t ++ u) = u.
Proof. induction t as [|a t IH]; [now destruct u|]. rewrite app_cons. exact IH. Qed.

Lemma rep_exhausted {A} cls pos s (k : nat -> string -> option A) :
  rep cls true 0 (Some 0) pos s k = k pos s.
Proof. destruct s; simpl; [reflexivity|]. now rewrite andb_false_r. Qed.

(** A literal matches where the subject starts with it. *)
Lemma mtch_lit {A} t pos s caps (k : nat -> string -> captures -> option A) :
  mtch (lit t) pos s caps k
  = if startswith s t
    then k (pos + String.length t) (sdrop (String.length t) s) caps
    else None.
Proof.
  revert pos s. induction t as [|c t IH]; intros pos s.
  - simpl. rewrite Nat.add_0_r. now destruct s.
  - destruct s as [|b s]; [reflexivity|].
    simpl lit. simpl mtch. unfold ch.
    rewrite (Ascii.eqb_sym b c).
    change (startswith (String b s) (String c t))
      with (Ascii.eqb c b && startswith s t).
    destruct (Ascii.eqb c b); simpl; [|reflexivity].
    rewrite rep_exhausted, IH, Nat.add_succ_r. reflexivity.
Qed.

Lemma fullmatch_content_type t :
  fullmatch re_content_type t = true <-> t = "Content-Type: text/x-zim-wiki".
Proof.
  unfold fullmatch, re_content_type.
  change (seq [Bol; lit "Content-Type: text/x-zim-wiki"; Eol])
    with (Seq Bol (Seq (lit "Content-Type: text/x-zim-wiki") (Seq Eol Eps))).
  cbn [mtch]. rewrite Nat.eqb_refl, mtch_lit.
  split.
  - destruct (startswith t "Content-Type: text/x-zim-wiki") eqn:E; [|discriminate].
    apply startswith_app in E. cbn [mtch].
    destruct (sdrop _ t) as [|c r] eqn:Er.
    + intros _. rewrite E, app_nil_r_s. reflexivity.
    + destruct (at_eol (String c r)); discriminate.
  - intros ->. reflexivity.
Qed.

Lemma fullmatch_wiki_format t :
  fullmatch re_wiki_format t = true
  <-> exists v, (48 <= code v <= 54)
                /\ t = "Wiki-Format: zim 0." ++ String v "".
Proof.
  unfold fullmatch, re_wiki_format.
  change (seq [Bol; lit "Wiki-Format: zim 0.";
               one (fun c => Nat.leb 48 (code c) && Nat.leb (code c) 54); Eol])
    with (Seq Bol (Seq (lit "Wiki-Format: zim 0.")
            (Seq (one (fun c => Nat.leb 48 (code c) && Nat.leb (code c) 54))
               (Seq Eol Eps)))).
  cbn [mtch]. rewrite Nat.eqb_refl, mtch_lit.
  split.
  - destruct (startswith t "Wiki-Format: zim 0.") eqn:E; [|discriminate].
    apply startswith_app in E.
    destruct (sdrop _ t) as [|v r] eqn:Er; [discriminate|].
    cbn [mtch one rep room less option_map].
    destruct (Nat.leb 48 (code v) && Nat.leb (code v) 54) eqn:Ev;
      [|discriminate].
    cbn [andb].
    destruct r as [|c r].
    + intros _. exists v. split; [|exact E].
      apply andb_true_iff in Ev as [H1 H2].
      apply Nat.leb_le in H1, H2. lia.
    + change (Nat.pred 1) with 0. rewrite rep_exhausted.
      destruct (at_eol (String c r)); discriminate.
  - intros (v & [H1 H2] & ->).
    rewrite startswith_refl_app, sdrop_app_length.
    cbn [mtch one rep room less option_map].
    apply Nat.leb_le in H1, H2. rewrite H1, H2. reflexivity.
Qed.

(** X3.  A file is taken for a page exactly when its first line, stripped,
    is the content-type header and its second line, stripped, names
    the wiki format zim 0.0 to zim 0.6; what follows is not read. *)
Theorem compatible_iff (file_lines : list string) :
  compatible file_lines = true
  <-> exists l0 l1 rest,
        file_lines = l0 :: l1 :: rest
        /\ strip l0 = "Content-Type: text/x-zim-wiki"
        /\ exists v, (48 <= code v <= 54)
                     /\ strip l1 = "Wiki-Format: zim 0." ++ String v "".
Proof.
  unfold compatible. split.
  - destruct file_lines as [|l0 [|l1 rest]]; try discriminate.
    change (firstn 4 (l0 :: l1 :: rest)) with (l0 :: l1 :: firstn 2 rest).
    unfold __compatible. intros H. apply andb_true_iff in H as [H0 H1].
    exists l0, l1, rest. split; [reflexivity|].
    split; [now apply fullmatch_content_type|now apply fullmatch_wiki_format].
  - intros (l0 & l1 & rest & -> & H0 & H1).
    change (firstn 4 (l0 :: l1 :: rest)) with (l0 :: l1 :: firstn 2 rest).
    unfold __compatible. apply andb_true_iff.
    split; [now apply fullmatch_content_type|now apply fullmatch_wiki_format].
Qed.

(** *** What the three maps hold *)

Section MapperInvariants.
Variable fl : flavour.
Variables zim_dir obs_dir : path.
Variable pol : policy.

Local Abbreviation run := (map_entries fl zim_dir obs_dir pol).

Lemma map_entries_snoc ens en m :
  run (ens ++ [en]) m
  = match run ens m with
    | Some m' => map_entry fl zim_dir obs_dir pol m' en
    | None => None
    end.
Proof.
  rewrite map_entries_app. destruct (run ens m) as [m'|]; [|reflexivity].
  simpl. now destruct (map_entry fl zim_dir obs_dir pol m' en).
Qed.

(** What one file does to the maps. *)
Lemma map_file_cases relroot m f m' :
  map_file fl zim_dir obs_dir pol relroot m f = Some m' ->
  folder_map m' = folder_map m
  /\ ((is_page fl f = true
       /\ file_map m' = file_map m
       /\ exists stem,
            splitext fl (fe_name f) = (stem, ".txt")
            /\ note_map m'
               = <[source_path zim_dir relroot f :=
                     if use_folder_notes pol
                        && path_in (obs_dir ++ relroot ++ [stem])%list
                             (values (folder_map m))
                     then nested_note obs_dir relroot stem
                     else flat_note obs_dir relroot stem]> (note_map m))
      \/ (is_page fl f = false
          /\ in_list (snd (splitext fl (fe_name f))) (ignore_extensions pol)
             = true
          /\ m' = m)
      \/ (is_attachment fl pol f = true
          /\ note_map m' = note_map m
          /\ exists v,
               file_map m' = <[source_path zim_dir relroot f := v]> (file_map m)
               /\ (use_global_attachments pol = false ->
                   v = (obs_dir ++ relroot ++ [fe_name f])%list))).
Proof.
  unfold map_file, is_attachment, is_page, source_path.
  destruct (String.eqb _ ".txt" && compatible _) eqn:Hp.
  - apply andb_true_iff in Hp as [Hx _]. apply String.eqb_eq in Hx.
    destruct (splitext fl (fe_name f)) as [stem ext] eqn:Es.
    simpl in Hx. subst ext.
    destruct (splitext_txt fl _ _ Es) as (_ & Hs & _ & Hne).
    simpl fst.
    destruct (use_folder_notes pol && _) eqn:Hfn.
    + rewrite with_suffix_snoc, Hs by assumption.
      intros H. injection H as <-. simpl. split; [reflexivity|].
      left. split; [reflexivity|]. split; [reflexivity|].
      exists stem. split; [reflexivity|]. rewrite Hfn. reflexivity.
    + rewrite app_assoc, with_suffix_snoc, Hs, <- app_assoc by assumption.
      intros H. injection H as <-. simpl. split; [reflexivity|].
      left. split; [reflexivity|]. split; [reflexivity|].
      exists stem. split; [reflexivity|]. rewrite Hfn. reflexivity.
  - destruct (in_list _ _) eqn:Hi.
    + intros H. injection H as <-. split; [reflexivity|]. right. left. tauto.
    + destruct (use_global_attachments pol) eqn:Hg.
      * destruct (make_unique_string _ _ _) as [u|]; [|discriminate].
        intros H. injection H as <-. simpl. split; [reflexivity|].
        right. right. split; [reflexivity|]. split; [reflexivity|].
        eexists. split; [reflexivity|]. discriminate.
      * intros H. injection H as <-. simpl. split; [reflexivity|].
        right. right. split; [reflexivity|]. split; [reflexivity|].
        eexists. split; [reflexivity|]. reflexivity.
Qed.

Lemma snoc_key_inj (r r' : path) (n n' : string) :
  (zim_dir ++ r ++ [n])%list = (zim_dir ++ r' ++ [n'])%list ->
  r = r' /\ n = n'.
Proof. intros E. apply app_inv_head in E. now apply app_inj_tail in E. Qed.

(** The folder map is the mirror image of the folders reached. *)
Lemma folder_map_entries ens m :
  run ens empty_maps = Some m ->
  forall k v,
    folder_map m !! k = Some v
    <-> exists r d, In (r, inl d) ens
                    /\ k = (zim_dir ++ r ++ [d])%list
                    /\ v = (obs_dir ++ r ++ [d])%list.
Proof.
  revert m. induction ens as [|en ens IH] using rev_ind; intros m.
  - simpl. intros H. injection H as <-. intros k v. simpl.
    rewrite lookup_empty. split; [discriminate|]. now intros (r & d & [] & _).
  - rewrite map_entries_snoc.
    destruct (run ens empty_maps) as [m1|]; [|discriminate].
    specialize (IH m1 eq_refl). intros Hstep k v.
    destruct en as [r0 [d0|f0]].
    + simpl in Hstep. injection Hstep as <-. simpl.
      destruct (decide ((zim_dir ++ r0 ++ [d0])%list = k)) as [E|E].
      * subst k. rewrite lookup_insert_eq. split.
        -- intros H. injection H as <-. exists r0, d0.
           rewrite in_app_iff. simpl. auto.
        -- intros (r & d & _ & Hk & ->).
           apply snoc_key_inj in Hk as [-> ->]. reflexivity.
      * rewrite lookup_insert_ne by assumption. rewrite IH. split.
        -- intros (r & d & Hin & Hk). exists r, d.
           rewrite in_app_iff. auto.
        -- intros (r & d & Hin & Hk & Hv). exists r, d.
           apply in_app_iff in Hin as [Hin|[Hin|[]]]; [auto|].
           injection Hin as <- <-. congruence.
    + simpl in Hstep. apply map_file_cases in Hstep as [-> _].
      rewrite IH. split; intros (r & d & Hin & Hk); exists r, d;
        (split; [|exact Hk]).
      * rewrite in_app_iff. auto.
      * apply in_app_iff in Hin as [Hin|[Hin|[]]]; [auto|discriminate].
Qed.

(** Every destination of a page is next to the page's siblings or in
    the folder of the page's name, the latter only under folder-note
    mode and when that folder was reached before. *)
Lemma note_map_entries ens m :
  run ens empty_maps = Some m ->
  forall k v,
    note_map m !! k = Some v ->
    exists r f stem,
      In (r, inr f) ens /\ is_page fl f = true
      /\ k = source_path zim_dir r f
      /\ splitext fl (fe_name f) = (stem, ".txt")
      /\ (v = flat_note obs_dir r stem
          \/ (use_folder_notes pol = true
              /\ In (r, inl stem) ens
              /\ v = nested_note obs_dir r stem)).
Proof.
  revert m. induction ens as [|en ens IH] using rev_ind; intros m.
  - simpl. intros H. injection H as <-. intros k v. simpl.
    now rewrite lookup_empty.
  - rewrite map_entries_snoc.
    destruct (run ens empty_maps) as [m1|] eqn:Hrun; [|discriminate].
    specialize (IH m1 eq_refl). intros Hstep k v Hk.
    assert (Hold : note_map m1 !! k = Some v ->
              exists r f stem,
                In (r, inr f) (ens ++ [en]) /\ is_page fl f = true
                /\ k = source_path zim_dir r f
                /\ splitext fl (fe_name f) = (stem, ".txt")
                /\ (v = flat_note obs_dir r stem
                    \/ (use_folder_notes pol = true
                        /\ In (r, inl stem) (ens ++ [en])
                        /\ v = nested_note obs_dir r stem))).
    { intros H. destruct (IH k v H) as (r & f & stem & Hin & Hp & Ek & Es & Hv).
      exists r, f, stem. rewrite !in_app_iff.
      repeat split; auto. destruct Hv as [Hv|(Hf & Hi & Hv)]; [auto|].
      right. repeat split; auto. }
    destruct en as [r0 [d0|f0]].
    + simpl in Hstep. injection Hstep as <-. simpl in Hk. auto.
    + simpl in Hstep. apply map_file_cases in Hstep as [_ Hc].
      destruct Hc as [(Hp & _ & stem & Es & Hn)|[(_ & _ & ->)|(_ & Hn & _)]].
      * rewrite Hn in Hk.
        destruct (decide (source_path zim_dir r0 f0 = k)) as [E|E].
        -- subst k. rewrite lookup_insert_eq in Hk. injection Hk as <-.
           exists r0, f0, stem. rewrite !in_app_iff. simpl.
           repeat split; auto.
           destruct (use_folder_notes pol) eqn:Hf; [|now left].
           destruct (path_in _ _) eqn:Hpi; [|now left].
           right. simpl. repeat split; auto.
           apply path_in_values in Hpi as (kf & Hkf).
           apply (folder_map_entries ens m1 Hrun) in Hkf
             as (r & d & Hin & _ & Hv).
           apply app_inv_head in Hv. apply app_inj_tail in Hv as [<- <-].
           auto.
        -- rewrite lookup_insert_ne in Hk by assumption. auto.
      * auto.
      * rewrite Hn in Hk. auto.
Qed.

(** Every key of the attachment map is a file reached that is no page
    and has no ignored extension. *)
Lemma file_map_entries ens m :
  run ens empty_maps = Some m ->
  forall k v,
    file_map m !! k = Some v ->
    exists r f, In (r, inr f) ens /\ is_attachment fl pol f = true
                /\ k = source_path zim_dir r f.
Proof.
  revert m. induction ens as [|en ens IH] using rev_ind; intros m.
  - simpl. intros H. injection H as <-. intros k v. simpl.
    now rewrite lookup_empty.
  - rewrite map_entries_snoc.
    destruct (run ens empty_maps) as [m1|] eqn:Hrun; [|discriminate].
    specialize (IH m1 eq_refl). intros Hstep k v Hk.
    assert (Hold : file_map m1 !! k = Some v ->
              exists r f, In (r, inr f) (ens ++ [en])
                          /\ is_attachment fl pol f = true
                          /\ k = source_path zim_dir r f).
    { intros H. destruct (IH k v H) as (r & f & Hin & Hp & Ek).
      exists r, f. rewrite in_app_iff. auto. }
    destruct en as [r0 [d0|f0]].
    + simpl in Hstep. injection Hstep as <-. simpl in Hk. auto.
    + simpl in Hstep. apply map_file_cases in Hstep as [_ Hc].
      destruct Hc as [(_ & Hn & _)|[(_ & _ & ->)|(Ha & _ & u & Hn & _)]].
      * rewrite Hn in Hk. auto.
      * auto.
      * rewrite Hn in Hk.
        destruct (decide (source_path zim_dir r0 f0 = k)) as [E|E].
        -- subst k. exists r0, f0. rewrite in_app_iff. simpl. auto.
        -- rewrite lookup_insert_ne in Hk by assumption. auto.
Qed.

(** Without global attachments every attachment reached keeps its
    place under the destination root. *)
Lemma file_map_mirror ens m :
  use_global_attachments pol = false ->
  run ens empty_maps = Some m ->
  forall r f,
    In (r, inr f) ens -> is_attachment fl pol f = true ->
    file_map m !! source_path zim_dir r f
    = Some (obs_dir ++ r ++ [fe_name f])%list.
Proof.
  intros Hg. revert m. induction ens as [|en ens IH] using rev_ind; intros m.
  - intros _ r f [].
  - rewrite map_entries_snoc.
    destruct (run ens empty_maps) as [m1|] eqn:Hrun; [|discriminate].
    specialize (IH m1 eq_refl). intros Hstep r f Hin Ha.
    destruct en as [r0 [d0|f0]].
    + simpl in Hstep. injection Hstep as <-. simpl.
      apply in_app_iff in Hin as [Hin|[Hin|[]]]; [auto|discriminate].
    + simpl in Hstep. apply map_file_cases in Hstep as [_ Hc].
      destruct Hc as [(Hp & Hn & _)|[(Hp & Hi & ->)|(Ha0 & _ & u & Hn & Hu)]].
      * rewrite Hn.
        apply in_app_iff in Hin as [Hin|[Hin|[]]]; [auto|].
        injection Hin as <- <-. unfold is_attachment in Ha.
        rewrite Hp in Ha. discriminate.
      * apply in_app_iff in Hin as [Hin|[Hin|[]]]; [auto|].
        injection Hin as <- <-. unfold is_attachment in Ha.
        rewrite Hi, andb_false_r in Ha. discriminate.
      * rewrite Hn, (Hu Hg).
        destruct (decide (source_path zim_dir r0 f0 = source_path zim_dir r f))
          as [E|E].
        -- rewrite E, lookup_insert_eq.
           apply snoc_key_inj in E as [-> ->]. reflexivity.
        -- rewrite lookup_insert_ne by assumption.
           apply in_app_iff in Hin as [Hin|[Hin|[]]]; [auto|].
           injection Hin as <- <-. congruence.
Qed.

(** A page reached stays next to its siblings when folder-note mode is
    off or no folder of its name and place is reached. *)
Lemma note_map_flat ens m r f stem :
  use_folder_notes pol = false \/ ~ In (r, inl stem) ens ->
  run ens empty_maps = Some m ->
  In (r, inr f) ens -> is_page fl f = true ->
  splitext fl (fe_name f) = (stem, ".txt") ->
  note_map m !! source_path zim_dir r f = Some (flat_note obs_dir r stem).
Proof.
  revert m. induction ens as [|en ens IH] using rev_ind; intros m Hno.
  - intros _ [].
  - rewrite map_entries_snoc.
    destruct (run ens empty_maps) as [m1|] eqn:Hrun; [|discriminate].
    assert (Hno' : use_folder_notes pol = false \/ ~ In (r, inl stem) ens).
    { destruct Hno as [H|H]; [now left|]. right. intros Hin. apply H.
      apply in_app_iff. now left. }
    specialize (IH m1 Hno' eq_refl). intros Hstep Hin Hp Es.
    destruct en as [r0 [d0|f0]].
    + simpl in Hstep. injection Hstep as <-. simpl.
      apply in_app_iff in Hin as [Hin|[Hin|[]]]; [auto|discriminate].
    + simpl in Hstep. apply map_file_cases in Hstep as [_ Hc].
      destruct Hc as [(Hp0 & _ & stem0 & Es0 & Hn)|[(Hp0 & _ & ->)|(Ha0 & Hn & _)]].
      * rewrite Hn.
        destruct (decide (source_path zim_dir r0 f0 = source_path zim_dir r f))
          as [E|E].
        -- rewrite E, lookup_insert_eq.
           apply snoc_key_inj in E as [-> En].
           rewrite En, Es in Es0. injection Es0 as <-.
           destruct (use_folder_notes pol) eqn:Hf; [|reflexivity].
           destruct (path_in _ _) eqn:Hpi; [|reflexivity].
           exfalso. destruct Hno' as [?|Hno']; [discriminate|]. apply Hno'.
           apply path_in_values in Hpi as (kf & Hkf).
           apply (folder_map_entries ens m1 Hrun) in Hkf
             as (r' & d & Hin' & _ & Hv).
           apply app_inv_head in Hv. apply app_inj_tail in Hv as [<- <-].
           exact Hin'.
        -- rewrite lookup_insert_ne by assumption.
           apply in_app_iff in Hin as [Hin|[Hin|[]]]; [auto|].
           injection Hin as <- <-. congruence.
      * apply in_app_iff in Hin as [Hin|[Hin|[]]]; [auto|].
        injection Hin as <- <-. congruence.
      * rewrite Hn.
        apply in_app_iff in Hin as [Hin|[Hin|[]]]; [auto|].
        injection Hin as <- <-. unfold is_attachment in Ha0.
        rewrite Hp in Ha0. discriminate.
Qed.

End MapperInvariants.

Lemma in_entries walk r (x : string + file_entry) :
  In (r, x) (entries walk)
  <-> exists w, In w walk /\ r = w_relroot w
                /\ match x with
                   | inl d => In d (w_folders w)
                   | inr f => In f (w_files w)
                   end.
Proof.
  unfold entries, entries_of. rewrite in_flat_map. split.
  - intros (w & Hw & Hin). exists w. split; [exact Hw|].
    apply in_app_iff in Hin as [Hin|Hin]; apply in_map_iff in Hin as (y & E & Hy);
      injection E as <- <-; auto.
  - intros (w & Hw & -> & Hx). exists w. split; [exact Hw|].
    apply in_app_iff. destruct x as [d|f]; [left|right]; apply in_map_iff; eauto.
Qed.

(** X4.  The folder map holds exactly the folders of the walk, each mapped to
    the same place under the destination root. *)
Theorem folder_map_mirrors fl zim_dir obs_dir pol walk m :
  map_zim_dir_to_obsidian_dir fl zim_dir obs_dir pol walk = Some m ->
  forall k v,
    folder_map m !! k = Some v
    <-> exists w d, In w walk /\ In d (w_folders w)
                    /\ k = (zim_dir ++ w_relroot w ++ [d])%list
                    /\ v = (obs_dir ++ w_relroot w ++ [d])%list.
Proof.
  unfold map_zim_dir_to_obsidian_dir. rewrite map_walk_entries. intros H k v.
  rewrite (folder_map_entries fl zim_dir obs_dir pol _ _ H). split.
  - intros (r & d & Hin & Hk & Hv). apply in_entries in Hin as (w & Hw & -> & Hd).
    eauto 8.
  - intros (w & d & Hw & Hd & Hk & Hv). exists (w_relroot w), d.
    split; [|auto]. apply in_entries. eauto.
Qed.

(** X5.  Every entry of the note map comes from a compatible [.txt] page of
    the walk, and its destination is the page's place under the
    destination root with [.md] for [.txt], or that name inside the
    folder of the page's name; the latter only under folder-note mode
    and with that folder in the folder map. *)
Theorem note_map_destinations fl zim_dir obs_dir pol walk m :
  map_zim_dir_to_obsidian_dir fl zim_dir obs_dir pol walk = Some m ->
  forall k v,
    note_map m !! k = Some v ->
    exists w f stem,
      In w walk /\ In f (w_files w)
      /\ splitext fl (fe_name f) = (stem, ".txt")
      /\ compatible (fe_lines f) = true
      /\ k = (zim_dir ++ w_relroot w ++ [fe_name f])%list
      /\ (v = (obs_dir ++ w_relroot w ++ [(stem ++ ".md")%string])%list
          \/ (use_folder_notes pol = true
              /\ folder_map m !! (zim_dir ++ w_relroot w ++ [stem])%list
                 = Some (obs_dir ++ w_relroot w ++ [stem])%list
              /\ v = ((obs_dir ++ w_relroot w ++ [stem]) ++ [(stem ++ ".md")%string])%list)).
Proof.
  unfold map_zim_dir_to_obsidian_dir. rewrite map_walk_entries. intros H k v Hk.
  destruct (note_map_entries fl zim_dir obs_dir pol _ _ H k v Hk)
    as (r & f & stem & Hin & Hp & Ek & Es & Hv).
  apply in_entries in Hin as (w & Hw & -> & Hf).
  exists w, f, stem. repeat split; auto.
  - unfold is_page in Hp. now apply andb_true_iff in Hp as [_ ?].
  - destruct Hv as [Hv|(Hm & Hi & Hv)]; [now left|]. right.
    repeat split; auto.
    apply (folder_map_entries fl zim_dir obs_dir pol _ _ H). eauto.
Qed.

(** X6.  A compatible page of the walk keeps its place, with [.md] for
    [.txt], when folder-note mode is off or the walk has no folder of
    the page's name beside it. *)
Theorem page_stays_in_place fl zim_dir obs_dir pol walk m w f stem :
  map_zim_dir_to_obsidian_dir fl zim_dir obs_dir pol walk = Some m ->
  In w walk -> In f (w_files w) ->
  splitext fl (fe_name f) = (stem, ".txt") ->
  compatible (fe_lines f) = true ->
  (use_folder_notes pol = false
   \/ forall w', In w' walk -> w_relroot w' = w_relroot w ->
                 ~ In stem (w_folders w')) ->
  note_map m !! (zim_dir ++ w_relroot w ++ [fe_name f])%list
  = Some (obs_dir ++ w_relroot w ++ [(stem ++ ".md")%string])%list.
Proof.
  unfold map_zim_dir_to_obsidian_dir. rewrite map_walk_entries.
  intros H Hw Hf Es Hc Hno.
  apply (note_map_flat fl zim_dir obs_dir pol (entries walk) m (w_relroot w) f stem);
    auto.
  - destruct Hno as [Hno|Hno]; [now left|]. right. intros Hin.
    apply in_entries in Hin as (w' & Hw' & E & Hd). now apply (Hno w').
  - apply in_entries. eauto.
  - unfold is_page. rewrite Es, Hc. reflexivity.
Qed.

(** X7.  Every key of the attachment map is a file of the walk that is not
    taken for a page and whose extension is not ignored. *)
Theorem file_map_sources fl zim_dir obs_dir pol walk m :
  map_zim_dir_to_obsidian_dir fl zim_dir obs_dir pol walk = Some m ->
  forall k v,
    file_map m !! k = Some v ->
    exists w f,
      In w walk /\ In f (w_files w)
      /\ k = (zim_dir ++ w_relroot w ++ [fe_name f])%list
      /\ is_page fl f = false
      /\ in_list (snd (splitext fl (fe_name f))) (ignore_extensions pol) = false.
Proof.
  unfold map_zim_dir_to_obsidian_dir. rewrite map_walk_entries. intros H k v Hk.
  destruct (file_map_entries fl zim_dir obs_dir pol _ _ H k v Hk)
    as (r & f & Hin & Ha & Ek).
  apply in_entries in Hin as (w & Hw & -> & Hf).
  exists w, f. unfold is_attachment in Ha.
  apply andb_true_iff in Ha as [H1 H2].
  apply negb_true_iff in H1, H2. auto.
Qed.

(** X8.  Without global attachments, every file of the walk that is not
    taken for a page and whose extension is not ignored is mapped to
    the same place under the destination root. *)
Theorem attachment_stays_in_place fl zim_dir obs_dir pol walk m w f :
  map_zim_dir_to_obsidian_dir fl zim_dir obs_dir pol walk = Some m ->
  use_global_attachments pol = false ->
  In w walk -> In f (w_files w) ->
  is_page fl f = false ->
  in_list (snd (splitext fl (fe_name f))) (ignore_extensions pol) = false ->
  file_map m !! (zim_dir ++ w_relroot w ++ [fe_name f])%list
  = Some (obs_dir ++ w_relroot w ++ [fe_name f])%list.
Proof.
  unfold map_zim_dir_to_obsidian_dir. rewrite map_walk_entries.
  intros H Hg Hw Hf Hp Hi.
  apply (file_map_mirror fl zim_dir obs_dir pol (entries walk) m Hg H).
  - apply in_entries. eauto.
  - unfold is_attachment. now rewrite Hp, Hi.
Qed.

(** *** The pass over the lines of a page *)

Lemma translate_loop_zero e lines i :
  translate_loop e 0 lines i
  = if (i <? Z.of_nat (List.length lines) - 1)%Z then None else Some (ret lines).
Proof. reflexivity. Qed.

(** What a pass that ends normally leaves: as many lines as it was
    given, and the lines up to its starting index as they were. *)
Lemma translate_loop_result e fuel : forall lines i log out,
  (-1 <= i)%Z ->
  translate_loop e fuel lines i = Some (log, inr out) ->
  List.length out = List.length lines
  /\ forall k, (Z.of_nat k <= i)%Z -> out !! k = lines !! k.
Proof.
  induction fuel as [|fuel IH]; intros lines i log out Hi.
  - rewrite translate_loop_zero.
    destruct (i <? _)%Z; [discriminate|]. intros H. injection H as _ <-. auto.
  - rewrite translate_loop_unfold.
    destruct (i <? _)%Z; [|intros H; injection H as _ <-; auto].
    cbv zeta. unfold set_line.
    destruct (lines !! Z.to_nat (i + 1)) as [line|]; [|discriminate].
    destruct (startswith line "{{{code:").
    + destruct (fence_scan _ 0) as [j|]; [|discriminate].
      intros H. apply IH in H as [Hlen Hk]; [|lia].
      rewrite !length_insert in Hlen. split; [exact Hlen|].
      intros k Hle. rewrite Hk by lia.
      rewrite !list_lookup_insert_ne by lia. reflexivity.
    + destruct (translate_line e line) as [lg [err|line']]; [discriminate|].
      destruct (translate_loop e fuel _ (i + 1)) as [[lg' r]|] eqn:Hrec;
        [|discriminate].
      intros H. injection H as _ ->.
      apply IH in Hrec as [Hlen Hk]; [|lia].
      rewrite length_insert in Hlen. split; [exact Hlen|].
      intros k Hle. rewrite Hk by lia.
      rewrite list_lookup_insert_ne by lia. reflexivity.
Qed.

(** The pass ends: one turn for every line still ahead is enough. *)
Lemma translate_loop_total e fuel : forall lines i,
  (-1 <= i)%Z ->
  (Z.of_nat (List.length lines) <= Z.of_nat fuel + i + 1)%Z ->
  exists r, translate_loop e fuel lines i = Some r.
Proof.
  induction fuel as [|fuel IH]; intros lines i Hi Hf.
  - rewrite translate_loop_zero.
    replace (i <? Z.of_nat (List.length lines) - 1)%Z with false; [eauto|].
    symmetry. apply Z.ltb_ge. lia.
  - rewrite translate_loop_unfold.
    destruct (i <? _)%Z; [|eauto].
    cbv zeta. unfold set_line.
    destruct (lines !! Z.to_nat (i + 1)) as [line|]; [|eauto].
    destruct (startswith line "{{{code:").
    + destruct (fence_scan _ 0) as [j|]; [|eauto].
      apply IH; [lia|]. rewrite !length_insert. lia.
    + destruct (translate_line e line) as [lg [err|line']]; [eauto|].
      destruct (IH (<[Z.to_nat (i + 1) := line']> lines) (i + 1)%Z) as ([lg' r] & ->);
        [lia|rewrite length_insert; lia|eauto].
Qed.

(** More turns than needed change nothing. *)
Lemma translate_loop_more e fuel : forall lines i r fuel',
  translate_loop e fuel lines i = Some r ->
  fuel <= fuel' ->
  translate_loop e fuel' lines i = Some r.
Proof.
  induction fuel as [|fuel IH]; intros lines i r fuel' H Hle.
  - rewrite translate_loop_zero in H.
    destruct (i <? _)%Z eqn:E; [discriminate|].
    destruct fuel'; [now rewrite translate_loop_zero, E|].
    now rewrite translate_loop_unfold, E.
  - destruct fuel' as [|fuel']; [lia|].
    rewrite translate_loop_unfold in H. rewrite translate_loop_unfold.
    destruct (i <? _)%Z; [|exact H].
    cbv zeta in *. unfold set_line in *.
    destruct (lines !! Z.to_nat (i + 1)) as [line|]; [|exact H].
    destruct (startswith line "{{{code:").
    + destruct (fence_scan _ 0) as [j|]; [|exact H].
      apply (IH _ _ _ fuel' H). lia.
    + destruct (translate_line e line) as [lg [err|line']]; [exact H|].
      destruct (translate_loop e fuel _ (i + 1)) as [[lg' r']|] eqn:Hrec;
        [|discriminate].
      rewrite (IH _ _ _ fuel' Hrec) by lia. exact H.
Qed.

(** An exception of the pass is the [IndexError] of a code block without
    terminator, or the exception of a line's translation, reported with
    the file and the line before it is raised again. *)
Lemma translate_loop_error e fuel : forall lines i log err,
  translate_loop e fuel lines i = Some (log, inl err) ->
  err = IndexError
  \/ exists log0 log1 line,
       log = (log0 ++ log1 ++ [ErrorInFile (old_filepath e) line])%list
       /\ translate_line e line = (log1, inl err).
Proof.
  induction fuel as [|fuel IH]; intros lines i log err.
  - rewrite translate_loop_zero. destruct (i <? _)%Z; discriminate.
  - rewrite translate_loop_unfold.
    destruct (i <? _)%Z; [|discriminate].
    cbv zeta. unfold set_line.
    destruct (lines !! Z.to_nat (i + 1)) as [line|];
      [|intros H; injection H as _ <-; now left].
    destruct (startswith line "{{{code:").
    + destruct (fence_scan _ 0) as [j|];
        [|intros H; injection H as _ <-; now left].
      apply IH.
    + destruct (translate_line e line) as [lg [err0|line']] eqn:Hl.
      * intros H. injection H as <- <-. right.
        exists [], lg, line. split; [reflexivity|exact Hl].
      * destruct (translate_loop e fuel _ (i + 1)) as [[lg' r']|] eqn:Hrec;
          [|discriminate].
        intros H. injection H as <- ->.
        apply IH in Hrec as [->|(log0 & log1 & l & -> & Hl1)]; [now left|].
        right. exists (lg ++ log0)%list, log1, l.
        split; [now rewrite <- app_assoc|exact Hl1].
Qed.

(** The lines [translate_file] passes over: the page without its four
    header lines, and without the title line when that repeats the
    title of the page. *)
Lemma translate_file_lines e file_lines :
  exists lines,
    translate_file e file_lines
    = match skipn 4 file_lines with
      | [] => Some (raise IndexError)
      | _ :: _ => translate_loop e (S (List.length lines)) lines (-1)
      end
    /\ (lines = skipn 4 file_lines \/ lines = skipn 5 file_lines).
Proof.
  unfold translate_file.
  destruct (skipn 4 file_lines) as [|line0 rest] eqn:E.
  - exists []. auto.
  - assert (E5 : skipn 5 file_lines = rest).
    { change 5 with (1 + 4). rewrite <- skipn_skipn, E. reflexivity. }
    destruct (findall re_title line0) as [|topline0 ?].
    + exists (line0 :: rest). auto.
    + destruct (String.eqb _ _).
      * exists rest. auto.
      * exists (line0 :: rest). auto.
Qed.

(** X9.  A page of at most four lines has nothing after its header: looking
    for the title line raises [IndexError]. *)
Theorem translate_file_short_page e (file_lines : list string) :
  List.length file_lines <= 4 ->
  translate_file e file_lines = Some (raise IndexError).
Proof.
  intros H. unfold translate_file.
  now rewrite skipn_all2 by exact H.
Qed.

(** X10.  The pass over a page always ends, after at most one turn of the
    loop for each line: any allowance of at least that many turns gives
    the same result. *)
Theorem translate_loop_terminates e (lines : list string) :
  exists r, forall fuel,
    List.length lines <= fuel ->
    translate_loop e fuel lines (-1) = Some r.
Proof.
  destruct (translate_loop_total e (List.length lines) lines (-1)) as (r & H);
    [lia|lia|].
  exists r. intros fuel Hf. exact (translate_loop_more e _ _ _ _ _ H Hf).
Qed.

(** X11.  [translate_file] returns one line for every line of the page after
    the four header lines, but for the title line when it is dropped. *)
Theorem translate_file_length e (file_lines : list string) log out :
  translate_file e file_lines = Some (log, inr out) ->
  4 < List.length file_lines
  /\ (List.length out = List.length file_lines - 4
      \/ List.length out = List.length file_lines - 5).
Proof.
  destruct (translate_file_lines e file_lines) as (lines & -> & Hl).
  destruct (skipn 4 file_lines) as [|line0 rest] eqn:E; [discriminate|].
  intros H. apply translate_loop_result in H as [Hlen _]; [|lia].
  assert (H4 : List.length (skipn 4 file_lines) = List.length file_lines - 4)
    by apply length_skipn.
  assert (H5 : List.length (skipn 5 file_lines) = List.length file_lines - 5)
    by apply length_skipn.
  rewrite E in H4. simpl in H4. split; [lia|].
  destruct Hl as [->| ->]; [left|right]; simpl in *; lia.
Qed.

(** X12.  When [translate_file] ends with an exception, that is the
    [IndexError] of a page without lines or of a code block without
    terminator, or the exception of a line's translation; in the latter
    case the last thing printed names the file and the line. *)
Theorem translate_file_error e (file_lines : list string) log err :
  translate_file e file_lines = Some (log, inl err) ->
  err = IndexError
  \/ exists log0 log1 line,
       log = (log0 ++ log1 ++ [ErrorInFile (old_filepath e) line])%list
       /\ translate_line e line = (log1, inl err).
Proof.
  destruct (translate_file_lines e file_lines) as (lines & -> & _).
  destruct (skipn 4 file_lines) as [|line0 rest].
  - intros H. injection H as _ <-. now left.
  - apply translate_loop_error.
Qed.

(** *** Code blocks *)

Lemma fence_scan_body body term post j0 :
  Forall (fun l => startswith l "}}}" = false) body ->
  startswith term "}}}" = true ->
  fence_scan (body ++ term :: post)%list j0 = Some (j0 + List.length body).
Proof.
  intros Hb Ht. revert j0. induction Hb as [|l body Hl _ IH]; intros j0; simpl.
  - rewrite Ht. f_equal. lia.
  - rewrite Hl, IH. f_equal. lia.
Qed.

(** The pass over lines none of which opens a code block. *)
Lemma translate_loop_plain e : forall pre done rest fuel log out,
  Forall (fun l => startswith l "{{{code:" = false) pre ->
  translate_loop e fuel (done ++ pre ++ rest)%list
    (Z.of_nat (List.length done) - 1) = Some (log, inr out) ->
  exists pre' fuel' log',
    List.length pre' = List.length pre
    /\ translate_loop e fuel' (done ++ pre' ++ rest)%list
         (Z.of_nat (List.length done + List.length pre) - 1)
       = Some (log', inr out).
Proof.
  induction pre as [|l pre IH]; intros done rest fuel log out Hpre H.
  - exists [], fuel, log. rewrite Nat.add_0_r. auto.
  - apply Forall_cons in Hpre as [Hl Hpre].
    assert (Hc : (Z.of_nat (List.length done) - 1
                  <? Z.of_nat (List.length (done ++ (l :: pre) ++ rest)%list) - 1)%Z
                 = true).
    { apply Z.ltb_lt. rewrite !List.length_app. simpl. lia. }
    destruct fuel as [|fuel].
    + rewrite translate_loop_zero, Hc in H. discriminate.
    + rewrite translate_loop_unfold, Hc in H. cbv zeta in H.
      replace (Z.of_nat (List.length done) - 1 + 1)%Z
        with (Z.of_nat (List.length done)) in H by lia.
      rewrite Nat2Z.id in H.
      assert (Hlk : (done ++ (l :: pre) ++ rest)%list !! List.length done = Some l).
      { rewrite lookup_app_r by lia. now rewrite Nat.sub_diag. }
      rewrite Hlk, Hl in H.
      destruct (translate_line e l) as [lg [err|l']]; [discriminate|].
      unfold set_line in H.
      replace (<[List.length done := l']> (done ++ (l :: pre) ++ rest)%list)
        with ((done ++ [l']) ++ pre ++ rest)%list in H.
      2:{ rewrite insert_app_r_alt by lia. rewrite Nat.sub_diag. simpl.
          now rewrite <- app_assoc. }
      destruct (translate_loop e fuel _ _) as [[lg' r]|] eqn:Hrec; [|discriminate].
      injection H as _ ->.
      replace (Z.of_nat (List.length done))
        with (Z.of_nat (List.length (done ++ [l'])) - 1)%Z in Hrec
        by (rewrite List.length_app; simpl; lia).
      apply IH in Hrec as (pre' & fuel' & log' & Hlen & Hrec); [|exact Hpre].
      exists (l' :: pre'), fuel', log'. split; [simpl; lia|].
      rewrite List.length_app in Hrec. simpl in Hrec.
      replace (List.length done + List.length (l :: pre))
        with (List.length done + 1 + List.length pre) by (simpl; lia).
      rewrite <- app_assoc in Hrec. exact Hrec.
Qed.

(** X14.  A code block the pass reaches: when the lines before its opener
    open no block and the pass ends normally, the opener has become the
    fence with the language tag, the lines of the block are as they
    were, the terminator has become the closing fence, and the line
    after the terminator is as it was: it is neither translated nor
    read as an opener. *)
Theorem code_block_verbatim e fuel (pre body post : list string)
    (opener term : string) log out :
  Forall (fun l => startswith l "{{{code:" = false) pre ->
  startswith opener "{{{code:" = true ->
  Forall (fun l => startswith l "}}}" = false) body ->
  startswith term "}}}" = true ->
  translate_loop e fuel (pre ++ opener :: body ++ term :: post)%list (-1)
  = Some (log, inr out) ->
  out !! List.length pre = Some (fence_open opener)
  /\ (forall k, k < List.length body ->
                out !! (List.length pre + 1 + k) = body !! k)
  /\ out !! (List.length pre + 1 + List.length body) = Some ("```" ++ nl)
  /\ out !! (List.length pre + 1 + List.length body + 1) = post !! 0.
Proof.
  intros Hpre Hop Hbody Hterm H.
  apply (translate_loop_plain e pre [] (opener :: body ++ term :: post)%list) in H
    as (D & fuel' & log' & HD & H); [|exact Hpre].
  simpl in H. rewrite <- HD in H |- *. clear HD Hpre pre.
  assert (Hc : (Z.of_nat (List.length D) - 1
                <? Z.of_nat (List.length (D ++ opener :: body ++ term :: post)%list) - 1)%Z
               = true).
  { apply Z.ltb_lt. rewrite !List.length_app. simpl. lia. }
  destruct fuel' as [|fuel'].
  { rewrite translate_loop_zero, Hc in H. discriminate. }
  rewrite translate_loop_unfold, Hc in H. cbv zeta in H.
  replace (Z.of_nat (List.length D) - 1 + 1)%Z
    with (Z.of_nat (List.length D)) in H by lia.
  rewrite Nat2Z.id in H.
  assert (Hlk : (D ++ opener :: body ++ term :: post)%list !! List.length D
                = Some opener).
  { rewrite lookup_app_r by lia. now rewrite Nat.sub_diag. }
  rewrite Hlk, Hop in H. unfold set_line in H.
  assert (E1 : <[List.length D := fence_open opener]>
                 (D ++ opener :: body ++ term :: post)%list
               = (D ++ fence_open opener :: body ++ term :: post)%list).
  { rewrite insert_app_r_alt by lia. now rewrite Nat.sub_diag. }
  rewrite E1 in H.
  rewrite drop_app_length in H.
  assert (Es : fence_scan (fence_open opener :: body ++ term :: post)%list 0
               = Some (S (List.length body))).
  { simpl. rewrite (fence_scan_body body term post 1 Hbody Hterm).
    reflexivity. }
  rewrite Es in H.
  assert (E2 : <[List.length D + S (List.length body) := "```" ++ nl]>
                 (D ++ fence_open opener :: body ++ term :: post)%list
               = (D ++ fence_open opener :: body
                    ++ ("```" ++ nl)%string :: post)%list).
  { rewrite insert_app_r_alt by lia.
    replace (List.length D + S (List.length body) - List.length D)
      with (S (List.length body)) by lia.
    simpl. f_equal. f_equal.
    rewrite insert_app_r_alt by lia. now rewrite Nat.sub_diag. }
  rewrite E2 in H.
  apply translate_loop_result in H as [_ Hk]; [|lia].
  repeat split.
  - rewrite Hk by lia. rewrite lookup_app_r by lia. now rewrite Nat.sub_diag.
  - intros k Hlt. rewrite Hk by lia. rewrite lookup_app_r by lia.
    replace (List.length D + 1 + k - List.length D) with (S k) by lia.
    simpl. now rewrite lookup_app_l by lia.
  - rewrite Hk by lia. rewrite lookup_app_r by lia.
    replace (List.length D + 1 + List.length body - List.length D)
      with (S (List.length body)) by lia.
    simpl. rewrite lookup_app_r by lia. now rewrite Nat.sub_diag.
  - rewrite Hk by lia. rewrite lookup_app_r by lia.
    replace (List.length D + 1 + List.length body + 1 - List.length D)
      with (S (List.length body + 1)) by lia.
    simpl. rewrite lookup_app_r by lia.
    replace (List.length body + 1 - List.length body) with 1 by lia.
    reflexivity.
Qed.

(** *** What link resolution prints, and when it raises *)

Lemma foldM_silent {A B} (f : A -> B -> M A) l a :
  (forall a x, fst (f a x) = []) -> fst (foldM f l a) = [].
Proof.
  intros Hf. revert a. induction l as [|x l IH]; intros a; [reflexivity|].
  simpl. apply bind_silent; [apply Hf|apply IH].
Qed.

(** X15.  The loop over the link tokens of a line prints nothing, whatever
    the tokens are and whether or not their targets are found. *)
Theorem links_never_print e (line : string) (tokens : list captures) :
  fst (foldM (link_step e) tokens line) = [].
Proof. apply foldM_silent. intros a x. apply link_step_silent. Qed.

Lemma link_split_plain internal :
  has_char "|" internal = false ->
  link_split internal = ret (internal, internal).
Proof. unfold link_split. now intros ->. Qed.


(** X17.  A link to [./REST] or [.\REST] whose attachment is not a key of the
    attachment mapping raises [KeyError].  The key looked up is made of
    the notebook directory, the title path of the page and [REST]. *)
Theorem relative_link_missing_attachment e (line : string) (m : captures)
    (rest : string) :
  group 2 m = "./" ++ rest \/ group 2 m = ".\" ++ rest ->
  has_char "|" rest = false ->
  files e !! joinpath (fl e) (joinpath (fl e) (zim_dir e) (page_path e)) rest
  = None ->
  link_step e line m = raise KeyError.
Proof.
  intros Hm Hbar Hk. unfold link_step, link_target.
  destruct Hm as [-> | ->];
    (rewrite link_split_plain by (rewrite has_char_app, Hbar; reflexivity));
    rewrite bind_ret.
  - change ("./" ++ rest) with (String "." (String "/" rest)).
    unfold link_wikipedia, link_prefix.
    cbn [startswith Ascii.eqb Bool.eqb andb orb sdrop].
    rewrite !startswith_nil. cbn [orb].
    unfold getitem. rewrite Hk. reflexivity.
  - change (".\" ++ rest) with (String "." (String "\" rest)).
    unfold link_wikipedia, link_prefix.
    cbn [startswith Ascii.eqb Bool.eqb andb orb sdrop].
    rewrite !startswith_nil. cbn [orb].
    unfold getitem. rewrite Hk. reflexivity.
Qed.

(** *** Embeds of attachments of the page *)

(** X18.  The embed of [./REST] or [.\REST], without options, of an
    attachment the mapping has: the token becomes the reference to the
    attachment's destination, written from the directory resolved
    attachments are expressed from.  The key looked up is made of the page's own path
    without its extension and [REST]. *)
Theorem embed_attachment_resolved e (line : string) (z : option path)
    (m : captures) (rest : string) (rel folder dest r : path) :
  group 2 m = "./" ++ rest \/ group 2 m = ".\" ++ rest ->
  has_char "?" rest = false ->
  relative_to (old_filepath e) (zim_dir e) = Some rel ->
  with_suffix rel "" = Some folder ->
  files e !! joinpath (fl e) (zim_dir e ++ folder)%list rest = Some dest ->
  relative_to dest (attachment_base e) = Some r ->
  embed_step e (line, z) m
  = ret (replace_first (group 1 m) ("![[" ++ path_str (fl e) r ++ "]]") line,
         Some (joinpath (fl e) (zim_dir e ++ folder)%list rest)).
Proof.
  intros Hm Hq Hrel Hf Hk Hr. unfold embed_step.
  destruct Hm as [-> | ->];
    [change ("./" ++ rest) with (String "." (String "/" rest))
    |change (".\" ++ rest) with (String "." (String "\" rest))];
  cbn [has_char Ascii.eqb Bool.eqb andb orb]; rewrite Hq, bind_ret;
  cbn [startswith Ascii.eqb Bool.eqb andb orb sdrop]; rewrite bind_ret;
  cbn [startswith Ascii.eqb Bool.eqb andb orb sdrop];
  rewrite ?startswith_nil; cbn [orb];
  unfold embed_relative; rewrite Hrel; simpl or_raise; rewrite bind_ret;
  rewrite Hf; simpl or_raise; rewrite bind_ret;
  unfold getitem; rewrite Hk, bind_ret, Hr; simpl or_raise;
  rewrite !bind_ret; reflexivity.
Qed.

(** X19.  The embed of [./REST] or [.\REST] of an attachment that is not a
    key of the attachment mapping raises [KeyError]. *)
Theorem embed_missing_attachment e (line : string) (z : option path)
    (m : captures) (rest : string) (rel folder : path) :
  group 2 m = "./" ++ rest \/ group 2 m = ".\" ++ rest ->
  has_char "?" rest = false ->
  relative_to (old_filepath e) (zim_dir e) = Some rel ->
  with_suffix rel "" = Some folder ->
  files e !! joinpath (fl e) (zim_dir e ++ folder)%list rest = None ->
  embed_step e (line, z) m = raise KeyError.
Proof.
  intros Hm Hq Hrel Hf Hk. unfold embed_step.
  destruct Hm as [-> | ->];
    [change ("./" ++ rest) with (String "." (String "/" rest))
    |change (".\" ++ rest) with (String "." (String "\" rest))];
  cbn [has_char Ascii.eqb Bool.eqb andb orb]; rewrite Hq, bind_ret;
  cbn [startswith Ascii.eqb Bool.eqb andb orb sdrop]; rewrite bind_ret;
  cbn [startswith Ascii.eqb Bool.eqb andb orb sdrop];
  rewrite ?startswith_nil; cbn [orb];
  unfold embed_relative; rewrite Hrel; simpl or_raise; rewrite bind_ret;
  rewrite Hf; simpl or_raise; rewrite bind_ret;
  unfold getitem; rewrite Hk; reflexivity.
Qed.

(** *** Titles *)

(** X20.  The title of a page and its title path hold no underscore. *)
Theorem title_without_underscore fl (filepath zim_dir : path) :
  has_char "_" (zim_filepath_to_title fl filepath) = false
  /\ has_char "_" (zim_filepath_to_titlepath fl filepath zim_dir) = false.
Proof.
  unfold zim_filepath_to_title, zim_filepath_to_titlepath.
  split; apply has_char_replaced; discriminate.
Qed.

(** *** Headings *)

Lemma match_here_bol r pos s :
  pos <> 0 -> match_here (Seq Bol r) pos s = None.
Proof.
  intros H. unfold match_here. cbn [mtch].
  destruct (Nat.eqb_spec pos 0); [contradiction|reflexivity].
Qed.

(** A pattern that starts with [^] matches nowhere but at the start. *)
Lemma search_bol_none r pos s :
  pos <> 0 -> search_from (Seq Bol r) pos s = None.
Proof.
  revert pos. induction s as [|c s IH]; intros pos H;
    rewrite search_from_unfold, match_here_bol by assumption;
    [reflexivity|].
  apply IH. lia.
Qed.

Lemma sub_from_bol_none fuel r tmpl count pos s :
  pos <> 0 -> sub_from fuel (Seq Bol r) tmpl count pos s = s.
Proof.
  intros H. destruct fuel as [|fuel]; [reflexivity|]. simpl.
  destruct (room count); [|reflexivity].
  now rewrite search_bol_none.
Qed.

(** [re.sub] of [^] and a literal. *)
Lemma sub_anchored_lit t tmpl s :
  t <> "" ->
  sub (Seq Bol (lit t)) tmpl s
  = if startswith s t
    then expand tmpl [] ++ sdrop (String.length t) s
    else s.
Proof.
  intros Ht. unfold sub.
  change (sub_from (S (String.length s)) (Seq Bol (lit t)) tmpl None 0 s)
    with (match search_from (Seq Bol (lit t)) 0 s with
          | None => s
          | Some f =>
              stake (f_start f - 0) s ++ expand tmpl (f_caps f) ++
              (if Nat.eqb (f_end f) (f_start f)
               then match f_rest f with
                    | String c t0 =>
                        String c (sub_from (String.length s) (Seq Bol (lit t))
                                    tmpl (less None) (S (f_end f)) t0)
                    | "" => ""
                    end
               else sub_from (String.length s) (Seq Bol (lit t)) tmpl
                      (less None) (f_end f) (f_rest f))
          end).
  rewrite search_from_unfold. unfold match_here. cbn [mtch Nat.eqb].
  rewrite mtch_lit.
  destruct (startswith s t).
  - cbn [f_start f_end f_rest f_caps]. simpl stake.
    destruct t as [|a t]; [congruence|].
    cbn [String.length Nat.add Nat.eqb].
    rewrite sub_from_bol_none by discriminate. reflexivity.
  - destruct s as [|c s]; [reflexivity|].
    now rewrite search_bol_none.
Qed.

Lemma startswith_cons a b s p :
  startswith (String b s) (String a p) = Ascii.eqb a b && startswith s p.
Proof. reflexivity. Qed.

(** A greedy repetition takes the whole run when the match goes on
    from its end. *)
Lemma rep_greedy_run {A} cls lo pos run rest
    (k : nat -> string -> option A) r :
  all_chars cls run = true -> lo <= String.length run ->
  match rest with String c _ => cls c = false | "" => True end ->
  k (pos + String.length run) rest = Some r ->
  rep cls true lo None pos (run ++ rest) k = Some r.
Proof.
  revert lo pos. induction run as [|c run IH]; intros lo pos Hall Hlo Hrest Hk.
  - simpl in Hlo. assert (lo = 0) by lia. subst lo.
    rewrite app_nil_l_s. simpl in Hk. rewrite Nat.add_0_r in Hk.
    destruct rest as [|c rest]; simpl; [exact Hk|].
    now rewrite Hrest, Hk.
  - simpl in Hall. apply andb_true_iff in Hall as [Hc Hall].
    rewrite app_cons. simpl in Hk, Hlo.
    rewrite Nat.add_succ_r in Hk.
    destruct lo as [|lo]; simpl; rewrite Hc; simpl.
    + now rewrite (IH 0 (S pos) Hall ltac:(lia) Hrest Hk).
    + apply IH; [exact Hall|lia|exact Hrest|exact Hk].
Qed.

Lemma all_chars_repeat c n : all_chars (ch c) (repeat_char c n) = true.
Proof.
  induction n as [|n IH]; [reflexivity|]. simpl.
  unfold ch at 1. now rewrite Ascii.eqb_refl.
Qed.

Lemma length_repeat c n : String.length (repeat_char c n) = n.
Proof. induction n as [|n IH]; simpl; congruence. Qed.

Lemma all_chars_non c s : has_char c s = false -> all_chars (non c) s = true.
Proof.
  induction s as [|x s IH]; simpl; [reflexivity|].
  intros H. apply orb_false_iff in H as [H1 H2].
  unfold non at 1. rewrite H1. simpl. now apply IH.
Qed.

(** The first heading pattern on a heading line. *)
Lemma heading_tail_match n m body tail :
  1 <= n -> 1 <= m -> body <> "" -> has_char "=" body = false ->
  tail = "" \/ tail = nl ->
  match_here (fst (List.hd (Eps, []) heading_rewrites)) 0
    (repeat_char "=" n ++ body ++ repeat_char "=" m ++ tail)
  = Some (Found 0 (n + String.length body + m) tail
            [(2, body); (1, repeat_char "=" n)]).
Proof.
  intros Hn Hm Hb Hnb Ht.
  assert (Heol : at_eol tail = true) by (destruct Ht as [-> | ->]; reflexivity).
  assert (Htl : match tail with String c _ => ch "=" c = false | "" => True end)
    by (destruct Ht as [-> | ->]; [exact I|reflexivity]).
  unfold match_here.
  change (fst (List.hd (Eps, []) heading_rewrites))
    with (Seq Bol (Seq (Grp 1 (plus (ch "=")))
            (Seq (Grp 2 (plus (non "=")))
               (Seq (plus (ch "=")) (Seq Eol Eps))))).
  cbn [mtch Nat.eqb plus].
  set (s := repeat_char "=" n ++ body ++ repeat_char "=" m ++ tail).
  apply rep_greedy_run.
  - apply all_chars_repeat.
  - now rewrite length_repeat.
  - destruct body as [|b body]; [congruence|]. rewrite app_cons.
    simpl in Hnb. apply orb_false_iff in Hnb as [Hnb _]. exact Hnb.
  - simpl Nat.add. rewrite length_repeat.
    apply rep_greedy_run.
    + now apply all_chars_non.
    + destruct body; [congruence|simpl; lia].
    + destruct m as [|m]; [lia|]. simpl. unfold non. simpl. reflexivity.
    + apply rep_greedy_run.
      * apply all_chars_repeat.
      * now rewrite length_repeat.
      * exact Htl.
      * rewrite length_repeat, Heol. cbn [mtch].
        rewrite !Nat.sub_0_r. unfold s.
        replace (n + String.length body - n) with (String.length body) by lia.
        rewrite stake_app_length.
        rewrite <- (length_repeat "=" n) at 2. rewrite stake_app_length.
        reflexivity.
Qed.

(** The first heading rewrite drops the signs at the end of a heading
    line. *)
Lemma heading_tail_dropped n m body tail :
  1 <= n -> 1 <= m -> body <> "" -> has_char "=" body = false ->
  tail = "" \/ tail = nl ->
  sub (fst (List.hd (Eps, []) heading_rewrites)) [Ref 1; Ref 2]
    (repeat_char "=" n ++ body ++ repeat_char "=" m ++ tail)
  = repeat_char "=" n ++ body ++ tail.
Proof.
  intros Hn Hm Hb Hnb Ht.
  pose proof (heading_tail_match n m body tail Hn Hm Hb Hnb Ht) as Hmatch.
  set (s := repeat_char "=" n ++ body ++ repeat_char "=" m ++ tail) in *.
  set (r := fst (List.hd (Eps, []) heading_rewrites)) in *.
  unfold sub.
  change (sub_from (S (String.length s)) r [Ref 1; Ref 2] None 0 s)
    with (match search_from r 0 s with
          | None => s
          | Some f =>
              stake (f_start f - 0) s ++ expand [Ref 1; Ref 2] (f_caps f) ++
              (if Nat.eqb (f_end f) (f_start f)
               then match f_rest f with
                    | String c t0 =>
                        String c (sub_from (String.length s) r [Ref 1; Ref 2]
                                    (less None) (S (f_end f)) t0)
                    | "" => ""
                    end
               else sub_from (String.length s) r [Ref 1; Ref 2]
                      (less None) (f_end f) (f_rest f))
          end).
  rewrite search_from_unfold, Hmatch.
  cbn [f_start f_end f_rest f_caps]. simpl stake. simpl expand.
  replace (Nat.eqb (n + String.length body + m) 0) with false
    by (symmetry; apply Nat.eqb_neq; lia).
  unfold r.
  change (fst (List.hd (Eps, []) heading_rewrites))
    with (Seq Bol (seq [Grp 1 (plus (ch "=")); Grp 2 (plus (non "="));
                        plus (ch "="); Eol])).
  rewrite sub_from_bol_none by lia.
  now rewrite app_nil_l_s, app_nil_r_s, app_assoc_s.
Qed.

Lemma startswith_eqs n k b rest :
  Ascii.eqb "=" b = false ->
  startswith (repeat_char "=" n ++ String b rest) (repeat_char "=" k)
  = Nat.leb k n.
Proof.
  intros Hb. revert k. induction n as [|n IH]; intros [|k]; try reflexivity.
  - simpl repeat_char. rewrite app_nil_l_s, startswith_cons, Hb. reflexivity.
  - simpl repeat_char. rewrite app_cons, startswith_cons, Ascii.eqb_refl.
    apply IH.
Qed.

Lemma sdrop_eqs n k s :
  k <= n -> sdrop k (repeat_char "=" n ++ s) = repeat_char "=" (n - k) ++ s.
Proof.
  revert k. induction n as [|n IH]; intros [|k] H; try reflexivity; [lia|].
  simpl repeat_char. rewrite app_cons. simpl. apply IH. lia.
Qed.

(** One of the six rewrites of the heading signs, on a line that still
    starts with its signs. *)
Lemma heading_step k hashes n b rest :
  Ascii.eqb "=" b = false -> 1 <= k ->
  sub (Seq Bol (lit (repeat_char "=" k))) [Txt hashes]
    (repeat_char "=" n ++ String b rest)
  = if Nat.leb k n
    then hashes ++ repeat_char "=" (n - k) ++ String b rest
    else repeat_char "=" n ++ String b rest.
Proof.
  intros Hb Hk. rewrite sub_anchored_lit by (destruct k; [lia|discriminate]).
  rewrite startswith_eqs by exact Hb.
  destruct (Nat.leb k n) eqn:E; [|reflexivity].
  apply Nat.leb_le in E. rewrite length_repeat, sdrop_eqs by exact E.
  simpl expand. now rewrite app_nil_r_s.
Qed.

(** And on a line that starts with a hash sign. *)
Lemma heading_step_done t tmpl s :
  sub (Seq Bol (lit (String "=" t))) tmpl (String "#" s) = String "#" s.
Proof. rewrite sub_anchored_lit by discriminate. reflexivity. Qed.

(** The heading rewrites on a heading line of level [n]. *)
Lemma heading_rewritten n m body tail :
  1 <= n <= 6 -> 1 <= m -> body <> "" -> has_char "=" body = false ->
  tail = "" \/ tail = nl ->
  apply_rewrites heading_rewrites
    (repeat_char "=" n ++ body ++ repeat_char "=" m ++ tail)
  = repeat_char "#" (7 - n) ++ body ++ tail.
Proof.
  intros Hn Hm Hb Hnb Ht.
  unfold apply_rewrites.
  change heading_rewrites
    with (List.hd (Eps, []) heading_rewrites :: List.tl heading_rewrites).
  cbn [fold_left].
  change (snd (List.hd (Eps, []) heading_rewrites)) with [Ref 1; Ref 2].
  rewrite heading_tail_dropped by (assumption || lia).
  change (List.tl heading_rewrites)
    with [ (Seq Bol (lit (repeat_char "=" 6)), [Txt "#"]);
           (Seq Bol (lit (repeat_char "=" 5)), [Txt "##"]);
           (Seq Bol (lit (repeat_char "=" 4)), [Txt "###"]);
           (Seq Bol (lit (repeat_char "=" 3)), [Txt "####"]);
           (Seq Bol (lit (repeat_char "=" 2)), [Txt "#####"]);
           (Seq Bol (lit (repeat_char "=" 1)), [Txt "######"]) ].
  cbn [fold_left fst snd].
  destruct body as [|b body]; [congruence|].
  simpl in Hnb. apply orb_false_iff in Hnb as [Hnb _].
  assert (Hb' : Ascii.eqb "=" b = false) by now rewrite Ascii.eqb_sym.
  rewrite app_cons.
  destruct n as [|[|[|[|[|[|[|n]]]]]]]; try lia;
    repeat (rewrite heading_step by (exact Hb' || lia); cbn [Nat.leb]);
    cbn [Nat.sub repeat_char]; rewrite ?app_cons, ?app_nil_l_s;
    change (repeat_char "=" 5) with (String "=" (repeat_char "=" 4));
    change (repeat_char "=" 4) with (String "=" (repeat_char "=" 3));
    change (repeat_char "=" 3) with (String "=" (repeat_char "=" 2));
    change (repeat_char "=" 2) with (String "=" (repeat_char "=" 1));
    change (repeat_char "=" 1) with (String "=" "");
    rewrite ?heading_step_done; reflexivity.
Qed.

Lemma translate_line_headings_only e line :
  no_later_syntax e (apply_rewrites heading_rewrites line) = true ->
  translate_line e line = ret (apply_rewrites heading_rewrites line).
Proof.
  unfold translate_line. cbv zeta.
  generalize (apply_rewrites heading_rewrites line). clear line. intros line.
  unfold no_later_syntax. intros H.
  apply andb_true_iff in H as [H He]. apply andb_true_iff in H as [H Hl].
  rewrite !forallb_app in H.
  apply andb_true_iff in H as [Hd H]. apply andb_true_iff in H as [Hli Hi].
  apply negb_true_iff in Hl, He.
  rewrite (apply_rewrites_no_match _ _ Hd).
  rewrite (findall_no_match _ _ Hl). simpl foldM. rewrite bind_ret.
  rewrite (findall_no_match _ _ He). simpl foldM. rewrite bind_ret.
  rewrite (apply_rewrites_once_no_match _ _ Hli).
  now rewrite (apply_rewrites_no_match _ _ Hi).
Qed.

(** X21.  A heading line of [n] equal signs, for [n] from 1 to 6, a text
    without equal sign, and equal signs up to the end of the line
    becomes the line of [7 - n] hash signs and the text; the signs at
    the end are dropped.  The text is taken to hold nothing the later
    patterns of the transformation match. *)
Theorem heading_level e (n m : nat) (body tail : string) :
  1 <= n <= 6 -> 1 <= m -> body <> "" -> has_char "=" body = false ->
  tail = "" \/ tail = nl ->
  no_later_syntax e (repeat_char "#" (7 - n) ++ body ++ tail) = true ->
  translate_line e (repeat_char "=" n ++ body ++ repeat_char "=" m ++ tail)
  = ret (repeat_char "#" (7 - n) ++ body ++ tail).
Proof.
  intros Hn Hm Hb Hnb Ht Hlater.
  rewrite translate_line_headings_only;
    rewrite heading_rewritten by assumption; [reflexivity|exact Hlater].
Qed.

(** *** Global attachments: every attachment gets a place of its own *)

Lemma lazy_none_first s :
  all_chars dot s = true -> lazy_digits s = None -> first_digits s = None.
Proof.
  induction s as [|c s IH]; intros Hd Hl; rewrite first_digits_unfold, Hl;
    [reflexivity|].
  simpl in Hd. apply andb_true_iff in Hd as [Hc Hd].
  apply IH; [exact Hd|].
  rewrite lazy_digits_unfold in Hl.
  destruct (digits_dot (String c s)) as [[[d g3] rest]|]; [discriminate|].
  rewrite Hc in Hl.
  destruct (lazy_digits s) as [[[[g1 d] g3] rest]|]; [discriminate|reflexivity].
Qed.

Lemma span_all_chars p s : all_chars p s = true -> span p s = (s, "").
Proof.
  induction s as [|c s IH]; [reflexivity|]. simpl.
  intros H. apply andb_true_iff in H as [Hc Hs]. now rewrite Hc, (IH Hs).
Qed.

(** What follows the match on a string without newline: nothing. *)
Lemma digits_dot_rest s d g3 rest :
  all_chars dot s = true -> digits_dot s = Some (d, g3, rest) -> rest = "".
Proof.
  unfold digits_dot. intros Hs.
  pose proof (span_app is_digit s) as Hsp.
  destruct (span is_digit s) as [[|d0 d'] [|c t]]; try discriminate.
  destruct (ch "." c); [|discriminate].
  cbn [fst snd] in Hsp. rewrite <- Hsp, all_chars_app in Hs.
  apply andb_true_iff in Hs as [_ Hs]. simpl in Hs.
  apply andb_true_iff in Hs as [_ Ht].
  rewrite (span_all_chars dot t Ht).
  destruct t as [|u0 u]; [discriminate|].
  intros H. now injection H as _ _ <-.
Qed.

Lemma lazy_digits_rest s g1 d g3 rest :
  all_chars dot s = true -> lazy_digits s = Some (g1, d, g3, rest) -> rest = "".
Proof.
  revert g1 d g3 rest.
  induction s as [|c s IH]; intros g1 d g3 rest Hs; rewrite lazy_digits_unfold.
  - destruct (digits_dot "") as [[[d' g3'] rest']|] eqn:E; [|discriminate].
    intros H. injection H as _ _ _ <-. exact (digits_dot_rest _ _ _ _ Hs E).
  - destruct (digits_dot (String c s)) as [[[d' g3'] rest']|] eqn:E.
    + intros H. injection H as _ _ _ <-. exact (digits_dot_rest _ _ _ _ Hs E).
    + simpl in Hs. apply andb_true_iff in Hs as [Hc Hs]. rewrite Hc.
      destruct (lazy_digits s) as [[[[g1' d'] g3'] rest']|] eqn:El;
        [|discriminate].
      intros H. injection H as _ _ _ <-. exact (IH _ _ _ _ Hs eq_refl).
Qed.

Section InDirectory.
Variable fl : flavour.
Variable dir : path.
Hypothesis dir_wf : wf_dir fl dir = true.
Hypothesis dir_plain : all_chars dot (dir_prefix fl dir) = true.
Hypothesis dir_no_match : findall re_final_digits (dir_prefix fl dir) = [].

Local Abbreviation P := (dir_prefix fl dir).

Lemma sep_facts :
  is_digit (sep fl) = false /\ ch "." (sep fl) = false /\ dot (sep fl) = true.
Proof. destruct fl; repeat split; reflexivity. Qed.

Lemma dir_prefix_shape : P = "" \/ exists A, P = A ++ String (sep fl) "".
Proof.
  unfold dir_prefix. destruct dir as [|a l]; [now left|]. right.
  exists (join (sep_str fl) (a :: l)). reflexivity.
Qed.

(** Text after a string that ends with a separator does not change
    whether the pattern's tail matches at the head of the string. *)
Lemma dd_test_sep A x :
  dd_test ((A ++ String (sep fl) "") ++ x) = dd_test (A ++ String (sep fl) "").
Proof.
  destruct sep_facts as (Hd & Hp & _).
  assert (E : (A ++ String (sep fl) "") ++ x = A ++ String (sep fl) x)
    by now rewrite app_assoc_s, app_cons, app_nil_l_s.
  rewrite E. unfold dd_test.
  destruct (all_chars is_digit A) eqn:EA.
  - rewrite !(span_app_stop is_digit A (sep fl)) by assumption.
    destruct A as [|a A]; [reflexivity|].
    rewrite Hp. now destruct x.
  - rewrite !(span_app_not is_digit A) by assumption.
    destruct (span_not_all_rest is_digit A EA) as (c & r & Er & Hc).
    rewrite Er. cbn [fst snd].
    destruct (fst (span is_digit A)) as [|d0 d]; [reflexivity|].
    rewrite !app_cons.
    destruct r as [|u0 r]; [|now rewrite !app_cons].
    rewrite !app_nil_l_s. reflexivity.
Qed.

Lemma lazy_after_sep A x :
  all_chars dot A = true ->
  (forall a b, A = a ++ b -> dd_test (b ++ String (sep fl) "") = false) ->
  lazy_digits ((A ++ String (sep fl) "") ++ x)
  = match lazy_digits x with
    | Some (g1, d, g3, rest) =>
        Some ((A ++ String (sep fl) "") ++ g1, d, g3, rest)
    | None => None
    end.
Proof.
  destruct sep_facts as (Hd & Hp & Hdot).
  induction A as [|c A IH]; intros HA Hsuf.
  - rewrite !app_nil_l_s. rewrite app_cons, app_nil_l_s.
    rewrite lazy_digits_unfold.
    assert (Hn : digits_dot (String (sep fl) x) = None).
    { apply digits_dot_test. unfold dd_test. rewrite span_cons, Hd.
      reflexivity. }
    rewrite Hn, Hdot.
    destruct (lazy_digits x) as [[[[g1 d] g3] rest]|]; reflexivity.
  - simpl in HA. apply andb_true_iff in HA as [Hc HA].
    rewrite lazy_digits_unfold.
    assert (Hn : digits_dot ((String c A ++ String (sep fl) "") ++ x) = None).
    { apply digits_dot_test. rewrite dd_test_sep.
      apply (Hsuf "" (String c A)). reflexivity. }
    rewrite Hn. rewrite !app_cons. rewrite Hc.
    rewrite IH; [|exact HA|].
    + destruct (lazy_digits x) as [[[[g1 d] g3] rest]|]; reflexivity.
    + intros a b E. apply (Hsuf (String c a) b). rewrite E. reflexivity.
Qed.

(** The match on a name in the directory is the match on the name. *)
Lemma lazy_in_dir x :
  lazy_digits (P ++ x)
  = match lazy_digits x with
    | Some (g1, d, g3, rest) => Some (P ++ g1, d, g3, rest)
    | None => None
    end.
Proof.
  destruct dir_prefix_shape as [E|(A & E)]; rewrite E.
  - rewrite app_nil_l_s.
    destruct (lazy_digits x) as [[[[g1 d] g3] rest]|]; reflexivity.
  - apply lazy_after_sep.
    + pose proof dir_plain as H. rewrite E, all_chars_app in H.
      now apply andb_true_iff in H as [? _].
    + intros a b Eab.
      apply (first_none_dd a). rewrite <- app_assoc_s, <- Eab, <- E.
      now apply findall_nil_first.
Qed.

Lemma first_in_dir x :
  all_chars dot x = true ->
  first_digits (P ++ x)
  = match lazy_digits x with
    | Some (g1, d, g3, rest) => Some (P ++ g1, d, g3, rest)
    | None => None
    end.
Proof.
  intros Hx. rewrite first_digits_unfold, lazy_in_dir.
  destruct (lazy_digits x) as [[[[g1 d] g3] rest]|] eqn:El; [reflexivity|].
  assert (H : first_digits (P ++ x) = None).
  { apply lazy_none_first.
    - rewrite all_chars_app, dir_plain, Hx. reflexivity.
    - rewrite lazy_in_dir, El. reflexivity. }
  rewrite first_digits_unfold, lazy_in_dir, El in H. exact H.
Qed.

Lemma part_wf_long n :
  2 <= String.length n -> sep_free fl n = true -> part_wf fl n = true.
Proof.
  intros Hl Hs. unfold part_wf, part_ok. rewrite Hs.
  rewrite !eqb_length_neq by (simpl; lia). reflexivity.
Qed.

(** One turn of the allocator on a name in the directory gives a name
    in the directory. *)
Lemma next_name_in_dir n :
  part_wf fl n = true -> all_chars dot n = true ->
  exists n', next_name fl (P ++ n) = P ++ n'
             /\ part_wf fl n' = true /\ all_chars dot n' = true.
Proof.
  intros Hw Hd. rewrite next_name_spec, first_in_dir by exact Hd.
  assert (Hsf : sep_free fl n = true)
    by (unfold part_wf in Hw; now apply andb_true_iff in Hw as [_ ?]).
  destruct (lazy_digits n) as [[[[g1 d] g3] rest]|] eqn:El.
  - pose proof (lazy_digits_rest _ _ _ _ _ Hd El) as ->.
    destruct (lazy_digits_struct _ _ _ _ _ El) as (En & Hgd & Hge).
    rewrite app_nil_r_s in En.
    pose proof (str_of_N_good (int_of_digits d + 1)) as [Hne Hdig].
    set (d' := str_of_N (int_of_digits d + 1)) in *.
    exists (g1 ++ d' ++ g3). split; [now rewrite app_assoc_s|].
    assert (Hparts : sep_free fl g1 = true /\ sep_free fl g3 = true
                     /\ all_chars dot g1 = true /\ all_chars dot g3 = true).
    { unfold sep_free in *. rewrite En, !all_chars_app in Hsf, Hd.
      apply andb_true_iff in Hsf as [? Hsf]. apply andb_true_iff in Hsf as [_ ?].
      apply andb_true_iff in Hd as [? Hd]. apply andb_true_iff in Hd as [_ ?].
      auto. }
    destruct Hparts as (Hs1 & Hs3 & Hd1 & Hd3).
    split.
    + apply part_wf_long.
      * destruct Hge as (u0 & u & -> & _). rewrite !length_app.
        destruct d'; [congruence|]. simpl. lia.
      * unfold sep_free in *. rewrite !all_chars_app, Hs1, Hs3.
        rewrite (all_chars_impl is_digit _ d' (digit_not_sep fl) Hdig).
        reflexivity.
    + rewrite !all_chars_app, Hd1, Hd3.
      rewrite (all_chars_impl is_digit dot d' digit_is_dot Hdig).
      reflexivity.
  - rewrite (splitext_prefixed fl P n Hsf (dir_prefix_index fl dir)).
    cbn [fst snd].
    exists (numbered (fst (splitext fl n)) (snd (splitext fl n)) 1).
    split; [now rewrite app_assoc_s|].
    split; [now apply numbered_wf|].
    unfold numbered.
    rewrite <- (splitext_app fl n), all_chars_app in Hd.
    apply andb_true_iff in Hd as [H1 H2].
    rewrite !all_chars_app, H1, H2. reflexivity.
Qed.

Lemma candidate_in_dir n k :
  part_wf fl n = true -> all_chars dot n = true ->
  exists n', candidate fl (P ++ n) k = P ++ n'
             /\ part_wf fl n' = true /\ all_chars dot n' = true.
Proof.
  intros Hw Hd. induction k as [|k (n' & E & Hw' & Hd')].
  - exists n. auto.
  - rewrite candidate_succ, E. now apply next_name_in_dir.
Qed.

(** The name the allocator returns reads back as a path in the
    directory, and that path prints as the name. *)
Lemma unique_in_dir E n u :
  part_wf fl n = true -> all_chars dot n = true ->
  make_unique_string fl E (path_str fl (dir ++ [n])%list) = Some u ->
  exists n', parse_path fl u = (dir ++ [n'])%list
             /\ part_wf fl n' = true
             /\ path_str fl (dir ++ [n'])%list = u
             /\ ~ In u E.
Proof.
  intros Hw Hd Hu.
  assert (Hne : forall x, part_wf fl x = true -> x <> "").
  { intros x Hx. unfold part_wf, part_ok in Hx. now destruct x. }
  rewrite path_str_in_dir in Hu by now apply Hne.
  destruct (unique_candidate fl _ _ _ Hu) as (k & -> & Hout & _).
  destruct (candidate_in_dir n k Hw Hd) as (n' & E' & Hw' & Hd').
  exists n'. rewrite E' in *.
  rewrite <- (path_str_in_dir fl dir n') by now apply Hne.
  split; [now apply parse_path_str|].
  split; [exact Hw'|]. split; [reflexivity|].
  rewrite path_str_in_dir by now apply Hne. exact Hout.
Qed.

End InDirectory.

Section Distinct.
Variable fl : flavour.
Variables zim_dir obs_dir : path.
Variable pol : policy.
Hypothesis global_mode : use_global_attachments pol = true.

Local Abbreviation dir := (obs_dir ++ global_attachments_relative_path pol)%list.

Hypothesis dir_wf : wf_dir fl dir = true.
Hypothesis dir_plain : all_chars dot (dir_prefix fl dir) = true.
Hypothesis dir_no_match : findall re_final_digits (dir_prefix fl dir) = [].

(** What holds of the attachment map all along: every destination is
    a name in the attachment directory, and no two keys share one. *)
Let good (d : gmap path path) : Prop :=
  (forall k v, d !! k = Some v ->
               exists n, v = (dir ++ [n])%list /\ part_wf fl n = true)
  /\ (forall k1 k2 v, d !! k1 = Some v -> d !! k2 = Some v -> k1 = k2).

Lemma good_step m m' en :
  (forall r f, en = (r, inr f) ->
               part_wf fl (fe_name f) = true
               /\ all_chars dot (fe_name f) = true) ->
  good (file_map m) ->
  map_entry fl zim_dir obs_dir pol m en = Some m' ->
  good (file_map m').
Proof.
  intros Hen Hg. destruct en as [r [d|f]]; simpl.
  - intros H. injection H as <-. exact Hg.
  - intros H. destruct (is_attachment fl pol f) eqn:Ha.
    + destruct (attachment_step fl zim_dir obs_dir pol global_mode r m m' f Ha H)
        as (u & Hu & ->).
      destruct (Hen r f eq_refl) as [Hw Hd].
      rewrite app_assoc in Hu.
      destruct (unique_in_dir fl dir dir_wf dir_plain dir_no_match _ _ _ Hw Hd Hu)
        as (n' & -> & Hw' & Hstr & Hout).
      assert (Hfresh : forall k, file_map m !! k <> Some (dir ++ [n'])%list).
      { intros k Hk. apply Hout. rewrite <- Hstr. apply in_map.
        apply In_values. eauto. }
      destruct Hg as [Hshape Hinj]. split.
      * intros k v. destruct (decide (source_path zim_dir r f = k)) as [<-|Hne].
        -- rewrite lookup_insert_eq. intros Hv. injection Hv as <-. eauto.
        -- rewrite lookup_insert_ne by assumption. apply Hshape.
      * intros k1 k2 v.
        destruct (decide (source_path zim_dir r f = k1)) as [<-|H1];
          destruct (decide (source_path zim_dir r f = k2)) as [<-|H2];
          rewrite ?lookup_insert_eq, ?lookup_insert_ne by assumption.
        -- reflexivity.
        -- intros Hv Hk. injection Hv as <-. now apply Hfresh in Hk.
        -- intros Hk Hv. injection Hv as <-. now apply Hfresh in Hk.
        -- apply Hinj.
    + apply map_file_cases in H as [_ Hc].
      destruct Hc as [(_ & -> & _)|[(_ & _ & ->)|(Ha' & _)]];
        [exact Hg|exact Hg|congruence].
Qed.

Lemma good_entries ens : forall m m',
  (forall r f, In (r, inr f) ens ->
               part_wf fl (fe_name f) = true
               /\ all_chars dot (fe_name f) = true) ->
  good (file_map m) ->
  map_entries fl zim_dir obs_dir pol ens m = Some m' ->
  good (file_map m').
Proof.
  induction ens as [|en ens IH]; intros m m' Hens Hg; simpl.
  - intros H. now injection H as <-.
  - destruct (map_entry fl zim_dir obs_dir pol m en) as [m1|] eqn:E;
      [|discriminate].
    apply IH.
    + intros r f Hin. apply (Hens r f). now right.
    + apply (good_step m m1 en); [|exact Hg|exact E].
      intros r f ->. apply (Hens r f). now left.
Qed.

Lemma good_walk walk m :
  (forall w f, In w walk -> In f (w_files w) ->
               part_wf fl (fe_name f) = true
               /\ all_chars dot (fe_name f) = true) ->
  map_zim_dir_to_obsidian_dir fl zim_dir obs_dir pol walk = Some m ->
  good (file_map m).
Proof.
  unfold map_zim_dir_to_obsidian_dir. rewrite map_walk_entries.
  intros Hw. apply good_entries.
  - intros r f Hin. apply in_entries in Hin as (w & Hin & _ & Hf). eauto.
  - split; intros *; simpl; rewrite lookup_empty; discriminate.
Qed.

End Distinct.

(** X25.  Under global-attachment mode no two attachments are mapped to the
    same destination, so no copy overwrites another.  The destination
    root and the attachment folder are taken to be written without
    newline and without a digit run directly followed by a dot and a
    further character, the file names to be single components without
    newline. *)
Theorem global_attachments_distinct fl zim_dir obs_dir pol walk m :
  let dir := (obs_dir ++ global_attachments_relative_path pol)%list in
  use_global_attachments pol = true ->
  wf_dir fl dir = true ->
  all_chars dot (dir_prefix fl dir) = true ->
  findall re_final_digits (dir_prefix fl dir) = [] ->
  (forall w f, In w walk -> In f (w_files w) ->
               part_wf fl (fe_name f) = true
               /\ all_chars dot (fe_name f) = true) ->
  map_zim_dir_to_obsidian_dir fl zim_dir obs_dir pol walk = Some m ->
  forall k1 k2 v,
    file_map m !! k1 = Some v -> file_map m !! k2 = Some v -> k1 = k2.
Proof.
  intros dir Hg Hwf Hpl Hnm Hw Hm.
  exact (proj2 (good_walk fl zim_dir obs_dir pol Hg Hwf Hpl Hnm walk m Hw Hm)).
Qed.

(** X26.  Under the same conditions every attachment is mapped to a file
    directly in the global attachment folder. *)
Theorem global_attachments_in_folder fl zim_dir obs_dir pol walk m :
  let dir := (obs_dir ++ global_attachments_relative_path pol)%list in
  use_global_attachments pol = true ->
  wf_dir fl dir = true ->
  all_chars dot (dir_prefix fl dir) = true ->
  findall re_final_digits (dir_prefix fl dir) = [] ->
  (forall w f, In w walk -> In f (w_files w) ->
               part_wf fl (fe_name f) = true
               /\ all_chars dot (fe_name f) = true) ->
  map_zim_dir_to_obsidian_dir fl zim_dir obs_dir pol walk = Some m ->
  forall k v,
    file_map m !! k = Some v ->
    exists name, v = (dir ++ [name])%list /\ part_wf fl name = true.
Proof.
  intros dir Hg Hwf Hpl Hnm Hw Hm.
  exact (proj1 (good_walk fl zim_dir obs_dir pol Hg Hwf Hpl Hnm walk m Hw Hm)).
Qed.

(** *** The loop of the legacy translator *)

Section Legacy.
Variable rewrite_line : string -> string.

Lemma legacy_loop_unfold fuel text i :
  legacy_loop rewrite_line (S fuel) text i
  = match text !! i with
    | None => Some (inr text)
    | Some raw =>
        let line := rewrite_line raw in
        if startswith line "{{{code:" then
          let text := set_line i (fence_open line) text in
          match fence_scan (skipn i text) 0 with
          | None => Some (inl IndexError)
          | Some j =>
              legacy_loop rewrite_line fuel
                (set_line (i + j) ("```" ++ nl) text) (i + j + 1)
          end
        else legacy_loop rewrite_line fuel (set_line i line text) (i + 1)
    end.
Proof. reflexivity. Qed.

Lemma legacy_unterminated_from fuel : forall text p k raw,
  p <= k -> k - p < fuel ->
  text !! k = Some raw ->
  startswith (rewrite_line raw) "{{{code:" = true ->
  startswith raw "}}}" = false ->
  (forall j line, k < j -> text !! j = Some line ->
                  startswith line "}}}" = false) ->
  legacy_loop rewrite_line fuel text p = Some (inl IndexError).
Proof.
  induction fuel as [|fuel IH]; intros text p k raw Hpk Hfuel Hk Hop Hraw Hafter;
    [lia|].
  pose proof (lookup_lt_Some _ _ _ Hk) as Hlen.
  rewrite legacy_loop_unfold.
  destruct (text !! p) as [rawp|] eqn:Hp.
  2:{ apply lookup_ge_None in Hp. lia. }
  cbv zeta. unfold set_line.
  destruct (startswith (rewrite_line rawp) "{{{code:") eqn:Eline.
  - destruct (fence_scan _ 0) as [j|] eqn:Escan; [|reflexivity].
    apply fence_scan_Some in Escan as (_ & t & Ht & Hterm).
    rewrite Nat.sub_0_r, lookup_drop in Ht.
    assert (Hj : j <> 0).
    { intros ->. rewrite Nat.add_0_r, list_lookup_insert_eq in Ht
        by (apply lookup_lt_Some in Hp; lia).
      injection Ht as <-. now rewrite fence_open_not_terminator in Hterm. }
    rewrite list_lookup_insert_ne in Ht by lia.
    assert (Hlt : p + j < k).
    { destruct (Nat.lt_trichotomy (p + j) k) as [H|[H|H]]; [exact H| |].
      - rewrite H, Hk in Ht. injection Ht as <-. congruence.
      - rewrite (Hafter _ _ H Ht) in Hterm. discriminate. }
    apply (IH _ (p + j + 1) k raw); try lia; try assumption.
    + rewrite !list_lookup_insert_ne by lia. exact Hk.
    + intros j' l Hj' Hl. rewrite !list_lookup_insert_ne in Hl by lia. eauto.
  - assert (Hpk' : p < k).
    { destruct (Nat.eq_dec p k) as [->|]; [|lia]. congruence. }
    apply (IH _ (p + 1) k raw); try lia; try assumption.
    + rewrite list_lookup_insert_ne by lia. exact Hk.
    + intros j' l Hj' Hl. rewrite list_lookup_insert_ne in Hl by lia. eauto.
Qed.

End Legacy.

(** X27.  In the loop of the legacy translator every line that, once its
    markup is rewritten, opens a code block and has no line starting
    with the terminator after it ends the translation with
    [IndexError]: this loop looks at every line outside a code block,
    also the one after a terminator. *)
Theorem legacy_unterminated_fence (rewrite_line : string -> string)
    (text : list string) (k : nat) (raw : string) :
  text !! k = Some raw ->
  startswith (rewrite_line raw) "{{{code:" = true ->
  startswith raw "}}}" = false ->
  (forall j line, k < j -> text !! j = Some line ->
                  startswith line "}}}" = false) ->
  forall fuel, List.length text <= fuel ->
    legacy_loop rewrite_line fuel text 0 = Some (inl IndexError).
Proof.
  intros Hk Hop Hraw Hafter fuel Hf.
  pose proof (lookup_lt_Some _ _ _ Hk) as Hlen.
  apply (legacy_unterminated_from rewrite_line fuel text 0 k raw);
    try assumption; lia.
Qed.

(** *** Checkbox items *)

(** The marker pattern at the start of a line: the white space, then
    the marker. *)
Lemma marker_match a t indent u :
  is_space a = false -> all_chars is_space indent = true ->
  match u with String c _ => is_space c = false | "" => True end ->
  match_here (re_marker (String a t)) 0 (indent ++ u)
  = if startswith u (String a t)
    then Some (Found 0 (String.length indent + String.length (String a t))
                 (sdrop (String.length (String a t)) u) [(1, indent)])
    else None.
Proof.
  intros Ha Hi Hu. unfold match_here, re_marker.
  change (seq [Bol; Grp 1 (star is_space); lit (String a t)])
    with (Seq Bol (Seq (Grp 1 (star is_space)) (Seq (lit (String a t)) Eps))).
  cbn [mtch Nat.eqb star].
  rewrite rep_greedy_stop.
  - assert (Hsp : span is_space (indent ++ u) = (indent, u)).
    { destruct u as [|c u].
      - rewrite app_nil_r_s. now apply span_all_chars.
      - now apply span_app_stop. }
    rewrite Hsp. cbn [fst snd]. rewrite mtch_lit.
    destruct (startswith u (String a t)); [|reflexivity].
    cbn [mtch]. rewrite Nat.sub_0_r, Nat.add_0_l, stake_app_length.
    reflexivity.
  - intros pos' c s' Hc. rewrite mtch_lit, startswith_cons.
    destruct (Ascii.eqb_spec a c) as [->|]; [congruence|reflexivity].
Qed.

(** [re.sub] of a marker pattern, with [count=1]. *)
Lemma marker_sub a t tmpl indent u :
  is_space a = false -> all_chars is_space indent = true ->
  match u with String c _ => is_space c = false | "" => True end ->
  sub_count (re_marker (String a t)) tmpl (indent ++ u) 1
  = if startswith u (String a t)
    then expand tmpl [(1, indent)] ++ sdrop (String.length (String a t)) u
    else indent ++ u.
Proof.
  intros Ha Hi Hu. unfold sub_count.
  set (s := indent ++ u).
  change (sub_from (S (String.length s)) (re_marker (String a t)) tmpl (Some 1) 0 s)
    with (match search_from (re_marker (String a t)) 0 s with
          | None => s
          | Some f =>
              stake (f_start f - 0) s ++ expand tmpl (f_caps f) ++
              (if Nat.eqb (f_end f) (f_start f)
               then match f_rest f with
                    | String c t0 =>
                        String c (sub_from (String.length s)
                                    (re_marker (String a t)) tmpl
                                    (less (Some 1)) (S (f_end f)) t0)
                    | "" => ""
                    end
               else sub_from (String.length s) (re_marker (String a t)) tmpl
                      (less (Some 1)) (f_end f) (f_rest f))
          end).
  rewrite search_from_unfold. unfold s.
  rewrite marker_match by assumption.
  destruct (startswith u (String a t)).
  - cbn [f_start f_end f_rest f_caps]. simpl stake.
    replace (Nat.eqb (String.length indent + String.length (String a t)) 0)
      with false by (symmetry; apply Nat.eqb_neq; simpl; lia).
    rewrite app_nil_l_s. f_equal.
    destruct (String.length (indent ++ u)); reflexivity.
  - destruct (indent ++ u) as [|c r]; [reflexivity|].
    unfold re_marker.
    change (seq [Bol; Grp 1 (star is_space); lit (String a t)])
      with (Seq Bol (seq [Grp 1 (star is_space); lit (String a t)])).
    now rewrite search_bol_none.
Qed.

Lemma list_rewrites_markers :
  list_rewrites
  = [ (re_marker "[*]", [Ref 1; Txt "- [*]"]);
      (re_marker "[x]", [Ref 1; Txt "- [x]"]);
      (re_marker "[>]", [Ref 1; Txt "- [>]"]);
      (re_marker "[ ]", [Ref 1; Txt "- [ ]"]) ].
Proof. reflexivity. Qed.

(** The list rewrites on a checkbox item. *)
Lemma checkbox_rewritten (indent rest : string) (c : ascii) :
  In c ["*"; "x"; ">"; " "]%char ->
  all_chars is_space indent = true ->
  apply_rewrites_once list_rewrites (indent ++ String "[" (String c (String "]" rest)))
  = indent ++ "- " ++ String "[" (String c (String "]" rest)).
Proof.
  intros Hc Hi. rewrite list_rewrites_markers. unfold apply_rewrites_once.
  cbn [fold_left fst snd].
  assert (Hb : is_space "[" = false) by reflexivity.
  assert (Hm : is_space "-" = false) by reflexivity.
  destruct Hc as [<-|[<-|[<-|[<-|[]]]]];
    repeat (rewrite marker_sub by (assumption || exact I || reflexivity);
            cbn [startswith Ascii.eqb Bool.eqb andb String.length sdrop expand group
                 Nat.eqb];
            rewrite ?startswith_nil, ?app_assoc_s, ?app_cons, ?app_nil_l_s,
              ?app_nil_r_s);
    reflexivity.
Qed.

Lemma translate_line_list_only e line :
  no_earlier_syntax e line = true ->
  no_inline_syntax (apply_rewrites_once list_rewrites line) = true ->
  translate_line e line = ret (apply_rewrites_once list_rewrites line).
Proof.
  unfold no_earlier_syntax, no_inline_syntax. intros H Hi.
  apply andb_true_iff in H as [H He]. apply andb_true_iff in H as [H Hl].
  rewrite forallb_app in H. apply andb_true_iff in H as [Hh Hd].
  apply negb_true_iff in Hl, He.
  unfold translate_line.
  rewrite (apply_rewrites_no_match _ _ Hh), (apply_rewrites_no_match _ _ Hd).
  rewrite (findall_no_match _ _ Hl). simpl foldM. rewrite bind_ret.
  rewrite (findall_no_match _ _ He). simpl foldM. rewrite bind_ret.
  now rewrite (apply_rewrites_no_match _ _ Hi).
Qed.

(** X22.  A checkbox item: a line of white space, one of the markers [[*]],
    [[x]], [[>]], [[ ]] and a text gets the list dash before the
    marker.  The line is taken to hold nothing the earlier patterns
    match, and the result nothing the later ones match. *)
Theorem checkbox_item e (indent rest : string) (c : ascii) :
  In c ["*"; "x"; ">"; " "]%char ->
  all_chars is_space indent = true ->
  no_earlier_syntax e (indent ++ String "[" (String c (String "]" rest))) = true ->
  no_inline_syntax (indent ++ "- " ++ String "[" (String c (String "]" rest)))
  = true ->
  translate_line e (indent ++ String "[" (String c (String "]" rest)))
  = ret (indent ++ "- " ++ String "[" (String c (String "]" rest))).
Proof.
  intros Hc Hi He Hl.
  rewrite translate_line_list_only; rewrite ?checkbox_rewritten by assumption;
    [reflexivity|exact He|exact Hl].
Qed.

(** *** Links to pages by their plain name, and to files elsewhere *)

Lemma has_char_excluded S x t :
  all_chars (fun c => negb (has_char c S)) t = true ->
  has_char x S = true -> has_char x t = false.
Proof.
  intros Ht Hx. induction t as [|c t IH]; [reflexivity|].
  simpl in Ht. apply andb_true_iff in Ht as [Hc Ht]. simpl.
  rewrite (IH Ht), orb_false_r.
  destruct (Ascii.eqb_spec c x) as [->|]; [|reflexivity].
  rewrite Hx in Hc. discriminate.
Qed.

Lemma startswith_has_char x t p :
  startswith t p = true -> has_char x p = true -> has_char x t = true.
Proof.
  intros H Hx. apply startswith_app in H. rewrite H, has_char_app, Hx.
  reflexivity.
Qed.

Lemma startswith_excluded x t p :
  has_char x t = false -> has_char x p = true -> startswith t p = false.
Proof.
  intros Ht Hp. destruct (startswith t p) eqn:E; [|reflexivity].
  rewrite (startswith_has_char x t p E Hp) in Ht. discriminate.
Qed.

Lemma name_char_sep_free fl t :
  all_chars name_char t = true -> sep_free fl t = true.
Proof.
  apply all_chars_impl. intros c. unfold name_char. cbn [has_char].
  intros H. apply negb_true_iff in H.
  apply orb_false_iff in H as [_ H]. apply orb_false_iff in H as [_ H].
  apply orb_false_iff in H as [Hb H]. apply orb_false_iff in H as [Hs _].
  destruct fl; unfold is_sep; rewrite ?(Ascii.eqb_sym c), ?Hb, ?Hs;
    reflexivity.
Qed.

Lemma last_char_all q t :
  all_chars q t = true -> t <> "" ->
  exists c, last_char t = Some c /\ q c = true.
Proof.
  induction t as [|a t IH]; [congruence|]. intros H _.
  simpl in H. apply andb_true_iff in H as [Ha Ht].
  destruct t as [|b t]; [exists a; auto|].
  destruct (IH Ht) as (c & Hc & Hq); [discriminate|].
  exists c. split; [exact Hc|exact Hq].
Qed.

Section PlainLink.
Variable e : env.
Variable t : string.
Hypothesis t_nonempty : t <> "".
Hypothesis t_plain : all_chars name_char t = true.
Hypothesis t_no_url : startswith t "http" = false.

Lemma plain_has x : has_char x "|:\/ .+?" = true -> has_char x t = false.
Proof. apply has_char_excluded. exact t_plain. Qed.

Lemma plain_part_wf : part_wf (fl e) t = true.
Proof.
  unfold part_wf, part_ok. rewrite (name_char_sep_free (fl e) t t_plain).
  assert (H1 : String.eqb t "" = false) by now apply String.eqb_neq.
  assert (H2 : String.eqb t "." = false).
  { apply String.eqb_neq. intros E.
    pose proof (plain_has "." eq_refl) as H. rewrite E in H. discriminate. }
  now rewrite H1, H2.
Qed.

Lemma plain_joinpath (p : path) : joinpath (fl e) p t = (p ++ [t])%list.
Proof.
  pose proof (name_char_sep_free (fl e) t t_plain) as Hs.
  pose proof plain_part_wf as Hw.
  unfold joinpath. destruct t as [|c t'] eqn:E; [congruence|].
  rewrite (sep_free_head _ _ _ Hs). unfold rel_parts.
  rewrite split_on_free by exact Hs. simpl.
  unfold part_wf in Hw. apply andb_true_iff in Hw as [Hw _]. now rewrite Hw.
Qed.

Lemma plain_target line :
  link_target e line t = ret (link_folder_note e t, t, false).
Proof.
  unfold link_target, link_split.
  rewrite (plain_has "|" eq_refl), bind_ret.
  unfold link_wikipedia.
  rewrite (startswith_excluded "?" t "wp?" (plain_has "?" eq_refl) eq_refl).
  cbv iota. unfold link_prefix. rewrite t_no_url.
  rewrite (startswith_excluded ":" t "file:///" (plain_has ":" eq_refl) eq_refl).
  rewrite (startswith_excluded "." t "./" (plain_has "." eq_refl) eq_refl).
  rewrite (startswith_excluded "." t ".\" (plain_has "." eq_refl) eq_refl).
  cbn [orb].
  rewrite (startswith_excluded "+" t "+" (plain_has "+" eq_refl) eq_refl).
  rewrite (startswith_excluded ":" t ":" (plain_has ":" eq_refl) eq_refl).
  rewrite (replace_char_absent ":" "\" t (plain_has ":" eq_refl)).
  rewrite bind_ret. reflexivity.
Qed.

Lemma plain_nested :
  os_join (fl e) t (split_tail (fl e) t) = t ++ sep_str (fl e) ++ t.
Proof.
  pose proof (name_char_sep_free (fl e) t t_plain) as Hs.
  unfold split_tail. rewrite (rfind_if_none _ _ Hs).
  unfold os_join.
  destruct (last_char_all _ t Hs t_nonempty) as (c & -> & Hc).
  apply negb_true_iff in Hc. now rewrite Hc.
Qed.

Lemma nested_in_notes :
  exists b, in_notes e (t ++ sep_str (fl e) ++ t) = ret b.
Proof.
  pose proof (name_char_sep_free (fl e) t t_plain) as Hs.
  pose proof plain_part_wf as Hw.
  apply in_notes_returns.
  assert (Hj : joinpath (fl e) (zim_dir e) (t ++ sep_str (fl e) ++ t)
               = (zim_dir e ++ [t; t])%list).
  { unfold joinpath. destruct t as [|c t'] eqn:E; [congruence|].
    rewrite app_cons. rewrite (sep_free_head _ _ _ Hs).
    rewrite <- app_cons. unfold rel_parts, sep_str.
    change (String (sep (fl e)) "" ++ String c t')
      with (String (sep (fl e)) (String c t')).
    rewrite split_on_app_sep, split_on_free by exact Hs.
    unfold part_wf in Hw. apply andb_true_iff in Hw as [Hw _].
    simpl. now rewrite Hw. }
  rewrite Hj. apply with_suffix_last.
  - now destruct (zim_dir e).
  - rewrite last_app_nonempty by discriminate. exact t_nonempty.
Qed.

Lemma nested_slashed :
  replace "\" "/" (t ++ sep_str (fl e) ++ t) = t ++ "/" ++ t.
Proof.
  pose proof (replace_char_absent "\" "/" t (plain_has "\" eq_refl)) as Ht.
  rewrite replace_char in *. rewrite !map_char_app, Ht.
  now destruct (fl e).
Qed.

(** A link to a page by its plain name: under folder-note mode, when
    the notebook has a directory of that name, the link points one
    level in, to the page inside the folder; otherwise the token stays
    a bare reference.  Whether the page is in the page mapping does
    not matter. *)
Lemma plain_link_step line m :
  group 2 m = t ->
  link_step e line m
  = ret (replace_first (group 1 m)
           (if folder_notes e && is_dir e (zim_dir e ++ [t])%list
            then "[" ++ t ++ "](" ++ t ++ "/" ++ t ++ ")"
            else "[[" ++ t ++ "]]") line).
Proof.
  intros Hm. unfold link_step. rewrite Hm, plain_target, bind_ret.
  unfold link_folder_note. rewrite plain_joinpath.
  destruct (folder_notes e && is_dir e (zim_dir e ++ [t])%list).
  - rewrite plain_nested.
    rewrite link_underscore_same, bind_ret; [| |exact nested_in_notes].
    + rewrite nested_slashed. unfold link_text.
      rewrite eqb_length_neq.
      * rewrite !has_char_app, (plain_has " " eq_refl).
        change (has_char " " "/") with false. cbn [negb orb].
        now rewrite !app_assoc_s.
      * rewrite !length_app. simpl. lia.
    + rewrite !has_char_app, (plain_has " " eq_refl).
      now destruct (fl e).
  - rewrite link_underscore_same, bind_ret.
    + rewrite (replace_char_absent "\" "/" t (plain_has "\" eq_refl)).
      unfold link_text. now rewrite String.eqb_refl.
    + exact (plain_has " " eq_refl).
    + apply in_notes_returns. rewrite plain_joinpath.
      apply with_suffix_last.
      * now destruct (zim_dir e).
      * rewrite last_app_nonempty by discriminate. exact t_nonempty.
Qed.

End PlainLink.

(** X23.  A link [[NAME]] to a page by a plain name (no bar, colon, slash,
    backslash, space, dot, plus or question mark, and not starting with
    http): under folder-note mode, when the notebook has a directory
    NAME, the token becomes the labelled link to NAME/NAME; otherwise it
    stays the bare reference.  Nothing is printed, and the page mapping
    is not consulted for the outcome. *)
Theorem plain_page_link e (line : string) (m : captures) (name : string) :
  group 2 m = name ->
  name <> "" ->
  all_chars name_char name = true ->
  startswith name "http" = false ->
  link_step e line m
  = ret (replace_first (group 1 m)
           (if folder_notes e && is_dir e (zim_dir e ++ [name])%list
            then "[" ++ name ++ "](" ++ name ++ "/" ++ name ++ ")"
            else "[[" ++ name ++ "]]") line).
Proof.
  intros Hm Hne Hpl Hurl. now apply plain_link_step.
Qed.

(** X24.  A link to [file:///PATH] with [PATH] outside the notebook directory
    and without space becomes a labelled link to [PATH], with slashes
    for backslashes; the label keeps the [file:///] prefix. *)
Theorem file_link_outside_notebook e (line : string) (m : captures)
    (target : string) :
  group 2 m = "file:///" ++ target ->
  has_char "|" target = false ->
  has_char " " target = false ->
  relative_to (parse_path (fl e) target) (zim_dir e) = None ->
  folder_notes e && is_dir e (joinpath (fl e) (zim_dir e) target) = false ->
  with_suffix (joinpath (fl e) (zim_dir e) target) ".txt" <> None ->
  link_step e line m
  = ret (replace_first (group 1 m)
           ("[file:///" ++ target ++ "](" ++ replace "\" "/" target ++ ")")
           line).
Proof.
  intros Hm Hbar Hsp Hrel Hdir Hsuf. unfold link_step, link_target. rewrite Hm.
  rewrite link_split_plain by (rewrite has_char_app, Hbar; reflexivity).
  rewrite bind_ret.
  change ("file:///" ++ target) with (String "f" ("ile:///" ++ target)).
  unfold link_wikipedia.
  change (startswith (String "f" ("ile:///" ++ target)) "wp?") with false.
  cbv iota. unfold link_prefix.
  change (startswith (String "f" ("ile:///" ++ target)) "http") with false.
  change (String "f" ("ile:///" ++ target)) with ("file:///" ++ target).
  rewrite startswith_refl_app.
  change 8 with (String.length "file:///"). rewrite sdrop_app_length.
  rewrite Hrel. cbv iota. rewrite !bind_ret.
  unfold link_folder_note. rewrite Hdir.
  rewrite link_underscore_same, bind_ret;
    [|exact Hsp|now apply in_notes_returns].
  unfold link_text. rewrite orb_true_r.
  now rewrite (no_space_slashed _ Hsp).
Qed.

(** *** Names without extension *)

Lemma dotless_no_match s : all_chars dotless s = true -> lazy_digits s = None.
Proof.
  induction s as [|c s IH]; intros H; rewrite lazy_digits_unfold.
  - reflexivity.
  - destruct (digits_dot (String c s)) as [[[d g3] rest]|] eqn:E.
    + exfalso. apply digits_dot_struct in E as (Es & _ & (u0 & u & -> & _)).
      rewrite Es, !all_chars_app in H.
      apply andb_true_iff in H as [_ H]. apply andb_true_iff in H as [H _].
      change (all_chars dotless (String "." (String u0 u)))
        with (dotless "." && all_chars dotless (String u0 u)) in H.
      change (dotless ".") with false in H. discriminate.
    + simpl in H. apply andb_true_iff in H as [Hc Hs].
      rewrite (IH Hs). now destruct (dot c).
Qed.

Lemma dotless_dot s : all_chars dotless s = true -> all_chars dot s = true.
Proof.
  apply all_chars_impl. intros c H. unfold dotless in H.
  now apply andb_true_iff in H as [? _].
Qed.

Lemma dotless_next fl s :
  all_chars dotless s = true -> next_name fl s = s ++ " 1".
Proof.
  intros H. rewrite next_name_spec.
  rewrite (lazy_none_first s (dotless_dot s H) (dotless_no_match s H)).
  unfold splitext. rewrite rfind_if_none; [reflexivity|].
  revert H. apply all_chars_impl. intros c Hc. unfold dotless in Hc.
  now apply andb_true_iff in Hc as [_ ?].
Qed.

Lemma dotless_candidate fl s k :
  all_chars dotless s = true ->
  candidate fl s k = s ++ ones k /\ all_chars dotless (s ++ ones k) = true.
Proof.
  intros H. induction k as [|k [IH1 IH2]].
  - simpl ones. rewrite app_nil_r_s. auto.
  - rewrite candidate_succ, IH1, (dotless_next fl _ IH2).
    simpl ones. rewrite app_assoc_s. split; [reflexivity|].
    rewrite <- app_assoc_s, all_chars_app, IH2. reflexivity.
Qed.

(** X28.  A requested name without dot and newline: the allocator does not
    count.  When the name and the name followed by " 1" up to [k] times
    are taken and the name followed by " 1" [k + 1] times is free, that
    is what it returns: "README 1 1" after "README 1". *)
Theorem make_unique_string_no_extension fl (existing_names : list string)
    (requested_name : string) (k : nat) :
  all_chars dotless requested_name = true ->
  (forall i, i <= k -> In (requested_name ++ ones i) existing_names) ->
  ~ In (requested_name ++ ones (S k)) existing_names ->
  make_unique_string fl existing_names requested_name
  = Some (requested_name ++ ones (S k)).
Proof.
  intros H Hin Hout.
  destruct (dotless_candidate fl requested_name (S k) H) as [<- _].
  apply make_unique_string_candidate.
  - intros i Hi. destruct (dotless_candidate fl requested_name i H) as [-> _].
    apply Hin. lia.
  - destruct (dotless_candidate fl requested_name (S k) H) as [-> _].
    exact Hout.
Qed.

(** *** Size options of an embed whose file was never located *)

(** X29.  An embed with a width or height option whose target starts neither
    with [file:///] nor with [./] or [.\], as the first embed of its
    line: the file to measure was never assigned, and the handler of
    the failure names it again: [UnboundLocalError]. *)
Theorem sized_embed_without_file e (line : string) (m : captures)
    (target key val : string) :
  group 2 m = target ++ "?" ++ key ++ "=" ++ val ->
  key = "width" \/ key = "height" ->
  has_char "?" target = false ->
  startswith target "file:///" = false ->
  startswith target "./" = false -> startswith target ".\" = false ->
  has_char "?" val = false -> has_char "&" val = false ->
  has_char "=" val = false ->
  embed_step e (line, None) m = raise UnboundLocalError.
Proof.
  intros Hm Hkey Ht Hf Hd1 Hd2 Hq Ha He. unfold embed_step. rewrite Hm.
  assert (Hkq : has_char "?" (key ++ "=" ++ val) = false)
    by (destruct Hkey as [-> | ->]; rewrite !has_char_app, Hq; reflexivity).
  assert (Hka : has_char "&" (key ++ "=" ++ val) = false)
    by (destruct Hkey as [-> | ->]; rewrite !has_char_app, Ha; reflexivity).
  assert (Hke : has_char "=" key = false)
    by (destruct Hkey as [-> | ->]; reflexivity).
  rewrite has_char_app. change ("?" ++ key ++ "=" ++ val)
    with (String "?" (key ++ "=" ++ val)).
  cbn [has_char]. rewrite Ascii.eqb_refl, orb_true_r.
  unfold split2 at 1. rewrite (split_on_two "?" _ _ Ht Hkq).
  rewrite !bind_ret. rewrite Hf, bind_ret, Hd1, Hd2. cbn [orb].
  rewrite bind_ret.
  assert (Hopt : exists c o, key ++ "=" ++ val = String c o)
    by (destruct Hkey as [-> | ->]; eexists _, _; reflexivity).
  destruct Hopt as (c & o & Eo). rewrite Eo.
  rewrite <- Eo. rewrite (split_on_absent "&" _ Hka).
  cbn [options_dict]. unfold split2.
  change (key ++ "=" ++ val) with (key ++ String "=" val).
  rewrite (split_on_two "=" _ _ Hke He), !bind_ret.
  cbn [dict_set foldM]. unfold option_step. cbn [fst].
  destruct Hkey as [-> | ->]; reflexivity.
Qed.

(** *** Every file of the walk is mapped *)

Section Completeness.
Variable fl : flavour.
Variables zim_dir obs_dir : path.
Variable pol : policy.


End Completeness.


(** *** The properties on the small notebook *)

Lemma make_unique_string_appends_witness :
  make_unique_string Posix ["a.png"; "a 1.png"] "a.png" = Some "a 2.png".
Proof.
  apply (make_unique_string_appends Posix ["a.png"; "a 1.png"] "a.png" 1).
  - reflexivity.
  - reflexivity.
  - simpl. lia.
  - intros [|[|i]] Hi; [simpl; auto|simpl; auto|lia].
  - vm_compute. intros [H|[H|[]]]; discriminate H.
Defined.


Lemma folder_map_mirrors_witness :
  exists m,
    map_zim_dir_to_obsidian_dir Posix [""; "zim"] [""; "obs"] demo_policy demo_walk
    = Some m
    /\ forall k v,
         folder_map m !! k = Some v
         <-> exists w d, In w demo_walk /\ In d (w_folders w)
                         /\ k = ([""; "zim"] ++ w_relroot w ++ [d])%list
                         /\ v = ([""; "obs"] ++ w_relroot w ++ [d])%list.
Proof.
  destruct (map_zim_dir_total Posix [""; "zim"] [""; "obs"] demo_policy demo_walk)
    as (m & E).
  exists m. split; [exact E|].
  exact (folder_map_mirrors Posix [""; "zim"] [""; "obs"] demo_policy demo_walk
           m E).
Defined.

Lemma note_map_destinations_witness :
  exists m,
    map_zim_dir_to_obsidian_dir Posix [""; "zim"] [""; "obs"] demo_policy demo_walk
    = Some m
    /\ forall k v,
         note_map m !! k = Some v ->
         exists w f stem,
           In w demo_walk /\ In f (w_files w)
           /\ splitext Posix (fe_name f) = (stem, ".txt")
           /\ compatible (fe_lines f) = true
           /\ k = ([""; "zim"] ++ w_relroot w ++ [fe_name f])%list
           /\ (v = ([""; "obs"] ++ w_relroot w ++ [(stem ++ ".md")%string])%list
               \/ (use_folder_notes demo_policy = true
                   /\ folder_map m !! ([""; "zim"] ++ w_relroot w ++ [stem])%list
                      = Some ([""; "obs"] ++ w_relroot w ++ [stem])%list
                   /\ v = (([""; "obs"] ++ w_relroot w ++ [stem])
                           ++ [(stem ++ ".md")%string])%list)).
Proof.
  destruct (map_zim_dir_total Posix [""; "zim"] [""; "obs"] demo_policy demo_walk)
    as (m & E).
  exists m. split; [exact E|].
  exact (note_map_destinations Posix [""; "zim"] [""; "obs"] demo_policy
           demo_walk m E).
Defined.

Lemma page_stays_in_place_witness :
  exists m,
    map_zim_dir_to_obsidian_dir Posix [""; "zim"] [""; "obs"] demo_policy
      (List.tl demo_walk ++ [ {| w_relroot := ["b"];
                                 w_folders := [];
                                 w_files := [ {| fe_name := "c.txt";
                                                 fe_lines := page_header |} ] |} ])
    = Some m
    /\ note_map m !! [""; "zim"; "b"; "c.txt"] = Some [""; "obs"; "b"; "c.md"].
Proof.
  destruct (map_zim_dir_total Posix [""; "zim"] [""; "obs"] demo_policy
              (List.tl demo_walk
               ++ [ {| w_relroot := ["b"];
                       w_folders := [];
                       w_files := [ {| fe_name := "c.txt";
                                       fe_lines := page_header |} ] |} ]))
    as (m & E).
  exists m. split; [exact E|].
  apply (page_stays_in_place Posix [""; "zim"] [""; "obs"] demo_policy _ m
           {| w_relroot := ["b"];
              w_folders := [];
              w_files := [ {| fe_name := "c.txt"; fe_lines := page_header |} ] |}
           {| fe_name := "c.txt"; fe_lines := page_header |} "c" E).
  - simpl. auto.
  - simpl. auto.
  - reflexivity.
  - reflexivity.
  - right. intros w' [<-|[<-|[]]] _; simpl; auto.
Defined.

Lemma file_map_sources_witness :
  exists m,
    map_zim_dir_to_obsidian_dir Posix [""; "zim"] [""; "obs"] demo_policy demo_walk
    = Some m
    /\ forall k v,
         file_map m !! k = Some v ->
         exists w f,
           In w demo_walk /\ In f (w_files w)
           /\ k = ([""; "zim"] ++ w_relroot w ++ [fe_name f])%list
           /\ is_page Posix f = false
           /\ in_list (snd (splitext Posix (fe_name f)))
                (ignore_extensions demo_policy) = false.
Proof.
  destruct (map_zim_dir_total Posix [""; "zim"] [""; "obs"] demo_policy demo_walk)
    as (m & E).
  exists m. split; [exact E|].
  exact (file_map_sources Posix [""; "zim"] [""; "obs"] demo_policy demo_walk
           m E).
Defined.

Lemma attachment_stays_in_place_witness :
  exists m,
    map_zim_dir_to_obsidian_dir Posix [""; "zim"] [""; "obs"] local_policy demo_walk
    = Some m
    /\ file_map m !! [""; "zim"; "a"; "x.png"] = Some [""; "obs"; "a"; "x.png"].
Proof.
  destruct (map_zim_dir_total Posix [""; "zim"] [""; "obs"] local_policy demo_walk)
    as (m & E).
  exists m. split; [exact E|].
  apply (attachment_stays_in_place Posix [""; "zim"] [""; "obs"] local_policy
           demo_walk m
           {| w_relroot := ["a"];
              w_folders := [];
              w_files := [ {| fe_name := "x.png"; fe_lines := [] |} ] |}
           {| fe_name := "x.png"; fe_lines := [] |} E).
  - reflexivity.
  - simpl. auto.
  - simpl. auto.
  - reflexivity.
  - reflexivity.
Defined.

Lemma translate_file_short_page_witness :
  translate_file (demo_env ["Parent.txt"] ∅ ∅) (firstn 4 two_fences)
  = Some (raise IndexError).
Proof.
  apply (translate_file_short_page (demo_env ["Parent.txt"] ∅ ∅)
           (firstn 4 two_fences)).
  simpl. lia.
Defined.

Lemma translate_file_length_witness :
  4 < List.length two_fences
  /\ (5 = List.length two_fences - 4 \/ 5 = List.length two_fences - 5).
Proof.
  apply (translate_file_length (demo_env ["Parent.txt"] ∅ ∅) two_fences []
           [ "```python" ++ nl;
             "print(1)" ++ nl;
             "```" ++ nl;
             "{{{code: lang=" ++ dquote ++ "sh" ++ dquote ++ " linenumbers="
               ++ dquote ++ "True" ++ dquote ++ nl;
             "echo 1" ++ nl ]).
  vm_compute. reflexivity.
Defined.

Lemma translate_file_error_witness :
  KeyError = IndexError
  \/ exists log0 log1 line,
       [ErrorInFile [""; "zim"; "My_Page.txt"] ("[[./doc.pdf]]" ++ nl)]
       = (log0 ++ log1 ++ [ErrorInFile (old_filepath my_page_env) line])%list
       /\ translate_line my_page_env line = (log1, inl KeyError).
Proof.
  apply (translate_file_error my_page_env link_page
           [ErrorInFile [""; "zim"; "My_Page.txt"] ("[[./doc.pdf]]" ++ nl)]
           KeyError).
  vm_compute. reflexivity.
Defined.

Lemma unterminated_fence_raises_witness :
  exists log err,
    translate_loop (demo_env ["Parent.txt"] ∅ ∅) 3
      ["text" ++ nl; "{{{code: x" ++ nl] (-1)
    = Some (log, inl err).
Proof.
  apply (unterminated_fence_raises (demo_env ["Parent.txt"] ∅ ∅)
           ["text" ++ nl; "{{{code: x" ++ nl] 1 ("{{{code: x" ++ nl)).
  - reflexivity.
  - reflexivity.
  - intros [|[|j]] line Hj Hl; try lia. discriminate Hl.
  - intros _. exists ("text" ++ nl). split; reflexivity.
Defined.

Lemma code_block_verbatim_witness :
  fenced_lines !! 1
  = Some ("{{{code: lang=" ++ dquote ++ "sh" ++ dquote ++ " x" ++ nl)
  /\ translate_loop (demo_env ["Parent.txt"] ∅ ∅) 10 fenced_lines (-1)
     = Some (ret [ "text" ++ nl; "```sh" ++ nl; "echo __1__" ++ nl;
                   "```" ++ nl; "__after__" ++ nl; "==more==" ++ nl ])
  /\ [ "text" ++ nl; "```sh" ++ nl; "echo __1__" ++ nl; "```" ++ nl;
       "__after__" ++ nl; "==more==" ++ nl ] !! 1
     = Some (fence_open
               ("{{{code: lang=" ++ dquote ++ "sh" ++ dquote ++ " x" ++ nl))
  /\ (forall k, k < 1 ->
        [ "text" ++ nl; "```sh" ++ nl; "echo __1__" ++ nl; "```" ++ nl;
          "__after__" ++ nl; "==more==" ++ nl ] !! (1 + 1 + k)
        = ["echo __1__" ++ nl] !! k)
  /\ [ "text" ++ nl; "```sh" ++ nl; "echo __1__" ++ nl; "```" ++ nl;
       "__after__" ++ nl; "==more==" ++ nl ] !! (1 + 1 + 1)
     = Some ("```" ++ nl)
  /\ [ "text" ++ nl; "```sh" ++ nl; "echo __1__" ++ nl; "```" ++ nl;
       "__after__" ++ nl; "==more==" ++ nl ] !! (1 + 1 + 1 + 1)
     = ["__after__" ++ nl; "__more__" ++ nl] !! 0.
Proof.
  split; [reflexivity|]. split; [vm_compute; reflexivity|].
  apply (code_block_verbatim (demo_env ["Parent.txt"] ∅ ∅) 10
           ["text" ++ nl] ["echo __1__" ++ nl]
           ["__after__" ++ nl; "__more__" ++ nl]
           ("{{{code: lang=" ++ dquote ++ "sh" ++ dquote ++ " x" ++ nl)
           ("}}}" ++ nl) []
           [ "text" ++ nl; "```sh" ++ nl; "echo __1__" ++ nl; "```" ++ nl;
             "__after__" ++ nl; "==more==" ++ nl ]).
  - repeat constructor.
  - reflexivity.
  - repeat constructor.
  - reflexivity.
  - vm_compute. reflexivity.
Defined.


Lemma relative_link_missing_attachment_witness :
  link_step (demo_env ["Parent.txt"] ∅ ∅) "[[./doc.pdf]]"
    [(1, "[[./doc.pdf]]"); (2, "./doc.pdf")]
  = raise KeyError.
Proof.
  apply (relative_link_missing_attachment (demo_env ["Parent.txt"] ∅ ∅)
           "[[./doc.pdf]]" [(1, "[[./doc.pdf]]"); (2, "./doc.pdf")] "doc.pdf").
  - left. reflexivity.
  - reflexivity.
  - reflexivity.
Defined.

Lemma embed_attachment_resolved_witness :
  embed_step my_page_env ("{{./doc.pdf}}", None)
    [(1, "{{./doc.pdf}}"); (2, "./doc.pdf")]
  = ret (replace_first "{{./doc.pdf}}"
           ("![[" ++ path_str Posix ["doc.pdf"] ++ "]]") "{{./doc.pdf}}",
         Some (joinpath Posix ([""; "zim"] ++ ["My_Page"])%list "doc.pdf")).
Proof.
  apply (embed_attachment_resolved my_page_env "{{./doc.pdf}}" None
           [(1, "{{./doc.pdf}}"); (2, "./doc.pdf")] "doc.pdf"
           ["My_Page.txt"] ["My_Page"] [""; "obs"; "attachments"; "doc.pdf"]
           ["doc.pdf"]).
  - left. reflexivity.
  - reflexivity.
  - reflexivity.
  - reflexivity.
  - vm_compute. reflexivity.
  - reflexivity.
Defined.

Lemma embed_missing_attachment_witness :
  embed_step (demo_env ["Parent.txt"] ∅ ∅) ("{{./doc.pdf}}", None)
    [(1, "{{./doc.pdf}}"); (2, "./doc.pdf")]
  = raise KeyError.
Proof.
  apply (embed_missing_attachment (demo_env ["Parent.txt"] ∅ ∅) "{{./doc.pdf}}"
           None [(1, "{{./doc.pdf}}"); (2, "./doc.pdf")] "doc.pdf"
           ["Parent.txt"] ["Parent"]).
  - left. reflexivity.
  - reflexivity.
  - reflexivity.
  - reflexivity.
  - reflexivity.
Defined.

Lemma heading_level_witness :
  translate_line (demo_env ["Parent.txt"] ∅ ∅)
    (repeat_char "=" 6 ++ " Title " ++ repeat_char "=" 6 ++ nl)
  = ret (repeat_char "#" (7 - 6) ++ " Title " ++ nl).
Proof.
  apply (heading_level (demo_env ["Parent.txt"] ∅ ∅) 6 6 " Title " nl).
  - lia.
  - lia.
  - discriminate.
  - reflexivity.
  - right. reflexivity.
  - vm_compute. reflexivity.
Defined.

Lemma global_attachments_distinct_witness :
  exists m,
    map_zim_dir_to_obsidian_dir Posix [""; "zim"] [""; "obs"] demo_policy demo_walk
    = Some m
    /\ forall k1 k2 v,
         file_map m !! k1 = Some v -> file_map m !! k2 = Some v -> k1 = k2.
Proof.
  destruct (map_zim_dir_total Posix [""; "zim"] [""; "obs"] demo_policy demo_walk)
    as (m & E).
  exists m. split; [exact E|].
  apply (global_attachments_distinct Posix [""; "zim"] [""; "obs"] demo_policy
           demo_walk m); try reflexivity; [|exact E].
  intros w f Hw Hf. destruct Hw as [<-|[<-|[]]]; simpl in Hf;
    repeat (destruct Hf as [<-|Hf]; [split; reflexivity|]); destruct Hf.
Defined.

Lemma global_attachments_in_folder_witness :
  exists m,
    map_zim_dir_to_obsidian_dir Posix [""; "zim"] [""; "obs"] demo_policy demo_walk
    = Some m
    /\ forall k v,
         file_map m !! k = Some v ->
         exists name, v = (([""; "obs"] ++ ["attachments"]) ++ [name])%list
                      /\ part_wf Posix name = true.
Proof.
  destruct (map_zim_dir_total Posix [""; "zim"] [""; "obs"] demo_policy demo_walk)
    as (m & E).
  exists m. split; [exact E|].
  apply (global_attachments_in_folder Posix [""; "zim"] [""; "obs"] demo_policy
           demo_walk m); try reflexivity; [|exact E].
  intros w f Hw Hf. destruct Hw as [<-|[<-|[]]]; simpl in Hf;
    repeat (destruct Hf as [<-|Hf]; [split; reflexivity|]); destruct Hf.
Defined.

Lemma legacy_unterminated_fence_witness :
  legacy_loop (fun s => s) 5 ["text" ++ nl; "{{{code: x" ++ nl; "echo" ++ nl] 0
  = Some (inl IndexError).
Proof.
  apply (legacy_unterminated_fence (fun s => s)
           ["text" ++ nl; "{{{code: x" ++ nl; "echo" ++ nl] 1
           ("{{{code: x" ++ nl)).
  - reflexivity.
  - reflexivity.
  - reflexivity.
  - intros [|[|[|j]]] line Hj Hl; try lia; [|discriminate Hl].
    injection Hl as <-. reflexivity.
  - simpl. lia.
Defined.

Lemma checkbox_item_witness :
  translate_line (demo_env ["Parent.txt"] ∅ ∅)
    ("  " ++ String "[" (String "x" (String "]" (" task" ++ nl))))
  = ret ("  " ++ "- " ++ String "[" (String "x" (String "]" (" task" ++ nl)))).
Proof.
  apply (checkbox_item (demo_env ["Parent.txt"] ∅ ∅) "  " (" task" ++ nl) "x").
  - simpl. auto.
  - reflexivity.
  - vm_compute. reflexivity.
  - vm_compute. reflexivity.
Defined.

Lemma plain_page_link_witness :
  link_step (demo_env ["Parent.txt"] ∅ ∅) "see [[Home]]"
    [(1, "[[Home]]"); (2, "Home")]
  = ret (replace_first "[[Home]]"
           (if folder_notes (demo_env ["Parent.txt"] ∅ ∅)
               && is_dir (demo_env ["Parent.txt"] ∅ ∅)
                    (zim_dir (demo_env ["Parent.txt"] ∅ ∅) ++ ["Home"])%list
            then "[" ++ "Home" ++ "](" ++ "Home" ++ "/" ++ "Home" ++ ")"
            else "[[" ++ "Home" ++ "]]") "see [[Home]]").
Proof.
  apply (plain_page_link (demo_env ["Parent.txt"] ∅ ∅) "see [[Home]]"
           [(1, "[[Home]]"); (2, "Home")] "Home").
  - reflexivity.
  - discriminate.
  - reflexivity.
  - reflexivity.
Defined.

Lemma file_link_outside_notebook_witness :
  link_step (demo_env ["Parent.txt"] ∅ ∅) "[[file:////tmp/x.png]]"
    [(1, "[[file:////tmp/x.png]]"); (2, "file:////tmp/x.png")]
  = ret (replace_first "[[file:////tmp/x.png]]"
           ("[file:///" ++ "/tmp/x.png" ++ "](" ++ replace "\" "/" "/tmp/x.png"
            ++ ")")
           "[[file:////tmp/x.png]]").
Proof.
  apply (file_link_outside_notebook (demo_env ["Parent.txt"] ∅ ∅)
           "[[file:////tmp/x.png]]"
           [(1, "[[file:////tmp/x.png]]"); (2, "file:////tmp/x.png")]
           "/tmp/x.png").
  - reflexivity.
  - reflexivity.
  - reflexivity.
  - reflexivity.
  - reflexivity.
  - discriminate.
Defined.

Lemma make_unique_string_no_extension_witness :
  make_unique_string Posix ["README"; "README 1"] "README"
  = Some ("README" ++ ones 2).
Proof.
  apply (make_unique_string_no_extension Posix ["README"; "README 1"] "README" 1).
  - reflexivity.
  - intros [|[|i]] Hi; [simpl; auto|simpl; auto|lia].
  - vm_compute. intros [H|[H|[]]]; discriminate H.
Defined.

Lemma sized_embed_without_file_witness :
  embed_step (demo_env ["Parent.txt"] ∅ ∅) ("{{image.png?width=100}}", None)
    [(1, "{{image.png?width=100}}"); (2, "image.png?width=100")]
  = raise UnboundLocalError.
Proof.
  apply (sized_embed_without_file (demo_env ["Parent.txt"] ∅ ∅)
           "{{image.png?width=100}}"
           [(1, "{{image.png?width=100}}"); (2, "image.png?width=100")]
           "image.png" "width" "100").
  - reflexivity.
  - left. reflexivity.
  - reflexivity.
  - reflexivity.
  - reflexivity.
  - reflexivity.
  - reflexivity.
  - reflexivity.
  - reflexivity.
Defined.
